(** * rsmv legacy cache: opcode table, instruction codec, record store,
      format detector

    A shallow embedding of
      - [CS2OpcodeMappings] and [Build727ClientscriptObfuscation] (cs2opcodes),
      - [LegacyFileSource] (legacyloader),
      - [selectFsCache] (autocache),
    together with the properties the specification states about them.

    Conventions.
      - A JavaScript string is the list of its UTF-16 code units ([jsstring]).
      - A Node [Buffer] is the list of its bytes, each a [Z] in [0, 256).
      - A JavaScript number that the code uses as an integer is a [Z];
        rounding of doubles beyond 2^53 is outside the model.
      - A function that can throw returns a [result]. *)

From Stdlib Require Import ZArith List Bool Lia String Ascii.
From stdpp Require Import base option list gmap sorting.

Local Open Scope Z_scope.

(* ===================================================================== *)
(** ** Results and exceptions *)

Inductive result (E A : Type) : Type :=
| Ok (a : A)
| Err (e : E).
Arguments Ok {E A} a.
Arguments Err {E A} e.

Definition rbind {E A B} (m : result E A) (k : A -> result E B) : result E B :=
  match m with
  | Ok a => k a
  | Err e => Err e
  end.

Notation "'do' x <- m ; k" := (rbind m (fun x => k))
  (at level 10, x name, m at level 100, k at level 200).

(* ===================================================================== *)
(** ** JavaScript strings *)

Abbreviation jsstring := (list Z) (only parsing).

(** An ASCII literal of the source as a [jsstring]. *)
Definition lit (s : string) : jsstring :=
  map (fun a => Z.of_N (N_of_ascii a)) (list_ascii_of_string s).

Definition code_unit (c : Z) : Prop := 0 <= c < 65536.

Definition is_high_surrogate (c : Z) : bool := (55296 <=? c) && (c <=? 56319).
Definition is_low_surrogate (c : Z) : bool := (56320 <=? c) && (c <=? 57343).

(** Well-formed UTF-16: every code unit is in range and every surrogate is
    half of a high/low pair. *)
Fixpoint well_formed (s : jsstring) : Prop :=
  match s with
  | [] => True
  | c :: r =>
    code_unit c /\
    if is_high_surrogate c then
      match r with
      | d :: r' => is_low_surrogate d = true /\ well_formed r'
      | [] => False
      end
    else is_low_surrogate c = false /\ well_formed r
  end.

(** A Unicode scalar value: a code point that is not a surrogate. *)
Definition scalar (c : Z) : Prop :=
  0 <= c < 55296 \/ 57344 <= c < 1114112.

(** [Number.prototype.toString(radix)] on an integer. *)
Definition digit_char (d : Z) : Z := if d <? 10 then 48 + d else 87 + d.

Fixpoint digits_of (fuel : nat) (radix n : Z) (acc : jsstring) : jsstring :=
  match fuel with
  | O => acc
  | S f =>
    let acc' := digit_char (n mod radix) :: acc in
    if n / radix =? 0 then acc' else digits_of f radix (n / radix) acc'
  end.

Definition Number_toString (radix n : Z) : jsstring :=
  if n <? 0 then 45 :: digits_of (S (Z.to_nat (Z.log2 (- n)))) radix (- n) []
  else digits_of (S (Z.to_nat (Z.log2 n))) radix n [].

(* ===================================================================== *)
(** ** UTF-8, as Node's [Buffer.from(s, 'utf8')] and [buf.toString('utf8')] *)

Module Utf8.

Definition replacement : list Z := [239; 191; 189].

(** The bytes of one Unicode scalar value. *)
Definition encode_cp (c : Z) : list Z :=
  if c <? 128 then [c]
  else if c <? 2048 then [192 + c / 64; 128 + c mod 64]
  else if c <? 65536 then
    [224 + c / 4096; 128 + (c / 64) mod 64; 128 + c mod 64]
  else
    [240 + c / 262144; 128 + (c / 4096) mod 64;
     128 + (c / 64) mod 64; 128 + c mod 64].

(** A surrogate pair stands for one supplementary code point; an unpaired
    surrogate is written as U+FFFD. *)
Fixpoint encode (s : jsstring) : list Z :=
  match s with
  | [] => []
  | c :: r =>
    if is_high_surrogate c then
      match r with
      | d :: r' =>
        if is_low_surrogate d
        then encode_cp (65536 + (c - 55296) * 1024 + (d - 56320)) ++ encode r'
        else replacement ++ encode r
      | [] => replacement
      end
    else if is_low_surrogate c then replacement ++ encode r
    else encode_cp c ++ encode r
  end.

Definition in_range (lo hi b : Z) : bool := (lo <=? b) && (b <=? hi).
Definition is_cont (b : Z) : bool := in_range 128 191 b.

(** Bounds on the second byte of a 3- or 4-byte sequence: they exclude
    overlong forms, surrogates and code points above U+10FFFF. *)
Definition second_lo (b0 : Z) : Z :=
  if b0 =? 224 then 160 else if b0 =? 240 then 144 else 128.
Definition second_hi (b0 : Z) : Z :=
  if b0 =? 237 then 159 else if b0 =? 244 then 143 else 191.

(** The UTF-16 code units of a code point. *)
Definition units (cp : Z) : jsstring :=
  if cp <? 65536 then [cp]
  else [55296 + (cp - 65536) / 1024; 56320 + (cp - 65536) mod 1024].

(** Decoding replaces every maximal ill-formed subsequence by U+FFFD and
    resumes at the byte that broke the sequence. *)
Fixpoint decode (bs : list Z) : jsstring :=
  match bs with
  | [] => []
  | b0 :: r0 =>
    if b0 <? 128 then b0 :: decode r0
    else if in_range 194 223 b0 then
      match r0 with
      | b1 :: r1 =>
        if is_cont b1
        then units ((b0 - 192) * 64 + (b1 - 128)) ++ decode r1
        else 65533 :: decode r0
      | [] => [65533]
      end
    else if in_range 224 239 b0 then
      match r0 with
      | b1 :: r1 =>
        if in_range (second_lo b0) (second_hi b0) b1 then
          match r1 with
          | b2 :: r2 =>
            if is_cont b2
            then units ((b0 - 224) * 4096 + (b1 - 128) * 64 + (b2 - 128))
                   ++ decode r2
            else 65533 :: decode r1
          | [] => [65533]
          end
        else 65533 :: decode r0
      | [] => [65533]
      end
    else if in_range 240 244 b0 then
      match r0 with
      | b1 :: r1 =>
        if in_range (second_lo b0) (second_hi b0) b1 then
          match r1 with
          | b2 :: r2 =>
            if is_cont b2 then
              match r2 with
              | b3 :: r3 =>
                if is_cont b3
                then units ((b0 - 240) * 262144 + (b1 - 128) * 4096
                            + (b2 - 128) * 64 + (b3 - 128))
                       ++ decode r3
                else 65533 :: decode r2
              | [] => [65533]
              end
            else 65533 :: decode r1
          | [] => [65533]
          end
        else 65533 :: decode r0
      | [] => [65533]
      end
    else 65533 :: decode r0
  end.

End Utf8.

(* ===================================================================== *)
(** ** Node buffers *)

Inductive BufferError : Type :=
| ERR_OUT_OF_RANGE.

Module Buffer.

Abbreviation t := (list Z) (only parsing).

Definition length (b : t) : Z := Z.of_nat (List.length b).

(** [b[i]]: [None] stands for [undefined]. *)
Definition get (b : t) (i : Z) : option Z :=
  if i <? 0 then None else b !! Z.to_nat i.

Definition byte_at (b : t) (i : Z) : Z := default 0 (get b i).

(** [b[i] = v]: the value is stored modulo 256; an index outside the
    buffer is ignored. *)
Definition set (b : t) (i v : Z) : t :=
  if i <? 0 then b else <[Z.to_nat i := v mod 256]> b.

Definition in_bounds (b : t) (offset n : Z) : bool :=
  (0 <=? offset) && (offset + n <=? length b).

Definition alloc (size : Z) : t := repeat 0 (Z.to_nat size).

Definition slice (b : t) (start stop : Z) : t :=
  take (Z.to_nat (stop - start)) (drop (Z.to_nat start) b).

Definition readUInt16BE (b : t) (offset : Z) : result BufferError Z :=
  if in_bounds b offset 2
  then Ok (byte_at b offset * 2 ^ 8 + byte_at b (offset + 1))
  else Err ERR_OUT_OF_RANGE.

Definition readUInt24BE (b : t) (offset : Z) : result BufferError Z :=
  if in_bounds b offset 3
  then Ok (byte_at b offset * 2 ^ 16 + byte_at b (offset + 1) * 2 ^ 8
           + byte_at b (offset + 2))
  else Err ERR_OUT_OF_RANGE.

(** [readUIntBE(offset, byteLength)], at the only width the code uses. *)
Definition readUIntBE (b : t) (offset byteLength : Z) : result BufferError Z :=
  if byteLength =? 3 then readUInt24BE b offset else Err ERR_OUT_OF_RANGE.

(** The first byte is shifted as a signed 32-bit value. *)
Definition readInt32BE (b : t) (offset : Z) : result BufferError Z :=
  if in_bounds b offset 4 then
    let first := byte_at b offset in
    Ok ((if first <? 128 then first else first - 256) * 2 ^ 24
        + byte_at b (offset + 1) * 2 ^ 16
        + byte_at b (offset + 2) * 2 ^ 8
        + byte_at b (offset + 3))
  else Err ERR_OUT_OF_RANGE.

Definition writeUInt8 (b : t) (value offset : Z) : result BufferError t :=
  if (value <? 0) || (255 <? value) then Err ERR_OUT_OF_RANGE
  else if in_bounds b offset 1 then Ok (set b offset value)
  else Err ERR_OUT_OF_RANGE.

Definition writeUInt16BE (b : t) (value offset : Z) : result BufferError t :=
  if (value <? 0) || (65535 <? value) then Err ERR_OUT_OF_RANGE
  else if in_bounds b offset 2 then
    Ok (set (set b offset (Z.shiftr value 8)) (offset + 1) value)
  else Err ERR_OUT_OF_RANGE.

Definition writeInt32BE (b : t) (value offset : Z) : result BufferError t :=
  if (value <? - 2147483648) || (2147483647 <? value) then Err ERR_OUT_OF_RANGE
  else if in_bounds b offset 4 then
    let u := value mod 2 ^ 32 in
    let b := set b (offset + 3) u in
    let b := set b (offset + 2) (Z.shiftr u 8) in
    let b := set b (offset + 1) (Z.shiftr u 16) in
    Ok (set b offset (Z.shiftr u 24))
  else Err ERR_OUT_OF_RANGE.

(** [src.copy(target, targetStart)]: copies what fits, silently. *)
Fixpoint copy_from (src : list Z) (target : t) (i : nat) : t :=
  match src with
  | [] => target
  | x :: src' => copy_from src' (<[i := x]> target) (S i)
  end.

Definition copy (src target : t) (targetStart : Z) : result BufferError t :=
  if targetStart <? 0 then Err ERR_OUT_OF_RANGE
  else Ok (copy_from src target (Z.to_nat targetStart)).

(** [b.toString('utf8', start, stop)], with Node's clamping. *)
Definition toString (b : t) (start stop : Z) : jsstring :=
  let s := Z.max 0 start in
  let e := Z.min stop (length b) in
  if e <=? s then [] else Utf8.decode (slice b s e).

Definition from (s : jsstring) : t := Utf8.encode s.

End Buffer.

(** [b] with [bytes] written over it from index [off]. *)
Definition splice (b : list Z) (off : nat) (bytes : list Z) : list Z :=
  take off b ++ bytes ++ drop (off + List.length bytes) b.

(* ===================================================================== *)
(** ** cs2opcodes: the opcode table *)

Record CS2OpcodeMapping : Type := {
  map_opcode : Z;
  map_name : jsstring;
  map_returnType : jsstring;
  map_paramTypes : list jsstring
}.

(** ECMAScript white space and line terminators: what [trim] strips, what
    [\s] matches and what [parseInt] skips. *)
Definition is_whitespace (c : Z) : bool :=
  (9 <=? c) && (c <=? 13) || (c =? 32) || (c =? 160) || (c =? 5760)
  || (8192 <=? c) && (c <=? 8202) || (c =? 8232) || (c =? 8233)
  || (c =? 8239) || (c =? 8287) || (c =? 12288) || (c =? 65279).

Module JsString.

(** [s.split('\n')] (any one-code-unit separator). *)
Fixpoint split_on (sep : Z) (s : jsstring) : list jsstring :=
  match s with
  | [] => [[]]
  | c :: r =>
    if c =? sep then [] :: split_on sep r
    else match split_on sep r with
         | cur :: rest => (c :: cur) :: rest
         | [] => [[c]]
         end
  end.

Fixpoint trimStart (s : jsstring) : jsstring :=
  match s with
  | c :: r => if is_whitespace c then trimStart r else s
  | [] => []
  end.

Definition trimEnd (s : jsstring) : jsstring := rev (trimStart (rev s)).

Definition trim (s : jsstring) : jsstring := trimEnd (trimStart s).

Fixpoint startsWith (s prefix : jsstring) : bool :=
  match prefix, s with
  | [], _ => true
  | p :: prefix', c :: s' => (c =? p) && startsWith s' prefix'
  | _ :: _, [] => false
  end.

(** [s.split(/\s+/)]: the pieces between maximal runs of white space; a
    run at either end leaves an empty piece there. [in_run] tells that the
    previous code unit was white space. *)
Fixpoint split_ws_from (in_run : bool) (s : jsstring) : list jsstring :=
  match s with
  | [] => [[]]
  | c :: r =>
    if is_whitespace c then
      if in_run then split_ws_from true r else [] :: split_ws_from true r
    else match split_ws_from false r with
         | cur :: rest => (c :: cur) :: rest
         | [] => [[c]]
         end
  end.

Definition split_ws (s : jsstring) : list jsstring := split_ws_from false s.

Definition eqb (a b : jsstring) : bool := bool_decide (a = b).

End JsString.

(** [parseInt(s)] without a radix; [None] is [NaN]. *)
Module ParseInt.

Definition digit_value (c : Z) : option Z :=
  if (48 <=? c) && (c <=? 57) then Some (c - 48)
  else if (97 <=? c) && (c <=? 122) then Some (c - 87)
  else if (65 <=? c) && (c <=? 90) then Some (c - 55)
  else None.

Definition radix_digit (radix c : Z) : option Z :=
  match digit_value c with
  | Some d => if d <? radix then Some d else None
  | None => None
  end.

(** The value of the longest prefix of digits, and whether it is empty. *)
Fixpoint digits (radix : Z) (s : jsstring) (seen : bool) (acc : Z) : option Z :=
  match s with
  | [] => if seen then Some acc else None
  | c :: r =>
    match radix_digit radix c with
    | Some d => digits radix r true (acc * radix + d)
    | None => if seen then Some acc else None
    end
  end.

Definition strip_sign (s : jsstring) : Z * jsstring :=
  match s with
  | 45 :: r => (-1, r)
  | 43 :: r => (1, r)
  | _ => (1, s)
  end.

Definition strip_hex (s : jsstring) : Z * jsstring :=
  match s with
  | 48 :: 120 :: r => (16, r)
  | 48 :: 88 :: r => (16, r)
  | _ => (10, s)
  end.

Definition parseInt (s : jsstring) : option Z :=
  let '(sign, s1) := strip_sign (JsString.trimStart s) in
  let '(radix, s2) := strip_hex s1 in
  match digits radix s2 false 0 with
  | Some n => Some (sign * n)
  | None => None
  end.

End ParseInt.

Module CS2OpcodeMappings.

Record t : Type := {
  mappings : gmap Z CS2OpcodeMapping;
  nameToOpcode : gmap (list Z) Z
}.

Definition empty : t := {| mappings := ∅; nameToOpcode := ∅ |}.

(** The body of the loop of [parseFromString] up to the two [set] calls:
    the mapping a line declares, or [None] where the loop [continue]s. *)
Definition parseLine (line : jsstring) : option CS2OpcodeMapping :=
  let trimmed := JsString.trim line in
  if JsString.eqb trimmed [] || JsString.startsWith trimmed (lit "#")
     || JsString.startsWith trimmed (lit "//")
  then None
  else
    match JsString.split_ws trimmed with
    | p0 :: p1 :: p2 :: rest =>
      match ParseInt.parseInt p0 with
      | Some opcode =>
        Some {| map_opcode := opcode; map_name := p1;
                map_returnType := p2; map_paramTypes := rest |}
      | None => None
      end
    | _ => None
    end.

Definition set (loader : t) (m : CS2OpcodeMapping) : t :=
  {| mappings := <[map_opcode m := m]> (mappings loader);
     nameToOpcode := <[map_name m := map_opcode m]> (nameToOpcode loader) |}.

Definition step (loader : t) (line : jsstring) : t :=
  match parseLine line with
  | Some m => set loader m
  | None => loader
  end.

Definition parseLines (lines : list jsstring) : t := foldl step empty lines.

Definition loaded_message (loader : t) : jsstring :=
  lit "Loaded " ++ Number_toString 10 (Z.of_nat (size (mappings loader)))
    ++ lit " CS2 opcode mappings".

(** The table, and the line written to the console. *)
Definition parseFromString (content : jsstring) : t * list jsstring :=
  let loader := parseLines (JsString.split_on 10 content) in
  (loader, [loaded_message loader]).

Definition getMapping (loader : t) (opcode : Z) : option CS2OpcodeMapping :=
  mappings loader !! opcode.

Definition getOpcodeByName (loader : t) (name : jsstring) : option Z :=
  nameToOpcode loader !! name.

Definition getAllMappings (loader : t) : list CS2OpcodeMapping :=
  (map_to_list (mappings loader)).*2.

Definition hasOpcode (loader : t) (opcode : Z) : bool :=
  bool_decide (is_Some (mappings loader !! opcode)).

End CS2OpcodeMappings.

(* ===================================================================== *)
(** ** cs2opcodes: the instruction codec *)

Inductive ImmObj : Type :=
| ImmNull
| ImmNumber (n : Z)
| ImmString (s : jsstring).

Record Instruction : Type := {
  opcode : Z;
  imm : Z;
  imm_obj : ImmObj;
  name : jsstring;
  returnType : jsstring;
  paramTypes : list jsstring
}.

(** The decode/encode state object: [state.buffer], [state.scan],
    [state.endoffset]. *)
Record State : Type := {
  buffer : Buffer.t;
  scan : Z;
  endoffset : Z
}.

Module Build727ClientscriptObfuscation.

Definition unknown_message (rawOpcode : Z) : jsstring :=
  lit "Unknown CS2 opcode: " ++ Number_toString 10 rawOpcode
    ++ lit " (0x" ++ Number_toString 16 rawOpcode ++ lit ")".

(** [state.buffer[state.scan] !== 0] *)
Definition not_zero (v : option Z) : bool :=
  match v with
  | Some 0 => false
  | _ => true
  end.

(** The [while] loop of the string branch; it runs at most
    [endoffset - scan] times, which is the fuel [scan_string] gives it. *)
Fixpoint scan_loop (fuel : nat) (b : Buffer.t) (endoffset scan : Z) : Z :=
  match fuel with
  | O => scan
  | S fuel' =>
    if (scan <? endoffset) && not_zero (Buffer.get b scan)
    then scan_loop fuel' b endoffset (scan + 1)
    else scan
  end.

Definition scan_string (b : Buffer.t) (endoffset scan : Z) : Z :=
  scan_loop (Z.to_nat (endoffset - scan)) b endoffset scan.

(** [readOpcode(state)]: the instruction, the state after the call and the
    lines written with [console.warn]. *)
Definition readOpcode (table : CS2OpcodeMappings.t) (state : State)
  : result BufferError (Instruction * State * list jsstring) :=
  do rawOpcode <- Buffer.readUInt16BE (buffer state) (scan state);
  let scan1 := scan state + 2 in
  match CS2OpcodeMappings.getMapping table rawOpcode with
  | None =>
    Ok ({| opcode := rawOpcode; imm := 0; imm_obj := ImmNull;
           name := lit "unknown_" ++ Number_toString 10 rawOpcode;
           returnType := lit "unknown"; paramTypes := [] |},
        {| buffer := buffer state; scan := scan1;
           endoffset := endoffset state |},
        [unknown_message rawOpcode])
  | Some mapping =>
    let finish (imm : Z) (imm_obj : ImmObj) (scan' : Z) :=
      Ok ({| opcode := rawOpcode; imm := imm; imm_obj := imm_obj;
             name := map_name mapping;
             returnType := map_returnType mapping;
             paramTypes := map_paramTypes mapping |},
          {| buffer := buffer state; scan := scan';
             endoffset := endoffset state |},
          []) in
    match map_paramTypes mapping with
    | firstParam :: _ =>
      if JsString.eqb firstParam (lit "int")
         || JsString.eqb firstParam (lit "component")
      then
        do imm <- Buffer.readInt32BE (buffer state) scan1;
        finish imm (ImmNumber imm) (scan1 + 4)
      else if JsString.eqb firstParam (lit "string") then
        let stringStart := scan1 in
        let scan2 := scan_string (buffer state) (endoffset state) scan1 in
        finish 0 (ImmString (Buffer.toString (buffer state) stringStart scan2))
               (scan2 + 1)
      else finish 0 ImmNull scan1
    | [] => finish 0 ImmNull scan1
    end
  end.

(** [writeOpCode(state, value)]: the state after the call. *)
Definition writeOpCode (state : State) (value : Instruction)
  : result BufferError State :=
  do b1 <- Buffer.writeUInt16BE (buffer state) (opcode value) (scan state);
  let scan1 := scan state + 2 in
  match imm_obj value with
  | ImmNull =>
    Ok {| buffer := b1; scan := scan1; endoffset := endoffset state |}
  | ImmNumber n =>
    do b2 <- Buffer.writeInt32BE b1 n scan1;
    Ok {| buffer := b2; scan := scan1 + 4; endoffset := endoffset state |}
  | ImmString s =>
    let stringBytes := Buffer.from s in
    do b2 <- Buffer.copy stringBytes b1 scan1;
    let scan2 := scan1 + Buffer.length stringBytes in
    do b3 <- Buffer.writeUInt8 b2 0 scan2;
    Ok {| buffer := b3; scan := scan2 + 1; endoffset := endoffset state |}
  end.

End Build727ClientscriptObfuscation.

(* ===================================================================== *)
(** ** legacyloader: the record store *)

(** The files of the cache directory, by path. *)
Inductive FsError : Type :=
| ENOENT.

Module Fs.

Definition readFile (disk : gmap (list Z) (list Z)) (path : jsstring)
  : result FsError Buffer.t :=
  match disk !! path with
  | Some content => Ok content
  | None => Err ENOENT
  end.

(** [fs.promises.open(path, 'r')]: the handle is the file's content. *)
Definition open (disk : gmap (list Z) (list Z)) (path : jsstring)
  : result FsError (list Z) := readFile disk path.

(** [fileHandle.read(buffer, 0, length, position)]: [bytesRead] and the
    buffer with the bytes that were available copied to its front. *)
Definition read (file : list Z) (buf : Buffer.t) (length position : Z)
  : Z * Buffer.t :=
  let data := take (Z.to_nat length) (drop (Z.to_nat position) file) in
  (Buffer.length data, data ++ drop (List.length data) buf).

End Fs.

Module CacheIndex.

Record t : Type := {
  major : Z;
  minor : Z;
  crc : Z;
  version : Z;
  size : Z;
  name : option jsstring;
  subindexcount : Z;
  subindices : list Z;
  subnames : option (list jsstring);
  uncompressed_crc : Z;
  uncompressed_size : Z
}.

End CacheIndex.

(** A JavaScript array that may have holes. *)
Module SparseArray.

Abbreviation t A := (list (option A)) (only parsing).

(** [a[i] = v]: an index at or past the length extends the array, leaving
    holes in between. *)
Definition set {A} (a : t A) (i : nat) (v : A) : t A :=
  if (i <? List.length a)%nat then <[i := Some v]> a
  else a ++ repeat None (i - List.length a) ++ [Some v].

(** [a[i]]: [None] for a hole and past the end. *)
Definition get {A} (a : t A) (i : nat) : option A := mjoin (a !! i).

End SparseArray.

(** What the [catch] blocks of the store wrap. *)
Inductive Cause : Type :=
| NotFoundInIndex (major minor : Z)
| HasZeroSize (major minor : Z)
| ShortRead (expected bytesRead : Z)
| BufferFault (e : BufferError)
| FsFault (e : FsError).

Inductive LegacyError : Type :=
| IndexFileNotFoundInLegacyCache (major : Z)
| IndexFileNotFound (major : Z)
| FailedToReadFile (major minor : Z) (cause : Cause)
| FailedToReadIndex (major : Z) (cause : Cause).

Definition lift_buffer {A} (r : result BufferError A) : result Cause A :=
  match r with
  | Ok a => Ok a
  | Err e => Err (BufferFault e)
  end.

Definition lift_fs {A} (r : result FsError A) : result Cause A :=
  match r with
  | Ok a => Ok a
  | Err e => Err (FsFault e)
  end.

Module LegacyFileSource.

Record t : Type := {
  cachedir : jsstring;
  datFile : jsstring;
  indexFiles : gmap Z (list Z);
  cs2Mappings : option CS2OpcodeMappings.t
}.

Definition indexEntrySize : Z := 6.

(** The [try] block of [getFile]. *)
Definition getFile_try (disk : gmap (list Z) (list Z)) (this : t)
    (indexPath : jsstring) (major minor : Z) : result Cause Buffer.t :=
  do indexBuffer <- lift_fs (Fs.readFile disk indexPath);
  let entryOffset := minor * indexEntrySize in
  if Buffer.length indexBuffer <? entryOffset + indexEntrySize
  then Err (NotFoundInIndex major minor)
  else
    do size <- lift_buffer (Buffer.readUIntBE indexBuffer entryOffset 3);
    do offset <- lift_buffer (Buffer.readUIntBE indexBuffer (entryOffset + 3) 3);
    if size =? 0 then Err (HasZeroSize major minor)
    else
      do fileHandle <- lift_fs (Fs.open disk (datFile this));
      let buffer := Buffer.alloc size in
      let '(bytesRead, buffer) := Fs.read fileHandle buffer size offset in
      if negb (bytesRead =? size) then Err (ShortRead size bytesRead)
      else Ok buffer.

Definition getFile (disk : gmap (list Z) (list Z)) (this : t)
    (major minor : Z) : result LegacyError Buffer.t :=
  match indexFiles this !! major with
  | None => Err (IndexFileNotFoundInLegacyCache major)
  | Some indexPath =>
    match getFile_try disk this indexPath major minor with
    | Ok buffer => Ok buffer
    | Err e => Err (FailedToReadFile major minor e)
    end
  end.

Definition entry (major minor size : Z) : CacheIndex.t :=
  {| CacheIndex.major := major; CacheIndex.minor := minor;
     CacheIndex.crc := 0; CacheIndex.version := 0; CacheIndex.size := size;
     CacheIndex.name := None; CacheIndex.subindexcount := 1;
     CacheIndex.subindices := [0]; CacheIndex.subnames := None;
     CacheIndex.uncompressed_crc := 0;
     CacheIndex.uncompressed_size := size |}.

(** The [for] loop of [getCacheIndex], [count] iterations from [minor]. *)
Fixpoint index_loop (count : nat) (indexBuffer : Buffer.t) (major minor : Z)
    (indices : SparseArray.t CacheIndex.t)
  : result Cause (SparseArray.t CacheIndex.t) :=
  match count with
  | O => Ok indices
  | S count' =>
    let entryOffset := minor * indexEntrySize in
    do size <- lift_buffer (Buffer.readUIntBE indexBuffer entryOffset 3);
    index_loop count' indexBuffer major (minor + 1)
      (if 0 <? size
       then SparseArray.set indices (Z.to_nat minor) (entry major minor size)
       else indices)
  end.

Definition getCacheIndex_try (disk : gmap (list Z) (list Z))
    (indexPath : jsstring) (major : Z)
  : result Cause (SparseArray.t CacheIndex.t) :=
  do indexBuffer <- lift_fs (Fs.readFile disk indexPath);
  let numEntries := Buffer.length indexBuffer / indexEntrySize in
  index_loop (Z.to_nat numEntries) indexBuffer major 0 [].

Definition getCacheIndex (disk : gmap (list Z) (list Z)) (this : t)
    (major : Z) : result LegacyError (SparseArray.t CacheIndex.t) :=
  match indexFiles this !! major with
  | None => Err (IndexFileNotFound major)
  | Some indexPath =>
    match getCacheIndex_try disk indexPath major with
    | Ok indices => Ok indices
    | Err e => Err (FailedToReadIndex major e)
    end
  end.

Definition getBuildNr (this : t) : Z := 727.

Definition hasMajor (this : t) (major : Z) : bool :=
  bool_decide (is_Some (indexFiles this !! major)).

End LegacyFileSource.

(* ===================================================================== *)
(** ** autocache: the format detector *)

Inductive ScriptFS : Type :=
| CLIScriptFS (dir : jsstring)
| WebFsScriptFS (roothandle : option jsstring)
| OtherScriptFS.

Record CacheOpts : Type := { writable : option bool }.

Inductive CacheSource : Type :=
| GameCacheLoader (dir : jsstring) (writable : bool)
| WasmGameCacheLoader (roothandle : jsstring)
| NewLegacyFileSource (dir : jsstring) (cs2MappingFile : jsstring)
| ClassicFileSource_create (fs : ScriptFS).

Inductive SelectError : Type :=
| NoCacheFilesFound
| NeedFsWithHardDiskBacking
| LegacyRequiresFilesystemAccess
| CouldntDetectCacheType.

Record Counts : Type := {
  jcachecount : Z;
  datcount : Z;
  dat2count : Z;
  jagcount : Z;
  idxcount : Z
}.

Module Autocache.

Definition is_digit (c : Z) : bool := (48 <=? c) && (c <=? 57).

Definition is_word (c : Z) : bool :=
  (97 <=? c) && (c <=? 122) || (65 <=? c) && (c <=? 90) || is_digit c
  || (c =? 95).

Definition nonempty (s : jsstring) : bool :=
  match s with [] => false | _ :: _ => true end.

(** [name.match(/\.(\w+)$/)?.[1]]: the first position where a dot is
    followed by word characters up to the end of the name. *)
Fixpoint match_ext (name : jsstring) : option jsstring :=
  match name with
  | [] => None
  | c :: r =>
    if (c =? 46) && nonempty r && forallb is_word r then Some r
    else match_ext r
  end.

Definition ext_is (ext : option jsstring) (s : string) : bool :=
  match ext with
  | Some e => JsString.eqb e (lit s)
  | None => false
  end.

(** [name.match(/^main_file_cache\.idx\d+$/)] *)
Fixpoint strip_prefix (prefix s : jsstring) : option jsstring :=
  match prefix, s with
  | [], _ => Some s
  | p :: prefix', c :: s' => if c =? p then strip_prefix prefix' s' else None
  | _ :: _, [] => None
  end.

Definition match_idx (name : jsstring) : bool :=
  match strip_prefix (lit "main_file_cache.idx") name with
  | Some digits => nonempty digits && forallb is_digit digits
  | None => false
  end.

Definition incr (b : bool) (n : Z) : Z := if b then n + 1 else n.

Definition count_file (c : Counts) (name : jsstring) : Counts :=
  let ext := match_ext name in
  {| jcachecount := incr (ext_is ext "jcache") (jcachecount c);
     dat2count := incr (ext_is ext "dat2") (dat2count c);
     datcount := incr (ext_is ext "dat") (datcount c);
     jagcount := incr (ext_is ext "jag") (jagcount c);
     idxcount := incr (match_idx name) (idxcount c) |}.

Definition zero : Counts :=
  {| jcachecount := 0; datcount := 0; dat2count := 0; jagcount := 0;
     idxcount := 0 |}.

Definition count_files (files : list jsstring) : Counts :=
  foldl count_file zero files.

Definition maxcount (c : Counts) : Z :=
  Z.max (jcachecount c)
    (Z.max (datcount c) (Z.max (dat2count c) (Z.max (jagcount c) (idxcount c)))).

(** From the [datcount] test to the end: the [datcount] and [dat2count]
    branches are empty. *)
Definition select_rest (fs : ScriptFS) (c : Counts)
  : result SelectError CacheSource :=
  if maxcount c =? jagcount c then Ok (ClassicFileSource_create fs)
  else Err CouldntDetectCacheType.

Definition select_legacy (fs : ScriptFS) (c : Counts)
  : result SelectError CacheSource :=
  if (maxcount c =? idxcount c) && (0 <? dat2count c) then
    match fs with
    | CLIScriptFS dir => Ok (NewLegacyFileSource dir (lit "rs2_727.ini"))
    | _ => Err LegacyRequiresFilesystemAccess
    end
  else select_rest fs c.

Definition select (fs : ScriptFS) (opts : option CacheOpts) (c : Counts)
  : result SelectError CacheSource :=
  if maxcount c =? 0 then Err NoCacheFilesFound
  else if maxcount c =? jcachecount c then
    match fs with
    | CLIScriptFS dir =>
      Ok (GameCacheLoader dir
            (match opts with
             | Some o => default false (writable o)
             | None => false
             end))
    | WebFsScriptFS None => Err NeedFsWithHardDiskBacking
    | WebFsScriptFS (Some roothandle) => Ok (WasmGameCacheLoader roothandle)
    | OtherScriptFS => select_legacy fs c
    end
  else select_legacy fs c.

(** [files] is the names of what [fs.readDir(".")] lists. *)
Definition selectFsCache (fs : ScriptFS) (files : list jsstring)
    (opts : option CacheOpts) : result SelectError CacheSource :=
  select fs opts (count_files files).

End Autocache.

(* ===================================================================== *)
(** ** legacyloader: the remaining methods *)

(** [file.match(/^main_file_cache\.idx(\d+)$/)?.[1]]: the digits of an index
    file's name. *)
Definition idx_digits (name : jsstring) : option jsstring :=
  match Autocache.strip_prefix (lit "main_file_cache.idx") name with
  | Some digits =>
    if Autocache.nonempty digits && forallb Autocache.is_digit digits
    then Some digits else None
  | None => None
  end.

Inductive ScanError : Type :=
| FailedToScanDirectory (cachedir : jsstring).

Section ScanIndexFiles.

(** Node's [path.resolve(dir, file)]. *)
Variable resolve : list Z -> list Z -> list Z.

(** The body of the loop of [scanIndexFiles]. The digits always parse, so
    the [None] branch is never taken. *)
Definition scan_file (cachedir : jsstring) (indexFiles : gmap Z (list Z))
    (file : jsstring) : gmap Z (list Z) :=
  match idx_digits file with
  | Some digits =>
    match ParseInt.parseInt digits with
    | Some indexId => <[indexId := resolve cachedir file]> indexFiles
    | None => indexFiles
    end
  | None => indexFiles
  end.

(** [scanIndexFiles()] on a fresh store; [listing] is what
    [fs.readdirSync(cachedir)] returns, [None] when it throws. *)
Definition scanIndexFiles (cachedir : jsstring)
    (listing : option (list jsstring)) : result ScanError (gmap Z (list Z)) :=
  match listing with
  | Some files => Ok (foldl (scan_file cachedir) ∅ files)
  | None => Err (FailedToScanDirectory cachedir)
  end.

End ScanIndexFiles.

(** [getAvailableMajors()]: the keys of [indexFiles], sorted by
    [(a, b) => a - b]. *)
Definition getAvailableMajors (this : LegacyFileSource.t) : list Z :=
  merge_sort Z.le (elements (dom (LegacyFileSource.indexFiles this))).

Record SubFile : Type := {
  sub_buffer : list Z;
  fileid : Z;
  namehash : option Z;
  sub_offset : Z;
  sub_size : Z
}.

Inductive ArchiveError (E : Type) : Type :=
| StoreError (e : LegacyError)
| ParserError (e : E).
Arguments StoreError {E} e.
Arguments ParserError {E} e.

Section GetFileArchive.

(** [parseLegacyArchive] of the legacycache module, and what it throws. *)
Variable E : Type.
Variable parseLegacyArchive : list Z -> Z -> bool -> result E (list SubFile).

(** [getFileArchive(index)] *)
Definition getFileArchive (disk : gmap (list Z) (list Z))
    (this : LegacyFileSource.t) (index : CacheIndex.t)
  : result (ArchiveError E) (list SubFile) :=
  match LegacyFileSource.getFile disk this (CacheIndex.major index)
          (CacheIndex.minor index) with
  | Err e => Err (StoreError e)
  | Ok file =>
    if CacheIndex.major index =? 0 then
      match parseLegacyArchive file (CacheIndex.major index) false with
      | Ok subs => Ok subs
      | Err e => Err (ParserError e)
      end
    else
      Ok [{| sub_buffer := file; fileid := 0; namehash := None;
             sub_offset := 0; sub_size := Buffer.length file |}]
  end.

End GetFileArchive.

(* ===================================================================== *)
(** ** The vocabulary of the specification *)

(** *** Instruction codec *)

Inductive ImmKind : Type :=
| KindNone
| KindNumber
| KindString.

Definition kind_of (o : ImmObj) : ImmKind :=
  match o with
  | ImmNull => KindNone
  | ImmNumber _ => KindNumber
  | ImmString _ => KindString
  end.

(** The immediate kind an opcode's first declared parameter type implies:
    [int] and [component] a number, [string] a string, anything else, no
    parameter or no definition at all, none. *)
Definition implied_kind (table : CS2OpcodeMappings.t) (op : Z) : ImmKind :=
  match CS2OpcodeMappings.getMapping table op with
  | Some m =>
    match map_paramTypes m with
    | p :: _ =>
      if decide (p = lit "int" \/ p = lit "component") then KindNumber
      else if decide (p = lit "string") then KindString
      else KindNone
    | [] => KindNone
    end
  | None => KindNone
  end.

Definition int32 (n : Z) : Prop := - 2147483648 <= n <= 2147483647.

(** The immediate of [x] is of the implied kind; a number is a 32-bit
    signed integer. *)
Definition kind_matches (table : CS2OpcodeMappings.t) (x : Instruction) : Prop :=
  kind_of (imm_obj x) = implied_kind table (opcode x) /\
  match imm_obj x with
  | ImmNumber n => int32 n
  | _ => True
  end.

(** Text that is well-formed and free of U+0000. *)
Definition clean (s : jsstring) : Prop :=
  well_formed s /\ Forall (fun c => c <> 0) s.

(** A string immediate that a zero-terminated UTF-8 field can hold:
    well-formed UTF-16 without U+0000. *)
Definition terminable (o : ImmObj) : Prop :=
  match o with
  | ImmString s => well_formed s /\ Forall (fun c => c <> 0) s
  | _ => True
  end.

(** [immediateValue], the numeric projection of the immediate. *)
Definition imm_value (o : ImmObj) : Z :=
  match o with
  | ImmNumber n => n
  | _ => 0
  end.

(** The bytes [writeOpCode] is meant to produce for [x]. *)
Definition encodeOne (x : Instruction) : list Z :=
  [opcode x / 256; opcode x mod 256] ++
  match imm_obj x with
  | ImmNull => []
  | ImmNumber n =>
    let u := n mod 2 ^ 32 in
    [u / 2 ^ 24; (u / 2 ^ 16) mod 256; (u / 2 ^ 8) mod 256; u mod 256]
  | ImmString s => Utf8.encode s ++ [0]
  end.

(** The number of bytes of [x] in the stream. *)
Definition encoded_length (x : Instruction) : Z :=
  Z.of_nat (List.length (encodeOne x)).

(** The 2-byte big-endian number at [offset]. *)
Definition uint16_at (b : Buffer.t) (offset : Z) : Z :=
  Buffer.byte_at b offset * 256 + Buffer.byte_at b (offset + 1).

(** [x] carries the name, return type and parameter types the decoder
    attaches to its opcode, and its [imm] is the projection of [imm_obj]. *)
Definition described_by (table : CS2OpcodeMappings.t) (x : Instruction) : Prop :=
  imm x = imm_value (imm_obj x) /\
  match CS2OpcodeMappings.getMapping table (opcode x) with
  | Some m =>
    name x = map_name m /\ returnType x = map_returnType m /\
    paramTypes x = map_paramTypes m
  | None =>
    name x = lit "unknown_" ++ Number_toString 10 (opcode x) /\
    returnType x = lit "unknown" /\ paramTypes x = []
  end.

(** Writing [x] at the cursor of [st] and reading it back from there, in a
    stream that ends at [streamEnd], gives [x] again: opcode, immediate
    object (value and kind) and numeric immediate, with the two cursors
    ending at the same place; the whole instruction is [x] when [x] carries
    the table's description of its opcode. *)
Definition roundtrips (table : CS2OpcodeMappings.t) (st : State)
    (streamEnd : Z) (x : Instruction) : Prop :=
  exists st', Build727ClientscriptObfuscation.writeOpCode st x = Ok st' /\
  exists r st'' log,
    Build727ClientscriptObfuscation.readOpcode table
      {| buffer := buffer st'; scan := scan st; endoffset := streamEnd |}
      = Ok (r, st'', log) /\
    opcode r = opcode x /\ imm_obj r = imm_obj x /\
    imm r = imm_value (imm_obj x) /\ scan st'' = scan st' /\
    (described_by table x -> r = x).

(** *** Opcode definition lines *)

(** Blank and comment lines, which the parser discards first. *)
Definition discarded (line : jsstring) : bool :=
  let trimmed := JsString.trim line in
  JsString.eqb trimmed [] || JsString.startsWith trimmed (lit "#")
  || JsString.startsWith trimmed (lit "//").

Definition tokens (line : jsstring) : list jsstring :=
  JsString.split_ws (JsString.trim line).

(** Fewer than 3 tokens, or a first token that is not an integer. *)
Definition malformed (line : jsstring) : bool :=
  negb (discarded line) &&
  ((List.length (tokens line) <? 3)%nat
   || negb (bool_decide (is_Some (ParseInt.parseInt (hd [] (tokens line)))))).

Definition valid (line : jsstring) : bool :=
  negb (discarded line) && negb (malformed line).

(** The definitions the valid lines of a file declare, in file order, and
    their opcodes. *)
Definition declared (lines : list jsstring) : list CS2OpcodeMapping :=
  omap CS2OpcodeMappings.parseLine lines.

Definition declared_opcodes (lines : list jsstring) : list Z :=
  map_opcode <$> declared lines.

(** *** The concrete syntax of a definition line *)

(** A token: at least one code unit, none of them white space. *)
Definition token (t : jsstring) : Prop :=
  t <> [] /\ Forall (fun c => is_whitespace c = false) t.

(** A decimal numeral: at least one digit, nothing else. *)
Definition numeral (t : jsstring) : Prop :=
  t <> [] /\ Forall (fun c => 48 <= c <= 57) t.

Definition numeral_value (t : jsstring) : Z :=
  foldl (fun acc c => acc * 10 + (c - 48)) 0 t.

(** Tokens separated by single spaces. *)
Definition unwords (first : jsstring) (others : list jsstring) : jsstring :=
  first ++ concat (map (cons 32) others).

(** *** White space around a line *)

Definition blank (s : jsstring) : Prop :=
  Forall (fun c => is_whitespace c = true) s.

(** [line'] is [line] with white space added in front and behind, as
    indentation or a carriage return would. *)
Definition padded (line line' : jsstring) : Prop :=
  exists pre post, blank pre /\ blank post /\ line' = pre ++ line ++ post.

(** *** Record store *)

Definition byte (x : Z) : Prop := 0 <= x < 256.

(** The 3-byte big-endian number at [offset]. *)
Definition uint24_at (b : Buffer.t) (offset : Z) : Z :=
  Buffer.byte_at b offset * 65536 + Buffer.byte_at b (offset + 1) * 256
  + Buffer.byte_at b (offset + 2).

(** The two failures of [getFile] the specification calls RecordNotFound. *)
Definition RecordNotFound (e : LegacyError) : Prop :=
  match e with
  | FailedToReadFile _ _ (NotFoundInIndex _ _) => True
  | FailedToReadFile _ _ (HasZeroSize _ _) => True
  | _ => False
  end.

(** The entry the listing holds for [minor] among [numEntries] slots, if
    any. *)
Definition listed (indexBuffer : list Z) (major : Z) (numEntries minor : nat)
  : option CacheIndex.t :=
  if (minor <? numEntries)%nat
     && (0 <? uint24_at indexBuffer (Z.of_nat minor * 6))
  then Some (LegacyFileSource.entry major (Z.of_nat minor)
               (uint24_at indexBuffer (Z.of_nat minor * 6)))
  else None.

(** *** Format detector *)

Inductive Signature : Type :=
| SigModern
| SigLegacyIndex
| SigOldBinary
| SigClassic.

Definition signature_of (c : CacheSource) : Signature :=
  match c with
  | GameCacheLoader _ _ => SigModern
  | WasmGameCacheLoader _ => SigModern
  | NewLegacyFileSource _ _ => SigLegacyIndex
  | ClassicFileSource_create _ => SigClassic
  end.

(** The precedence the specification states: modern cache first,
    legacy-index + dat2 next, old-binary, classic last. *)
Definition spec_precedence (c : Counts) : option Signature :=
  let m := Autocache.maxcount c in
  if m =? 0 then None
  else if m =? jcachecount c then Some SigModern
  else if (m =? idxcount c) && (0 <? dat2count c) then Some SigLegacyIndex
  else if (m =? datcount c) || (m =? dat2count c) then Some SigOldBinary
  else if m =? jagcount c then Some SigClassic
  else None.

(** A listed name with the given extension. *)
Definition has_ext (s : string) (name : jsstring) : bool :=
  Autocache.ext_is (Autocache.match_ext name) s.

(** The number of listed files that carry a signature. *)
Definition count_of (s : Signature) (c : Counts) : Z :=
  match s with
  | SigModern => jcachecount c
  | SigLegacyIndex => idxcount c
  | SigOldBinary => Z.max (datcount c) (dat2count c)
  | SigClassic => jagcount c
  end.

(** The number of listed names a test accepts. *)
Definition matching (p : jsstring -> bool) (files : list jsstring) : Z :=
  Z.of_nat (List.length (filter (fun f => p f = true) files)).

Definition b2z (b : bool) : Z := if b then 1 else 0.

(** The name of the index file of the category written [digits]. *)
Definition index_file_name (digits : jsstring) : jsstring :=
  lit "main_file_cache.idx" ++ digits.

(* ===================================================================== *)
(** ** Sample data *)

Definition newline : string := String (ascii_of_nat 10) EmptyString.

Definition push_string : CS2OpcodeMapping :=
  {| map_opcode := 1; map_name := lit "push_string";
     map_returnType := lit "void"; map_paramTypes := [lit "string"] |}.

Definition push_int : CS2OpcodeMapping :=
  {| map_opcode := 2; map_name := lit "push_int";
     map_returnType := lit "void"; map_paramTypes := [lit "int"] |}.

Definition sample_table : CS2OpcodeMappings.t :=
  CS2OpcodeMappings.set
    (CS2OpcodeMappings.set CS2OpcodeMappings.empty push_string) push_int.

Definition instruction_of (m : CS2OpcodeMapping) (o : ImmObj) : Instruction :=
  {| opcode := map_opcode m; imm := imm_value o; imm_obj := o;
     name := map_name m; returnType := map_returnType m;
     paramTypes := map_paramTypes m |}.

Definition sample_store : LegacyFileSource.t :=
  {| LegacyFileSource.cachedir := lit "cache";
     LegacyFileSource.datFile := lit "cache/main_file_cache.dat2";
     LegacyFileSource.indexFiles := {[ 2 := lit "cache/main_file_cache.idx2" ]};
     LegacyFileSource.cs2Mappings := None |}.

(** Four slots and a stray byte: sizes 0, 3, 1, 0. *)
Definition sample_index : list Z :=
  [0; 0; 0; 0; 0; 0;  0; 0; 3; 0; 0; 2;  0; 0; 1; 0; 0; 5;
   0; 0; 0; 0; 0; 0;  9].

Definition sample_blob : list Z := [10; 11; 12; 13; 14; 15].

Definition sample_disk : gmap (list Z) (list Z) :=
  {[ lit "cache/main_file_cache.idx2" := sample_index;
     lit "cache/main_file_cache.dat2" := sample_blob ]}.

(* ===================================================================== *)
(** ** The definitions on small inputs *)

Example split_ws_runs :
  JsString.split_ws (lit "7  push_int void   int")
  = [lit "7"; lit "push_int"; lit "void"; lit "int"].
Proof. reflexivity. Qed.

Example split_ws_edges :
  JsString.split_ws (lit " a ") = [[]; lit "a"; []].
Proof. reflexivity. Qed.

Example trim_both_ends :
  JsString.trim ([9; 32] ++ lit "7 pop void" ++ [13]) = lit "7 pop void".
Proof. reflexivity. Qed.

Example parseInt_samples :
  map ParseInt.parseInt
    [lit "12"; lit "12abc"; lit "0x1F"; lit "-7"; lit "abc"; lit "-"; lit "0x"]
  = [Some 12; Some 12; Some 31; Some (-7); None; None; None].
Proof. reflexivity. Qed.

Example parseLine_comment :
  CS2OpcodeMappings.parseLine (lit "  // 7 push_int void int") = None.
Proof. reflexivity. Qed.

Example parseLine_too_short :
  CS2OpcodeMappings.parseLine (lit "7 push_int") = None.
Proof. reflexivity. Qed.

Example parseLine_not_a_number :
  CS2OpcodeMappings.parseLine (lit "seven push_int void") = None.
Proof. reflexivity. Qed.

Example loaded_message_sample :
  snd (CS2OpcodeMappings.parseFromString
         (lit ("1 push_string void string" ++ newline ++ "2 push_int void int")))
  = [lit "Loaded 2 CS2 opcode mappings"].
Proof. vm_compute. reflexivity. Qed.

Example utf8_encode_samples :
  Utf8.encode [233; 8364; 55357; 56832]
  = [195; 169; 226; 130; 172; 240; 159; 152; 128].
Proof. reflexivity. Qed.

Example utf8_lone_surrogate :
  Utf8.decode (Utf8.encode [65; 55357]) = [65; 65533].
Proof. reflexivity. Qed.

Example utf8_decode_truncated :
  Utf8.decode [65; 226; 130] = [65; 65533].
Proof. reflexivity. Qed.

Example writeOpCode_number :
  Build727ClientscriptObfuscation.writeOpCode
    {| buffer := Buffer.alloc 8; scan := 1; endoffset := 8 |}
    (instruction_of push_int (ImmNumber (-2)))
  = Ok {| buffer := [0; 0; 2; 255; 255; 255; 254; 0]; scan := 7;
          endoffset := 8 |}.
Proof. reflexivity. Qed.

Example writeOpCode_out_of_room :
  Build727ClientscriptObfuscation.writeOpCode
    {| buffer := Buffer.alloc 4; scan := 0; endoffset := 4 |}
    (instruction_of push_string (ImmString (lit "hi")))
  = Err ERR_OUT_OF_RANGE.
Proof. reflexivity. Qed.

Example match_ext_samples :
  map Autocache.match_ext [lit "a.b.jcache"; lit "noext"; lit "x.da-t"; lit "x."]
  = [Some (lit "jcache"); None; None; None].
Proof. reflexivity. Qed.

(** The two scenarios of the specification, and the empty directory. *)
Example select_legacy_scenario :
  Autocache.selectFsCache (CLIScriptFS (lit "cache"))
    [lit "main_file_cache.idx0"; lit "main_file_cache.idx1";
     lit "main_file_cache.idx2"; lit "main_file_cache.idx3";
     lit "main_file_cache.idx4"; lit "main_file_cache.dat2"] None
  = Ok (NewLegacyFileSource (lit "cache") (lit "rs2_727.ini")).
Proof. vm_compute. reflexivity. Qed.

Example select_modern_scenario :
  Autocache.selectFsCache (CLIScriptFS (lit "cache"))
    [lit "a.jcache"; lit "b.jcache"; lit "c.jcache"; lit "stray.dat"] None
  = Ok (GameCacheLoader (lit "cache") false).
Proof. vm_compute. reflexivity. Qed.

Example select_empty_directory :
  Autocache.selectFsCache (CLIScriptFS (lit "cache")) [] None
  = Err NoCacheFilesFound.
Proof. reflexivity. Qed.

Example select_legacy_needs_cli :
  Autocache.selectFsCache (WebFsScriptFS (Some (lit "root")))
    [lit "main_file_cache.idx0"; lit "main_file_cache.dat2"] None
  = Err LegacyRequiresFilesystemAccess.
Proof. vm_compute. reflexivity. Qed.

(* ===================================================================== *)
(** ** UTF-8 round trip *)

Section Utf8_facts.

Import Utf8.

Local Ltac arith := Z.div_mod_to_equations; lia.

Lemma base64 (x : Z) :
  exists q r, x / 64 = q /\ x mod 64 = r /\ x = 64 * q + r /\ 0 <= r < 64.
Proof.
  exists (x / 64), (x mod 64). split; [reflexivity|]. split; [reflexivity|].
  split; [apply Z.div_mod; lia | apply Z.mod_pos_bound; lia].
Qed.

Lemma div_4096 (c : Z) : c / 4096 = c / 64 / 64.
Proof. change 4096 with (64 * 64). symmetry. apply Z.div_div; lia. Qed.

Lemma div_262144 (c : Z) : c / 262144 = c / 64 / 64 / 64.
Proof.
  change 262144 with (64 * 64 * 64). rewrite <- !Z.div_div by lia. reflexivity.
Qed.

Lemma encode_cp_digits (c : Z) :
  encode_cp c =
  if c <? 128 then [c]
  else if c <? 2048 then [192 + c / 64; 128 + c mod 64]
  else if c <? 65536 then
    [224 + c / 64 / 64; 128 + (c / 64) mod 64; 128 + c mod 64]
  else
    [240 + c / 64 / 64 / 64; 128 + (c / 64 / 64) mod 64;
     128 + (c / 64) mod 64; 128 + c mod 64].
Proof. unfold encode_cp. rewrite div_262144, div_4096. reflexivity. Qed.

Lemma in_range_true (lo hi b : Z) : lo <= b <= hi -> in_range lo hi b = true.
Proof.
  intros H. unfold in_range. apply andb_true_iff. split; apply Z.leb_le; lia.
Qed.

Lemma in_range_false (lo hi b : Z) : b < lo \/ hi < b -> in_range lo hi b = false.
Proof.
  intros H. unfold in_range. apply andb_false_iff.
  destruct H; [left | right]; apply Z.leb_gt; lia.
Qed.

Lemma is_cont_digit (r : Z) : 0 <= r < 64 -> is_cont (128 + r) = true.
Proof. intros H. apply in_range_true. lia. Qed.

(** The second byte of a 3-byte sequence passes the decoder's test as
    long as the code point is neither overlong nor a surrogate. *)
Lemma second_of_three (q r : Z) :
  0 <= q <= 15 -> 0 <= r < 64 ->
  32 <= 64 * q + r -> (64 * q + r < 864 \/ 896 <= 64 * q + r) ->
  in_range (second_lo (224 + q)) (second_hi (224 + q)) (128 + r) = true.
Proof.
  intros Hq Hr Hlo Hsur. unfold second_lo, second_hi.
  rewrite (proj2 (Z.eqb_neq (224 + q) 240)), (proj2 (Z.eqb_neq (224 + q) 244))
    by lia.
  destruct (Z.eqb_spec (224 + q) 224); destruct (Z.eqb_spec (224 + q) 237);
    apply in_range_true; lia.
Qed.

(** The second byte of a 4-byte sequence passes as long as the code point
    lies in [0x10000, 0x10FFFF]. *)
Lemma second_of_four (q r : Z) :
  0 <= q <= 4 -> 0 <= r < 64 -> 16 <= 64 * q + r <= 271 ->
  in_range (second_lo (240 + q)) (second_hi (240 + q)) (128 + r) = true.
Proof.
  intros Hq Hr Hcp. unfold second_lo, second_hi.
  rewrite (proj2 (Z.eqb_neq (240 + q) 224)), (proj2 (Z.eqb_neq (240 + q) 237))
    by lia.
  destruct (Z.eqb_spec (240 + q) 240); destruct (Z.eqb_spec (240 + q) 244);
    apply in_range_true; lia.
Qed.

Lemma decode_encode_cp (c : Z) (rest : list Z) :
  scalar c -> decode (encode_cp c ++ rest) = units c ++ decode rest.
Proof.
  intros Hc. rewrite encode_cp_digits. unfold scalar in Hc.
  destruct (Z.ltb_spec c 128) as [H1|H1];
    [|destruct (Z.ltb_spec c 2048) as [H2|H2];
      [|destruct (Z.ltb_spec c 65536) as [H3|H3]]].
  - cbn [app decode]. rewrite (proj2 (Z.ltb_lt c 128)) by lia.
    unfold units. rewrite (proj2 (Z.ltb_lt c 65536)) by lia. reflexivity.
  - destruct (base64 c) as (q & r & -> & -> & Hq & Hr).
    assert (2 <= q <= 31) by lia.
    cbn [app decode].
    rewrite (proj2 (Z.ltb_ge (192 + q) 128)) by lia.
    rewrite (in_range_true 194 223) by lia.
    rewrite is_cont_digit by lia.
    replace ((192 + q - 192) * 64 + (128 + r - 128)) with c by lia.
    reflexivity.
  - destruct (base64 c) as (q & r & -> & -> & Hq & Hr).
    destruct (base64 q) as (q0 & r0 & -> & -> & Hq0 & Hr0).
    assert (0 <= q0 <= 15) by lia.
    assert (32 <= 64 * q0 + r0) by lia.
    assert (64 * q0 + r0 < 864 \/ 896 <= 64 * q0 + r0) by lia.
    cbn [app decode].
    rewrite (proj2 (Z.ltb_ge (224 + q0) 128)) by lia.
    rewrite (in_range_false 194 223) by lia.
    rewrite (in_range_true 224 239) by lia.
    rewrite second_of_three by assumption.
    rewrite is_cont_digit by lia.
    replace ((224 + q0 - 224) * 4096 + (128 + r0 - 128) * 64 + (128 + r - 128))
      with c by lia.
    reflexivity.
  - destruct (base64 c) as (q & r & -> & -> & Hq & Hr).
    destruct (base64 q) as (q0 & r0 & -> & -> & Hq0 & Hr0).
    destruct (base64 q0) as (q1 & r1 & -> & -> & Hq1 & Hr1).
    assert (1024 <= q <= 17407) by lia.
    assert (16 <= q0 <= 271) by lia.
    assert (0 <= q1 <= 4) by lia.
    cbn [app decode].
    rewrite (proj2 (Z.ltb_ge (240 + q1) 128)) by lia.
    rewrite (in_range_false 194 223) by lia.
    rewrite (in_range_false 224 239) by lia.
    rewrite (in_range_true 240 244) by lia.
    rewrite second_of_four by lia.
    rewrite !is_cont_digit by lia.
    replace ((240 + q1 - 240) * 262144 + (128 + r1 - 128) * 4096
             + (128 + r0 - 128) * 64 + (128 + r - 128)) with c by lia.
    reflexivity.
Qed.

Lemma units_pair (c d : Z) :
  is_high_surrogate c = true -> is_low_surrogate d = true ->
  units (65536 + (c - 55296) * 1024 + (d - 56320)) = [c; d].
Proof.
  unfold is_high_surrogate, is_low_surrogate, units. intros Hc Hd.
  apply andb_true_iff in Hc as [Hc1 Hc2]. apply andb_true_iff in Hd as [Hd1 Hd2].
  apply Z.leb_le in Hc1, Hc2, Hd1, Hd2.
  rewrite (proj2 (Z.ltb_ge _ _)) by lia. f_equal; [arith | f_equal; arith].
Qed.

Lemma decode_encode_aux (n : nat) (s : jsstring) :
  (List.length s <= n)%nat -> well_formed s -> decode (encode s) = s.
Proof.
  revert s. induction n as [|n IH]; intros s Hn Hwf.
  - destruct s; [reflexivity | simpl in Hn; lia].
  - destruct s as [|c r]; [reflexivity|].
    cbn [well_formed] in Hwf. destruct Hwf as [Hc Hwf]. unfold code_unit in Hc.
    cbn [encode]. destruct (is_high_surrogate c) eqn:Hh.
    + destruct r as [|d r']; [contradiction|]. destruct Hwf as [Hd Hwf].
      rewrite Hd. rewrite decode_encode_cp.
      * rewrite units_pair by assumption. cbn [app]. do 2 f_equal.
        apply IH; [simpl in Hn; lia | assumption].
      * unfold is_high_surrogate in Hh. unfold is_low_surrogate in Hd.
        apply andb_true_iff in Hh as [Hc1 Hc2].
        apply andb_true_iff in Hd as [Hd1 Hd2].
        apply Z.leb_le in Hc1, Hc2, Hd1, Hd2. unfold scalar. lia.
    + destruct Hwf as [Hl Hwf]. rewrite Hl. rewrite decode_encode_cp.
      * unfold units. rewrite (proj2 (Z.ltb_lt c 65536)) by lia.
        cbn [app]. f_equal.
        apply IH; [simpl in Hn; lia | assumption].
      * unfold is_high_surrogate in Hh. unfold is_low_surrogate in Hl.
        apply andb_false_iff in Hh. apply andb_false_iff in Hl.
        rewrite !Z.leb_gt in Hh, Hl. unfold scalar. lia.
Qed.

(** Node's UTF-8 codec gives back every well-formed string. *)
Lemma utf8_decode_encode (s : jsstring) :
  well_formed s -> decode (encode s) = s.
Proof. apply (decode_encode_aux (List.length s)). lia. Qed.

Lemma encode_cp_nonzero (c : Z) :
  scalar c -> c <> 0 -> Forall (fun b => b <> 0) (encode_cp c).
Proof.
  intros Hc Hz. rewrite encode_cp_digits. unfold scalar in Hc.
  destruct (Z.ltb_spec c 128) as [H1|H1];
    [|destruct (Z.ltb_spec c 2048) as [H2|H2];
      [|destruct (Z.ltb_spec c 65536) as [H3|H3]]].
  - repeat constructor; lia.
  - destruct (base64 c) as (q & r & -> & -> & Hq & Hr).
    repeat constructor; lia.
  - destruct (base64 c) as (q & r & -> & -> & Hq & Hr).
    destruct (base64 q) as (q0 & r0 & -> & -> & Hq0 & Hr0).
    repeat constructor; lia.
  - destruct (base64 c) as (q & r & -> & -> & Hq & Hr).
    destruct (base64 q) as (q0 & r0 & -> & -> & Hq0 & Hr0).
    destruct (base64 q0) as (q1 & r1 & -> & -> & Hq1 & Hr1).
    repeat constructor; lia.
Qed.

Lemma encode_nonzero_aux (n : nat) (s : jsstring) :
  (List.length s <= n)%nat -> well_formed s -> Forall (fun c => c <> 0) s ->
  Forall (fun b => b <> 0) (encode s).
Proof.
  revert s. induction n as [|n IH]; intros s Hn Hwf Hnz.
  - destruct s; [constructor | simpl in Hn; lia].
  - destruct s as [|c r]; [constructor|].
    cbn [well_formed] in Hwf. destruct Hwf as [Hc Hwf]. unfold code_unit in Hc.
    apply Forall_cons in Hnz as [Hc0 Hnz].
    cbn [encode]. destruct (is_high_surrogate c) eqn:Hh.
    + destruct r as [|d r']; [contradiction|]. destruct Hwf as [Hd Hwf].
      apply Forall_cons in Hnz as [Hd0 Hnz].
      rewrite Hd. apply Forall_app. split.
      * unfold is_high_surrogate in Hh. unfold is_low_surrogate in Hd.
        apply andb_true_iff in Hh as [Hc1 Hc2].
        apply andb_true_iff in Hd as [Hd1 Hd2].
        apply Z.leb_le in Hc1, Hc2, Hd1, Hd2.
        apply encode_cp_nonzero; [unfold scalar|]; lia.
      * apply IH; [simpl in Hn; lia | assumption | assumption].
    + destruct Hwf as [Hl Hwf]. rewrite Hl. apply Forall_app. split.
      * unfold is_high_surrogate in Hh. unfold is_low_surrogate in Hl.
        apply andb_false_iff in Hh. apply andb_false_iff in Hl.
        rewrite !Z.leb_gt in Hh, Hl.
        apply encode_cp_nonzero; [unfold scalar; lia | assumption].
      * apply IH; [simpl in Hn; lia | assumption | assumption].
Qed.

(** The encoding of a well-formed string without U+0000 has no zero byte. *)
Lemma utf8_encode_nonzero (s : jsstring) :
  well_formed s -> Forall (fun c => c <> 0) s ->
  Forall (fun b => b <> 0) (encode s).
Proof. apply (encode_nonzero_aux (List.length s)). lia. Qed.

End Utf8_facts.

(* ===================================================================== *)
(** ** Buffers as spliced lists *)

Section Splice.

Implicit Types (b bytes x y : list Z) (off i : nat).

Lemma length_splice b off bytes :
  (off + List.length bytes <= List.length b)%nat ->
  List.length (splice b off bytes) = List.length b.
Proof.
  intros H. unfold splice.
  rewrite !length_app, length_take, length_drop. lia.
Qed.

Lemma lookup_splice b off bytes i :
  (off + List.length bytes <= List.length b)%nat ->
  splice b off bytes !! i =
  if (i <? off)%nat then b !! i
  else if (i <? off + List.length bytes)%nat then bytes !! (i - off)%nat
  else b !! i.
Proof.
  intros H. unfold splice.
  destruct (Nat.ltb_spec i off) as [Hi|Hi].
  - rewrite lookup_app_l by (rewrite length_take; lia).
    apply lookup_take_lt. lia.
  - rewrite lookup_app_r by (rewrite length_take; lia).
    rewrite length_take. replace (off `min` List.length b)%nat with off by lia.
    destruct (Nat.ltb_spec i (off + List.length bytes)) as [Hj|Hj].
    + apply lookup_app_l. lia.
    + rewrite lookup_app_r by lia. rewrite lookup_drop. f_equal. lia.
Qed.

Lemma splice_inside b off bytes i :
  (off + List.length bytes <= List.length b)%nat ->
  (i < List.length bytes)%nat ->
  splice b off bytes !! (off + i)%nat = bytes !! i.
Proof.
  intros H Hi. rewrite lookup_splice by assumption.
  destruct (Nat.ltb_spec (off + i) off); [lia|].
  destruct (Nat.ltb_spec (off + i) (off + List.length bytes)); [|lia].
  f_equal. lia.
Qed.

Lemma insert_splice b i (v : Z) :
  (i < List.length b)%nat -> <[i := v]> b = splice b i [v].
Proof.
  intros H. unfold splice. cbn [List.length app].
  rewrite insert_take_drop by assumption. do 3 f_equal. lia.
Qed.

(** Writing [y] right after [x]. *)
Lemma splice_then b off off' x y :
  off' = (off + List.length x)%nat ->
  (off + List.length x + List.length y <= List.length b)%nat ->
  splice (splice b off x) off' y = splice b off (x ++ y).
Proof.
  intros -> H. apply list_eq. intros i.
  rewrite lookup_splice by (rewrite length_splice; lia).
  rewrite !lookup_splice by (rewrite ?length_app; lia).
  rewrite length_app.
  destruct (Nat.ltb_spec i off), (Nat.ltb_spec i (off + List.length x)),
    (Nat.ltb_spec i (off + List.length x + List.length y)),
    (Nat.ltb_spec i (off + (List.length x + List.length y))); try lia;
    try reflexivity.
  - rewrite lookup_app_l by lia. reflexivity.
  - rewrite lookup_app_r by lia. f_equal. lia.
Qed.

(** Writing [x] right before [y]. *)
Lemma splice_before b off off' x y :
  off' = (off + List.length x)%nat ->
  (off + List.length x + List.length y <= List.length b)%nat ->
  splice (splice b off' y) off x = splice b off (x ++ y).
Proof.
  intros -> H. apply list_eq. intros i.
  rewrite lookup_splice by (rewrite length_splice; lia).
  rewrite !lookup_splice by (rewrite ?length_app; lia).
  rewrite length_app.
  destruct (Nat.ltb_spec i off), (Nat.ltb_spec i (off + List.length x)),
    (Nat.ltb_spec i (off + List.length x + List.length y)),
    (Nat.ltb_spec i (off + (List.length x + List.length y))); try lia;
    try reflexivity.
  - rewrite lookup_app_l by lia. reflexivity.
  - rewrite lookup_app_r by lia. f_equal. lia.
Qed.

Lemma take_drop_splice b off bytes :
  (off + List.length bytes <= List.length b)%nat ->
  take (List.length bytes) (drop off (splice b off bytes)) = bytes.
Proof.
  intros H. unfold splice.
  rewrite drop_app_ge by (rewrite length_take; lia).
  rewrite length_take. replace (off - off `min` List.length b)%nat with O by lia.
  cbn [drop]. apply take_app_length.
Qed.

Lemma copy_from_splice src b off :
  (off + List.length src <= List.length b)%nat ->
  Buffer.copy_from src b off = splice b off src.
Proof.
  revert b off. induction src as [|v src IH]; intros b off H.
  - cbn. unfold splice. cbn. rewrite Nat.add_0_r. symmetry. apply take_drop.
  - cbn [Buffer.copy_from]. cbn [List.length] in H.
    rewrite insert_splice by lia.
    rewrite IH by (rewrite length_splice; cbn [List.length]; lia).
    rewrite splice_then by (cbn [List.length]; lia). reflexivity.
Qed.

End Splice.

(* ===================================================================== *)
(** ** The instruction codec *)

Section Codec.

Import Build727ClientscriptObfuscation.

Lemma Buffer_length_nonneg (b : Buffer.t) : 0 <= Buffer.length b.
Proof. unfold Buffer.length. lia. Qed.

Lemma Buffer_set_splice (b : Buffer.t) (i v : Z) :
  0 <= i < Buffer.length b ->
  Buffer.set b i v = splice b (Z.to_nat i) [v mod 256].
Proof.
  unfold Buffer.length, Buffer.set. intros H.
  rewrite (proj2 (Z.ltb_ge i 0)) by lia. apply insert_splice. lia.
Qed.

Lemma Buffer_get_splice (b : Buffer.t) (off : nat) (bytes : list Z) (i : nat) :
  (off + List.length bytes <= List.length b)%nat ->
  (i < List.length bytes)%nat ->
  Buffer.get (splice b off bytes) (Z.of_nat off + Z.of_nat i) = bytes !! i.
Proof.
  intros H Hi. unfold Buffer.get.
  rewrite (proj2 (Z.ltb_ge _ 0)) by lia.
  replace (Z.to_nat (Z.of_nat off + Z.of_nat i)) with (off + i)%nat by lia.
  apply splice_inside; assumption.
Qed.

Lemma in_bounds_true (b : Buffer.t) (offset n : Z) :
  0 <= offset -> offset + n <= Buffer.length b ->
  Buffer.in_bounds b offset n = true.
Proof.
  intros H1 H2. unfold Buffer.in_bounds.
  apply andb_true_iff. split; apply Z.leb_le; lia.
Qed.

(** *** What [writeOpCode] leaves in the buffer *)

Lemma shiftr_byte (u : Z) (k : Z) :
  0 <= k -> Z.shiftr u k mod 256 = (u / 2 ^ k) mod 256.
Proof. intros Hk. rewrite Z.shiftr_div_pow2 by lia. reflexivity. Qed.

Local Ltac room :=
  unfold Buffer.length in *; rewrite ?length_splice;
  rewrite ?length_splice; rewrite ?length_app; cbn [List.length app]; lia.

Lemma writeUInt16BE_splice (b : Buffer.t) (value offset : Z) :
  0 <= value < 65536 -> 0 <= offset -> offset + 2 <= Buffer.length b ->
  Buffer.writeUInt16BE b value offset
  = Ok (splice b (Z.to_nat offset) [value / 256; value mod 256]).
Proof.
  intros Hv Ho Hb. unfold Buffer.writeUInt16BE.
  rewrite (proj2 (Z.ltb_ge value 0)), (proj2 (Z.ltb_ge 65535 value)) by lia.
  cbn [orb]. rewrite in_bounds_true by lia. f_equal.
  rewrite (Buffer_set_splice b) by lia.
  rewrite Buffer_set_splice by room.
  rewrite splice_then by room.
  cbn [app]. rewrite shiftr_byte by lia. change (2 ^ 8) with 256.
  rewrite (Z.mod_small (value / 256)); [reflexivity|].
  split; [apply Z.div_pos; lia | apply Z.div_lt_upper_bound; lia].
Qed.

Lemma writeInt32BE_splice (b : Buffer.t) (value offset : Z) :
  int32 value -> 0 <= offset -> offset + 4 <= Buffer.length b ->
  Buffer.writeInt32BE b value offset
  = Ok (splice b (Z.to_nat offset)
          (let u := value mod 2 ^ 32 in
           [u / 2 ^ 24; (u / 2 ^ 16) mod 256; (u / 2 ^ 8) mod 256; u mod 256])).
Proof.
  intros Hv Ho Hb. unfold int32 in Hv. unfold Buffer.writeInt32BE.
  rewrite (proj2 (Z.ltb_ge value (- 2147483648))),
    (proj2 (Z.ltb_ge 2147483647 value)) by lia.
  cbn [orb]. rewrite in_bounds_true by lia. cbv zeta. f_equal.
  set (u := value mod 2 ^ 32).
  assert (Hu : 0 <= u < 2 ^ 32) by (apply Z.mod_pos_bound; lia).
  rewrite (Buffer_set_splice b) by lia.
  rewrite (Buffer_set_splice _ (offset + 2)) by room.
  rewrite splice_before by room.
  rewrite (Buffer_set_splice _ (offset + 1)) by room.
  rewrite splice_before by room.
  rewrite (Buffer_set_splice _ offset) by room.
  rewrite splice_before by room.
  cbn [app]. rewrite !shiftr_byte by lia.
  rewrite (Z.mod_small (u / 2 ^ 24)); [reflexivity|].
  split; [apply Z.div_pos; lia | apply Z.div_lt_upper_bound; lia].
Qed.

Lemma writeUInt8_zero_splice (b : Buffer.t) (offset : Z) :
  0 <= offset -> offset + 1 <= Buffer.length b ->
  Buffer.writeUInt8 b 0 offset = Ok (splice b (Z.to_nat offset) [0]).
Proof.
  intros Ho Hb. unfold Buffer.writeUInt8. cbn [Z.ltb Z.compare orb].
  rewrite in_bounds_true by lia. rewrite Buffer_set_splice by lia.
  reflexivity.
Qed.

Lemma copy_splice (src b : Buffer.t) (targetStart : Z) :
  0 <= targetStart -> targetStart + Buffer.length src <= Buffer.length b ->
  Buffer.copy src b targetStart = Ok (splice b (Z.to_nat targetStart) src).
Proof.
  intros Ho Hb. unfold Buffer.copy, Buffer.length in *.
  rewrite (proj2 (Z.ltb_ge targetStart 0)) by lia.
  rewrite copy_from_splice by lia. reflexivity.
Qed.

(** [writeOpCode] stores exactly the bytes of [encodeOne] at the cursor and
    moves the cursor past them. *)
Lemma writeOpCode_bytes (st : State) (x : Instruction) :
  0 <= opcode x < 65536 ->
  match imm_obj x with ImmNumber n => int32 n | _ => True end ->
  0 <= scan st ->
  scan st + encoded_length x <= Buffer.length (buffer st) ->
  writeOpCode st x
  = Ok {| buffer := splice (buffer st) (Z.to_nat (scan st)) (encodeOne x);
          scan := scan st + encoded_length x;
          endoffset := endoffset st |}.
Proof.
  intros Hop Himm Hs Hroom. unfold writeOpCode, encoded_length, encodeOne in *.
  destruct (imm_obj x) as [|n|s].
  - cbn [List.length app] in *.
    rewrite writeUInt16BE_splice by lia. cbn [rbind]. reflexivity.
  - cbn [List.length app] in *.
    rewrite writeUInt16BE_splice by lia. cbn [rbind].
    rewrite writeInt32BE_splice by (assumption || room).
    cbn [rbind]. cbv zeta.
    rewrite splice_then by room.
    do 2 f_equal. lia.
  - rewrite length_app in Hroom. cbn [List.length] in Hroom.
    rewrite length_app in Hroom. cbn [List.length] in Hroom.
    rewrite writeUInt16BE_splice by lia. cbn [rbind].
    unfold Buffer.from.
    rewrite copy_splice by room.
    cbn [rbind].
    rewrite writeUInt8_zero_splice by room.
    cbn [rbind].
    rewrite (splice_then (buffer st)) by room.
    rewrite splice_then by room.
    rewrite <- app_assoc. f_equal. f_equal.
    rewrite !length_app. cbn [List.length]. unfold Buffer.length. lia.
Qed.


(** *** Reading a spliced buffer *)

Lemma slice_splice (b p m q : list Z) (off start n : nat) :
  start = (off + List.length p)%nat -> n = List.length m ->
  (off + List.length (p ++ m ++ q) <= List.length b)%nat ->
  take n (drop start (splice b off (p ++ m ++ q))) = m.
Proof.
  intros -> -> H. apply list_eq. intros i.
  rewrite lookup_take, lookup_drop. rewrite !length_app in H.
  case_decide as Hi.
  - rewrite lookup_splice by (rewrite !length_app; lia).
    destruct (Nat.ltb_spec (off + List.length p + i) off); [lia|].
    rewrite !length_app.
    destruct (Nat.ltb_spec (off + List.length p + i)
                (off + (List.length p + (List.length m + List.length q))));
      [|lia].
    rewrite lookup_app_r by lia. rewrite lookup_app_l by lia. f_equal. lia.
  - symmetry. apply lookup_ge_None. lia.
Qed.

Lemma byte_at_splice (b bytes : list Z) (off i : nat) (v : Z) :
  (off + List.length bytes <= List.length b)%nat ->
  bytes !! i = Some v ->
  Buffer.byte_at (splice b off bytes) (Z.of_nat off + Z.of_nat i) = v.
Proof.
  intros H Hv. unfold Buffer.byte_at.
  rewrite Buffer_get_splice; [rewrite Hv; reflexivity | assumption |].
  apply lookup_lt_is_Some. eauto.
Qed.

Lemma readUInt16BE_splice (b : list Z) (off : nat) (hi lo : Z) (rest : list Z) :
  (off + List.length (hi :: lo :: rest) <= List.length b)%nat ->
  Buffer.readUInt16BE (splice b off (hi :: lo :: rest)) (Z.of_nat off)
  = Ok (hi * 256 + lo).
Proof.
  intros H. unfold Buffer.readUInt16BE.
  rewrite in_bounds_true
    by (unfold Buffer.length; rewrite ?length_splice; cbn [List.length] in *; lia).
  f_equal. change (2 ^ 8) with 256.
  replace (Z.of_nat off) with (Z.of_nat off + Z.of_nat 0) at 1 by lia.
  rewrite (byte_at_splice _ _ _ 0 hi) by (assumption || reflexivity).
  change 1 with (Z.of_nat 1).
  rewrite (byte_at_splice _ _ _ 1 lo) by (assumption || reflexivity).
  reflexivity.
Qed.

Lemma div_65536 (u : Z) : u / 65536 = u / 256 / 256.
Proof. change 65536 with (256 * 256). symmetry. apply Z.div_div; lia. Qed.

Lemma div_16777216 (u : Z) : u / 16777216 = u / 256 / 256 / 256.
Proof.
  change 16777216 with (256 * 256 * 256). rewrite <- !Z.div_div by lia.
  reflexivity.
Qed.

Lemma base256 (x : Z) :
  exists q r, x / 256 = q /\ x mod 256 = r /\ x = 256 * q + r /\ 0 <= r < 256.
Proof.
  exists (x / 256), (x mod 256). split; [reflexivity|]. split; [reflexivity|].
  split; [apply Z.div_mod; lia | apply Z.mod_pos_bound; lia].
Qed.

(** The four bytes of a 32-bit signed integer read back as that integer. *)
Lemma int32_bytes (n : Z) :
  int32 n ->
  let u := n mod 2 ^ 32 in
  let first := u / 2 ^ 24 in
  (if first <? 128 then first else first - 256) * 2 ^ 24
  + (u / 2 ^ 16) mod 256 * 2 ^ 16 + (u / 2 ^ 8) mod 256 * 2 ^ 8 + u mod 256
  = n.
Proof.
  intros Hn. unfold int32 in Hn. cbv zeta.
  change (2 ^ 32) with 4294967296. change (2 ^ 24) with 16777216.
  change (2 ^ 16) with 65536. change (2 ^ 8) with 256.
  pose proof (Z.div_mod n 4294967296 ltac:(lia)) as Hk.
  pose proof (Z.mod_pos_bound n 4294967296 ltac:(lia)) as Hu.
  set (u := n mod 4294967296) in *. set (k := n / 4294967296) in *.
  clearbody u k.
  rewrite div_16777216, div_65536.
  destruct (base256 u) as (a & r3 & -> & -> & Ha & Hr3).
  destruct (base256 a) as (a2 & r2 & -> & -> & Ha2 & Hr2).
  destruct (base256 a2) as (a3 & r1 & -> & -> & Ha3 & Hr1).
  assert (0 <= a3 < 256) by lia.
  destruct (Z.ltb_spec a3 128); lia.
Qed.

Lemma readInt32BE_splice (b p : list Z) (off : nat) (b0 b1 b2 b3 : Z) :
  (off + List.length (p ++ [b0; b1; b2; b3]) <= List.length b)%nat ->
  Buffer.readInt32BE (splice b off (p ++ [b0; b1; b2; b3]))
    (Z.of_nat off + Z.of_nat (List.length p))
  = Ok ((if b0 <? 128 then b0 else b0 - 256) * 2 ^ 24
        + b1 * 2 ^ 16 + b2 * 2 ^ 8 + b3).
Proof.
  intros H. unfold Buffer.readInt32BE.
  rewrite in_bounds_true
    by (unfold Buffer.length; rewrite ?length_splice; rewrite length_app in *;
        cbn [List.length] in *; lia).
  cbv zeta.
  assert (Hat : forall k v, [b0; b1; b2; b3] !! k = Some v ->
    Buffer.byte_at (splice b off (p ++ [b0; b1; b2; b3]))
      (Z.of_nat off + Z.of_nat (List.length p) + Z.of_nat k) = v).
  { intros k v Hv.
    replace (Z.of_nat off + Z.of_nat (List.length p) + Z.of_nat k)
      with (Z.of_nat off + Z.of_nat (List.length p + k)) by lia.
    apply byte_at_splice; [assumption|].
    rewrite lookup_app_r by lia.
    replace (List.length p + k - List.length p)%nat with k by lia. exact Hv. }
  pose proof (Hat 0%nat b0 eq_refl) as H0. rewrite Z.add_0_r in H0.
  pose proof (Hat 1%nat b1 eq_refl) as H1.
  pose proof (Hat 2%nat b2 eq_refl) as H2.
  pose proof (Hat 3%nat b3 eq_refl) as H3.
  change (Z.of_nat 1) with 1 in H1. change (Z.of_nat 2) with 2 in H2.
  change (Z.of_nat 3) with 3 in H3.
  rewrite H0, H1, H2, H3. reflexivity.
Qed.

(** *** The scan for the terminator *)

Lemma scan_loop_stop (b : Buffer.t) (e z : Z) (fuel : nat) (s : Z) :
  s <= z <= e -> (Z.to_nat (e - s) <= fuel)%nat ->
  (forall i, s <= i < z -> not_zero (Buffer.get b i) = true) ->
  z = e \/ not_zero (Buffer.get b z) = false ->
  scan_loop fuel b e s = z.
Proof.
  revert s. induction fuel as [|fuel IH]; intros s Hs Hfuel Hnz Hz.
  - cbn. lia.
  - cbn [scan_loop]. destruct (Z.eq_dec s z) as [->|Hne].
    + destruct Hz as [->|Hz].
      * rewrite Z.ltb_irrefl. reflexivity.
      * rewrite Hz, andb_false_r. reflexivity.
    + rewrite (proj2 (Z.ltb_lt s e)) by lia.
      rewrite Hnz by lia. cbn [andb].
      apply IH; [lia | lia | | assumption].
      intros i Hi. apply Hnz. lia.
Qed.

(** The loop stops at the first zero byte, or at [endoffset] when there is
    none before it. *)
Lemma scan_string_stop (b : Buffer.t) (e s z : Z) :
  s <= z <= e ->
  (forall i, s <= i < z -> not_zero (Buffer.get b i) = true) ->
  z = e \/ not_zero (Buffer.get b z) = false ->
  scan_string b e s = z.
Proof. intros. apply scan_loop_stop; auto. Qed.

(** More fuel than [endoffset - scan] changes nothing: the fuel
    [scan_string] gives never runs out before the loop condition fails. *)
Lemma scan_loop_fuel (b : Buffer.t) (e : Z) (fuel : nat) (s : Z) :
  (Z.to_nat (e - s) <= fuel)%nat ->
  scan_loop fuel b e s = scan_string b e s.
Proof.
  unfold scan_string. revert s. induction fuel as [|fuel IH]; intros s Hf.
  - replace (Z.to_nat (e - s)) with O by lia. reflexivity.
  - cbn [scan_loop]. destruct (Z.ltb_spec s e) as [Hlt|Hge].
    + destruct (Z.to_nat (e - s)) as [|k] eqn:Hk; [lia|].
      cbn [scan_loop]. rewrite (proj2 (Z.ltb_lt s e)) by lia. cbn [andb].
      destruct (not_zero (Buffer.get b s)); [|reflexivity].
      rewrite IH by lia.
      replace k with (Z.to_nat (e - (s + 1))) by lia. reflexivity.
    + cbn [andb]. replace (Z.to_nat (e - s)) with O by lia. reflexivity.
Qed.

End Codec.

Section Decode.

Import Build727ClientscriptObfuscation.

Variable table : CS2OpcodeMappings.t.

Lemma eqb_true (a b : jsstring) : a = b -> JsString.eqb a b = true.
Proof. intros H. unfold JsString.eqb. apply bool_decide_eq_true_2, H. Qed.

Lemma eqb_false (a b : jsstring) : a <> b -> JsString.eqb a b = false.
Proof. intros H. unfold JsString.eqb. apply bool_decide_eq_false_2, H. Qed.

Lemma readUInt16BE_lookup (b : Buffer.t) (s b0 b1 : Z) :
  0 <= s -> b !! Z.to_nat s = Some b0 -> b !! Z.to_nat (s + 1) = Some b1 ->
  Buffer.readUInt16BE b s = Ok (b0 * 256 + b1).
Proof.
  intros Hs H0 H1. unfold Buffer.readUInt16BE.
  pose proof (lookup_lt_Some _ _ _ H1) as Hlen.
  rewrite in_bounds_true by (unfold Buffer.length; lia).
  unfold Buffer.byte_at, Buffer.get.
  rewrite (proj2 (Z.ltb_ge s 0)), (proj2 (Z.ltb_ge (s + 1) 0)) by lia.
  rewrite H0, H1. reflexivity.
Qed.

(** The four ways through [readOpcode], given the opcode it reads. *)

Lemma readOpcode_unmapped (st : State) (op : Z) :
  Buffer.readUInt16BE (buffer st) (scan st) = Ok op ->
  CS2OpcodeMappings.getMapping table op = None ->
  readOpcode table st
  = Ok ({| opcode := op; imm := 0; imm_obj := ImmNull;
           name := lit "unknown_" ++ Number_toString 10 op;
           returnType := lit "unknown"; paramTypes := [] |},
        {| buffer := buffer st; scan := scan st + 2;
           endoffset := endoffset st |},
        [unknown_message op]).
Proof.
  intros Hop Hm. unfold readOpcode. rewrite Hop. cbn [rbind]. rewrite Hm.
  reflexivity.
Qed.

Lemma readOpcode_number (st : State) (op n : Z) (m : CS2OpcodeMapping)
    (p : jsstring) (rest : list jsstring) :
  Buffer.readUInt16BE (buffer st) (scan st) = Ok op ->
  CS2OpcodeMappings.getMapping table op = Some m ->
  map_paramTypes m = p :: rest ->
  p = lit "int" \/ p = lit "component" ->
  Buffer.readInt32BE (buffer st) (scan st + 2) = Ok n ->
  readOpcode table st
  = Ok ({| opcode := op; imm := n; imm_obj := ImmNumber n;
           name := map_name m; returnType := map_returnType m;
           paramTypes := map_paramTypes m |},
        {| buffer := buffer st; scan := scan st + 2 + 4;
           endoffset := endoffset st |},
        []).
Proof.
  intros Hop Hm Hp Hk Hn. unfold readOpcode. rewrite Hop. cbn [rbind].
  rewrite Hm, Hp.
  replace (JsString.eqb p (lit "int") || JsString.eqb p (lit "component"))
    with true.
  - rewrite Hn. cbn [rbind]. rewrite <- Hp. reflexivity.
  - symmetry. apply orb_true_iff.
    destruct Hk as [->| ->]; [left | right]; apply eqb_true; reflexivity.
Qed.

Lemma readOpcode_string (st : State) (op : Z) (m : CS2OpcodeMapping)
    (rest : list jsstring) :
  Buffer.readUInt16BE (buffer st) (scan st) = Ok op ->
  CS2OpcodeMappings.getMapping table op = Some m ->
  map_paramTypes m = lit "string" :: rest ->
  readOpcode table st
  = Ok ({| opcode := op; imm := 0;
           imm_obj :=
             ImmString
               (Buffer.toString (buffer st) (scan st + 2)
                  (scan_string (buffer st) (endoffset st) (scan st + 2)));
           name := map_name m; returnType := map_returnType m;
           paramTypes := map_paramTypes m |},
        {| buffer := buffer st;
           scan := scan_string (buffer st) (endoffset st) (scan st + 2) + 1;
           endoffset := endoffset st |},
        []).
Proof.
  intros Hop Hm Hp. unfold readOpcode. rewrite Hop. cbn [rbind].
  rewrite Hm, Hp.
  rewrite (eqb_false (lit "string") (lit "int")) by discriminate.
  rewrite (eqb_false (lit "string") (lit "component")) by discriminate.
  rewrite (eqb_true (lit "string") (lit "string")) by reflexivity.
  cbn [orb]. rewrite <- Hp. reflexivity.
Qed.

Lemma readOpcode_plain (st : State) (op : Z) (m : CS2OpcodeMapping) :
  Buffer.readUInt16BE (buffer st) (scan st) = Ok op ->
  CS2OpcodeMappings.getMapping table op = Some m ->
  match map_paramTypes m with
  | [] => True
  | p :: _ => p <> lit "int" /\ p <> lit "component" /\ p <> lit "string"
  end ->
  readOpcode table st
  = Ok ({| opcode := op; imm := 0; imm_obj := ImmNull;
           name := map_name m; returnType := map_returnType m;
           paramTypes := map_paramTypes m |},
        {| buffer := buffer st; scan := scan st + 2;
           endoffset := endoffset st |},
        []).
Proof.
  intros Hop Hm Hp. unfold readOpcode. rewrite Hop. cbn [rbind]. rewrite Hm.
  destruct (map_paramTypes m) as [|p rest]; [reflexivity|].
  destruct Hp as (H1 & H2 & H3).
  rewrite !eqb_false by assumption. reflexivity.
Qed.

(** What each implied kind says about the table. *)
Lemma implied_kind_number (op : Z) :
  implied_kind table op = KindNumber ->
  exists m p rest, CS2OpcodeMappings.getMapping table op = Some m /\
    map_paramTypes m = p :: rest /\ (p = lit "int" \/ p = lit "component").
Proof.
  unfold implied_kind.
  destruct (CS2OpcodeMappings.getMapping table op) as [m|]; [|discriminate].
  destruct (map_paramTypes m) as [|p rest] eqn:Hp; [discriminate|].
  destruct (decide (p = lit "int" \/ p = lit "component")) as [Hk|Hk].
  - intros _. exists m, p, rest. auto.
  - destruct (decide (p = lit "string")); discriminate.
Qed.

Lemma implied_kind_string (op : Z) :
  implied_kind table op = KindString ->
  exists m rest, CS2OpcodeMappings.getMapping table op = Some m /\
    map_paramTypes m = lit "string" :: rest.
Proof.
  unfold implied_kind.
  destruct (CS2OpcodeMappings.getMapping table op) as [m|]; [|discriminate].
  destruct (map_paramTypes m) as [|p rest] eqn:Hp; [discriminate|].
  destruct (decide (p = lit "int" \/ p = lit "component")) as [Hk|Hk];
    [discriminate|].
  destruct (decide (p = lit "string")) as [->|]; [|discriminate].
  intros _. exists m, rest. auto.
Qed.

Lemma implied_kind_none (op : Z) :
  implied_kind table op = KindNone ->
  match CS2OpcodeMappings.getMapping table op with
  | None => True
  | Some m =>
    match map_paramTypes m with
    | [] => True
    | p :: _ => p <> lit "int" /\ p <> lit "component" /\ p <> lit "string"
    end
  end.
Proof.
  unfold implied_kind.
  destruct (CS2OpcodeMappings.getMapping table op) as [m|]; [|trivial].
  destruct (map_paramTypes m) as [|p rest] eqn:Hp; [trivial|].
  destruct (decide (p = lit "int" \/ p = lit "component")) as [Hk|Hk];
    [discriminate|].
  destruct (decide (p = lit "string")) as [|Hs]; [discriminate|].
  intros _. tauto.
Qed.

End Decode.

(* ===================================================================== *)
(** ** Properties of the instruction codec *)

Import Build727ClientscriptObfuscation.

(** C8. At a position whose two bytes [b0 b1] form, big-endian, an opcode
    the table has no definition for, [readOpcode] does not fail: it returns
    the placeholder instruction named [unknown_<opcode>] with return type
    [unknown], no parameter types and no immediate, writes one warning to
    the console, and leaves the cursor 2 bytes further. *)
Theorem readOpcode_unknown_opcode (table : CS2OpcodeMappings.t) (st : State)
    (b0 b1 : Z) :
  0 <= scan st ->
  buffer st !! Z.to_nat (scan st) = Some b0 ->
  buffer st !! Z.to_nat (scan st + 1) = Some b1 ->
  CS2OpcodeMappings.getMapping table (b0 * 256 + b1) = None ->
  readOpcode table st
  = Ok ({| opcode := b0 * 256 + b1; imm := 0; imm_obj := ImmNull;
           name := lit "unknown_" ++ Number_toString 10 (b0 * 256 + b1);
           returnType := lit "unknown"; paramTypes := [] |},
        {| buffer := buffer st; scan := scan st + 2;
           endoffset := endoffset st |},
        [lit "Unknown CS2 opcode: " ++ Number_toString 10 (b0 * 256 + b1)
           ++ lit " (0x" ++ Number_toString 16 (b0 * 256 + b1) ++ lit ")"]).
Proof.
  intros Hs H0 H1 Hm.
  apply readOpcode_unmapped; [|assumption].
  apply readUInt16BE_lookup; assumption.
Qed.

Lemma readOpcode_unknown_opcode_witness :
  readOpcode CS2OpcodeMappings.empty
    {| buffer := [1; 44; 7]; scan := 0; endoffset := 3 |}
  = Ok ({| opcode := 300; imm := 0; imm_obj := ImmNull;
           name := lit "unknown_300"; returnType := lit "unknown";
           paramTypes := [] |},
        {| buffer := [1; 44; 7]; scan := 2; endoffset := 3 |},
        [lit "Unknown CS2 opcode: 300 (0x12c)"]).
Proof.
  apply (readOpcode_unknown_opcode CS2OpcodeMappings.empty
           {| buffer := [1; 44; 7]; scan := 0; endoffset := 3 |} 1 44);
    [cbn; lia | reflexivity | reflexivity | reflexivity].
Defined.

(** C9. For an opcode whose first declared parameter type is [string], the
    bytes [opcode:2, big-endian] 'A' 'B' 0x00 decode to the string immediate
    "AB", and the cursor ends 5 bytes after the start. The stream may end at
    the terminator or anywhere after it. *)
Theorem readOpcode_string_AB (table : CS2OpcodeMappings.t) (op : Z)
    (m : CS2OpcodeMapping) (rest : list jsstring) (streamEnd : Z) :
  0 <= op < 65536 ->
  CS2OpcodeMappings.getMapping table op = Some m ->
  map_paramTypes m = lit "string" :: rest ->
  4 <= streamEnd ->
  readOpcode table
    {| buffer := [op / 256; op mod 256; 65; 66; 0]; scan := 0;
       endoffset := streamEnd |}
  = Ok ({| opcode := op; imm := 0; imm_obj := ImmString (lit "AB");
           name := map_name m; returnType := map_returnType m;
           paramTypes := map_paramTypes m |},
        {| buffer := [op / 256; op mod 256; 65; 66; 0]; scan := 5;
           endoffset := streamEnd |},
        []).
Proof.
  intros Hop Hm Hp He.
  set (b := [op / 256; op mod 256; 65; 66; 0]).
  assert (Hread : Buffer.readUInt16BE b 0 = Ok op).
  { rewrite (readUInt16BE_lookup b 0 (op / 256) (op mod 256))
      by (reflexivity || lia).
    f_equal. pose proof (Z.div_mod op 256). lia. }
  assert (Hscan : scan_string b streamEnd (0 + 2) = 4).
  { apply scan_string_stop; [lia | | right; reflexivity].
    intros i Hi. assert (i = 2 \/ i = 3) as [-> | ->] by lia; reflexivity. }
  rewrite (readOpcode_string table
             {| buffer := b; scan := 0; endoffset := streamEnd |}
             op m rest Hread Hm Hp).
  cbn [buffer scan endoffset]. rewrite Hscan. reflexivity.
Qed.

Lemma readOpcode_string_AB_witness :
  readOpcode
    {| CS2OpcodeMappings.mappings :=
         {[ 258 := {| map_opcode := 258; map_name := lit "push_string";
                      map_returnType := lit "void";
                      map_paramTypes := [lit "string"] |} ]};
       CS2OpcodeMappings.nameToOpcode := {[ lit "push_string" := 258 ]} |}
    {| buffer := [258 / 256; 258 mod 256; 65; 66; 0]; scan := 0; endoffset := 5 |}
  = Ok ({| opcode := 258; imm := 0; imm_obj := ImmString (lit "AB");
           name := lit "push_string"; returnType := lit "void";
           paramTypes := [lit "string"] |},
        {| buffer := [258 / 256; 258 mod 256; 65; 66; 0]; scan := 5;
           endoffset := 5 |},
        []).
Proof.
  apply (readOpcode_string_AB _ 258
           {| map_opcode := 258; map_name := lit "push_string";
              map_returnType := lit "void"; map_paramTypes := [lit "string"] |}
           [] 5); [lia | reflexivity | reflexivity | lia].
Defined.

(** C10. When the first declared parameter type is [string] and no zero
    byte lies between the cursor (just after the opcode) and [endoffset],
    [readOpcode] reports no error: the string immediate is the text of the
    bytes from the cursor up to [endoffset] and the cursor is left at
    [endoffset + 1], one past the end of the stream. *)
Theorem readOpcode_unterminated_string (table : CS2OpcodeMappings.t)
    (st : State) (b0 b1 : Z) (m : CS2OpcodeMapping) (rest : list jsstring) :
  0 <= scan st ->
  buffer st !! Z.to_nat (scan st) = Some b0 ->
  buffer st !! Z.to_nat (scan st + 1) = Some b1 ->
  CS2OpcodeMappings.getMapping table (b0 * 256 + b1) = Some m ->
  map_paramTypes m = lit "string" :: rest ->
  scan st + 2 <= endoffset st ->
  (forall i, scan st + 2 <= i < endoffset st ->
             Buffer.get (buffer st) i <> Some 0) ->
  readOpcode table st
  = Ok ({| opcode := b0 * 256 + b1; imm := 0;
           imm_obj :=
             ImmString (Buffer.toString (buffer st) (scan st + 2) (endoffset st));
           name := map_name m; returnType := map_returnType m;
           paramTypes := map_paramTypes m |},
        {| buffer := buffer st; scan := endoffset st + 1;
           endoffset := endoffset st |},
        [])
  /\ (endoffset st <= Buffer.length (buffer st) ->
      Buffer.toString (buffer st) (scan st + 2) (endoffset st)
      = Utf8.decode (Buffer.slice (buffer st) (scan st + 2) (endoffset st))).
Proof.
  intros Hs H0 H1 Hm Hp He Hnz. split.
  - assert (Hscan : scan_string (buffer st) (endoffset st) (scan st + 2)
                    = endoffset st).
    { apply scan_string_stop; [lia | | left; reflexivity].
      intros i Hi. specialize (Hnz i Hi).
      destruct (Buffer.get (buffer st) i) as [[| |]|]; try reflexivity.
      congruence. }
    rewrite (readOpcode_string table st (b0 * 256 + b1) m rest); try assumption.
    + rewrite Hscan. reflexivity.
    + apply readUInt16BE_lookup; assumption.
  - intros Hlen. unfold Buffer.toString.
    rewrite Z.max_r, Z.min_l by lia.
    destruct (Z.leb_spec (endoffset st) (scan st + 2)) as [Hle|Hgt];
      [|reflexivity].
    unfold Buffer.slice.
    replace (Z.to_nat (endoffset st - (scan st + 2))) with O by lia.
    reflexivity.
Qed.

Lemma readOpcode_unterminated_string_witness :
  let table :=
    {| CS2OpcodeMappings.mappings :=
         {[ 1 := {| map_opcode := 1; map_name := lit "push_string";
                    map_returnType := lit "void";
                    map_paramTypes := [lit "string"] |} ]};
       CS2OpcodeMappings.nameToOpcode := {[ lit "push_string" := 1 ]} |} in
  let st := {| buffer := [0; 1; 104; 105; 33]; scan := 0; endoffset := 5 |} in
  exists r,
    readOpcode table st
    = Ok (r, {| buffer := buffer st; scan := 6; endoffset := 5 |}, [])
    /\ imm_obj r = ImmString (lit "hi!").
Proof.
  intros table st.
  destruct (readOpcode_unterminated_string table st 0 1
              {| map_opcode := 1; map_name := lit "push_string";
                 map_returnType := lit "void"; map_paramTypes := [lit "string"] |}
              []) as [Hread _].
  - cbn; lia.
  - reflexivity.
  - reflexivity.
  - reflexivity.
  - reflexivity.
  - cbn; lia.
  - intros i Hi. cbn in Hi.
    assert (i = 2 \/ i = 3 \/ i = 4) as [-> | [-> | ->]] by lia; discriminate.
  - eexists. split; [exact Hread | reflexivity].
Defined.

(** *** Round trip *)

Section Roundtrip.

Variable table : CS2OpcodeMappings.t.

Lemma encodeOne_head (x : Instruction) :
  exists tail, encodeOne x = opcode x / 256 :: opcode x mod 256 :: tail.
Proof. unfold encodeOne. cbn [app]. eauto. Qed.

Lemma read_written_opcode (b : Buffer.t) (off : nat) (x : Instruction) :
  (off + List.length (encodeOne x) <= List.length b)%nat ->
  Buffer.readUInt16BE (splice b off (encodeOne x)) (Z.of_nat off)
  = Ok (opcode x).
Proof.
  intros H. destruct (encodeOne_head x) as [tail Htail].
  rewrite Htail in *. rewrite readUInt16BE_splice by assumption.
  f_equal. pose proof (Z.div_mod (opcode x) 256). lia.
Qed.

Lemma described_eq (x r : Instruction) (m : option CS2OpcodeMapping) :
  CS2OpcodeMappings.getMapping table (opcode x) = m ->
  opcode r = opcode x -> imm_obj r = imm_obj x ->
  imm r = imm_value (imm_obj x) ->
  match m with
  | Some m =>
    name r = map_name m /\ returnType r = map_returnType m /\
    paramTypes r = map_paramTypes m
  | None =>
    name r = lit "unknown_" ++ Number_toString 10 (opcode x) /\
    returnType r = lit "unknown" /\ paramTypes r = []
  end ->
  described_by table x -> r = x.
Proof.
  intros Hm Ho Hi Hv Hr [Himm Hx]. rewrite Hm in Hx.
  destruct x, r; cbn in *.
  destruct m; destruct Hr as (? & ? & ?); destruct Hx as (? & ? & ?);
    congruence.
Qed.

End Roundtrip.

(** C1. An instruction whose opcode fits 16 bits, whose immediate is of the
    kind its opcode's first declared parameter type implies, and whose
    string immediate, if it has one, is well-formed text without U+0000,
    survives [writeOpCode] followed by [readOpcode]: the opcode, the
    immediate object and the numeric immediate come back unchanged and both
    cursors end at the same place. The buffer must have room for the bytes
    and the stream must reach their end. *)
Theorem writeOpCode_readOpcode_roundtrip (table : CS2OpcodeMappings.t)
    (st : State) (streamEnd : Z) (x : Instruction) :
  0 <= opcode x < 65536 ->
  kind_matches table x ->
  terminable (imm_obj x) ->
  0 <= scan st ->
  scan st + encoded_length x <= Buffer.length (buffer st) ->
  scan st + encoded_length x <= streamEnd ->
  roundtrips table st streamEnd x.
Proof.
  intros Hop [Hkind Hint] Hterm Hs Hroom Hend.
  unfold roundtrips.
  rewrite writeOpCode_bytes by assumption.
  eexists. split; [reflexivity|]. cbn [buffer scan].
  set (off := Z.to_nat (scan st)).
  assert (Hoff : scan st = Z.of_nat off) by (unfold off; lia).
  assert (Hlen : (off + List.length (encodeOne x) <= List.length (buffer st))%nat)
    by (unfold encoded_length, Buffer.length in Hroom; lia).
  set (st1 := {| buffer := splice (buffer st) off (encodeOne x);
                 scan := scan st; endoffset := streamEnd |}).
  assert (Hread : Buffer.readUInt16BE (buffer st1) (scan st1) = Ok (opcode x)).
  { cbn [st1 buffer scan]. rewrite Hoff. apply read_written_opcode, Hlen. }
  destruct (imm_obj x) as [|n|s] eqn:Himm; cbn [kind_of] in Hkind.
  - (* no immediate *)
    assert (Henc : encoded_length x = 2)
      by (unfold encoded_length, encodeOne; rewrite Himm; reflexivity).
    pose proof (implied_kind_none table (opcode x) (eq_sym Hkind)) as Hnone.
    destruct (CS2OpcodeMappings.getMapping table (opcode x)) as [m|] eqn:Hm.
    + rewrite (readOpcode_plain table st1 (opcode x) m Hread Hm Hnone).
      do 3 eexists. split; [reflexivity|]. cbn [opcode imm imm_obj scan st1].
      rewrite ?Himm, Henc. repeat split.
      intros Hd. eapply (described_eq table x _ (Some m) Hm); cbn; rewrite ?Himm; auto.
    + rewrite (readOpcode_unmapped table st1 (opcode x) Hread Hm).
      do 3 eexists. split; [reflexivity|]. cbn [opcode imm imm_obj scan st1].
      rewrite ?Himm, Henc. repeat split.
      intros Hd. eapply (described_eq table x _ None Hm); cbn; rewrite ?Himm; auto.
  - (* a number *)
    assert (Henc : encoded_length x = 6)
      by (unfold encoded_length, encodeOne; rewrite Himm; reflexivity).
    destruct (implied_kind_number table (opcode x) (eq_sym Hkind))
      as (m & p & rest & Hm & Hp & Hk).
    assert (Hn : Buffer.readInt32BE (buffer st1) (scan st1 + 2) = Ok n).
    { cbn [st1 buffer scan]. unfold encodeOne. rewrite Himm. cbv zeta.
      replace (scan st + 2)
        with (Z.of_nat off
              + Z.of_nat (List.length [opcode x / 256; opcode x mod 256]))
        by (cbn [List.length]; lia).
      rewrite readInt32BE_splice
        by (unfold encodeOne in Hlen; rewrite Himm in Hlen; exact Hlen).
      f_equal. apply (int32_bytes n Hint). }
    rewrite (readOpcode_number table st1 (opcode x) n m p rest Hread Hm Hp Hk Hn).
    do 3 eexists. split; [reflexivity|]. cbn [opcode imm imm_obj scan st1].
    rewrite ?Himm, Henc. cbn [imm_value]. repeat split; [lia|].
    intros Hd. eapply (described_eq table x _ (Some m) Hm); cbn; rewrite ?Himm; auto.
  - (* a string *)
    destruct Hterm as [Hwf Hnz].
    set (enc := Utf8.encode s).
    assert (Henc : encodeOne x
                   = [opcode x / 256; opcode x mod 256] ++ enc ++ [0])
      by (unfold encodeOne; rewrite Himm; reflexivity).
    assert (Hsize : encoded_length x = 2 + Z.of_nat (List.length enc) + 1).
    { unfold encoded_length. rewrite Henc, !length_app. cbn [List.length]. lia. }
    destruct (implied_kind_string table (opcode x) (eq_sym Hkind))
      as (m & rest & Hm & Hp).
    pose proof (utf8_encode_nonzero s Hwf Hnz) as Hbytes.
    assert (Hget : forall k : nat,
      Buffer.get (buffer st1) (scan st + 2 + Z.of_nat k)
      = (enc ++ [0]) !! k \/ (List.length enc < k)%nat).
    { intros k. destruct (le_lt_dec k (List.length enc)); [left | right; lia].
      cbn [st1 buffer]. rewrite Henc.
      replace (scan st + 2 + Z.of_nat k)
        with (Z.of_nat off + Z.of_nat (2 + k)) by lia.
      rewrite Buffer_get_splice.
      - reflexivity.
      - rewrite <- Henc. exact Hlen.
      - rewrite !length_app. cbn [List.length]. lia. }
    assert (Hscan : scan_string (buffer st1) (endoffset st1) (scan st1 + 2)
                    = scan st + 2 + Z.of_nat (List.length enc)).
    { cbn [st1 scan endoffset]. apply scan_string_stop.
      - lia.
      - intros i Hi.
        destruct (Hget (Z.to_nat (i - (scan st + 2)))) as [Hk|Hk]; [|lia].
        replace (scan st + 2 + Z.of_nat (Z.to_nat (i - (scan st + 2))))
          with i in Hk by lia.
        rewrite Hk. rewrite lookup_app_l by lia.
        destruct (enc !! Z.to_nat (i - (scan st + 2))) as [v|] eqn:Hv;
          [|reflexivity].
        apply (proj1 (Forall_lookup _ _) Hbytes) in Hv.
        destruct v; [congruence | reflexivity | reflexivity].
      - right. destruct (Hget (List.length enc)) as [Hk|Hk]; [|lia].
        rewrite Hk. rewrite lookup_app_r by lia.
        replace (List.length enc - List.length enc)%nat with O by lia.
        reflexivity. }
    assert (Htext : Buffer.toString (buffer st1) (scan st + 2)
                      (scan st + 2 + Z.of_nat (List.length enc)) = s).
    { unfold Buffer.toString.
      assert (Hb1 : Buffer.length (buffer st1) = Buffer.length (buffer st))
        by (cbn [st1 buffer]; unfold Buffer.length; rewrite length_splice;
            [reflexivity | exact Hlen]).
      rewrite Hb1, Z.max_r, Z.min_l by lia.
      destruct (Z.leb_spec (scan st + 2 + Z.of_nat (List.length enc))
                  (scan st + 2)) as [Hle|Hgt].
      - destruct enc as [|e0 enc'] eqn:Hempty; [|cbn [List.length] in Hle; lia].
        destruct s as [|c r]; [reflexivity|].
        exfalso. pose proof (utf8_decode_encode _ Hwf) as Hd.
        fold enc in Hd. rewrite Hempty in Hd. discriminate.
      - unfold Buffer.slice. cbn [st1 buffer]. rewrite Henc.
        rewrite (slice_splice _ _ enc [0] off);
          [apply utf8_decode_encode, Hwf | cbn [List.length]; lia | lia |].
        rewrite <- Henc. exact Hlen. }
    rewrite (readOpcode_string table st1 (opcode x) m rest Hread Hm Hp).
    rewrite Hscan. cbn [st1 buffer scan] in *. rewrite Htext.
    do 3 eexists. split; [reflexivity|]. cbn [opcode imm imm_obj scan].
    rewrite ?Himm, Hsize. cbn [imm_value]. repeat split; [lia|].
    intros Hd. eapply (described_eq table x _ (Some m) Hm); cbn; rewrite ?Himm; auto.
Qed.

Lemma writeOpCode_readOpcode_roundtrip_witness :
  roundtrips sample_table
    {| buffer := Buffer.alloc 8; scan := 1; endoffset := 8 |} 8
    (instruction_of push_string (ImmString (lit "hi"))).
Proof.
  apply (writeOpCode_readOpcode_roundtrip sample_table
           {| buffer := Buffer.alloc 8; scan := 1; endoffset := 8 |} 8
           (instruction_of push_string (ImmString (lit "hi")))).
  - vm_compute; easy.
  - split; [reflexivity | exact I].
  - split.
    + vm_compute; easy.
    + repeat constructor; discriminate.
  - vm_compute; easy.
  - vm_compute; easy.
  - vm_compute; easy.
Defined.

(** C1, as stated, fails: a string immediate with U+0000 inside is of the
    implied kind, yet its bytes contain the terminator and decoding stops
    there. *)
Lemma roundtrip_fails_on_embedded_nul :
  let x := instruction_of push_string (ImmString [65; 0; 66]) in
  let st := {| buffer := Buffer.alloc 8; scan := 0; endoffset := 8 |} in
  0 <= opcode x < 65536 /\ kind_matches sample_table x /\
  scan st + encoded_length x <= Buffer.length (buffer st) /\
  ~ roundtrips sample_table st (scan st + encoded_length x) x.
Proof.
  intros x st. subst x st.
  split; [vm_compute; easy|]. split; [split; [reflexivity | exact I]|].
  split; [vm_compute; easy|].
  intros (st' & Hw & r & st'' & log & Hr & _ & Hi & _).
  vm_compute in Hw. injection Hw as <-.
  vm_compute in Hr. injection Hr as <- <- <-.
  discriminate Hi.
Qed.

(* ===================================================================== *)
(** ** The opcode table *)

Section Table.

Import CS2OpcodeMappings.

Implicit Types (T : CS2OpcodeMappings.t) (line : jsstring)
  (lines : list jsstring) (m : CS2OpcodeMapping).

Lemma step_skip T line : parseLine line = None -> step T line = T.
Proof. intros H. unfold step. rewrite H. reflexivity. Qed.

Lemma step_set T line m : parseLine line = Some m -> step T line = set T m.
Proof. intros H. unfold step. rewrite H. reflexivity. Qed.

(** [parseLine] accepts exactly the lines that are neither discarded nor
    malformed. *)
Lemma parseLine_tokens line t0 t1 t2 rest n :
  discarded line = false ->
  tokens line = t0 :: t1 :: t2 :: rest ->
  ParseInt.parseInt t0 = Some n ->
  parseLine line
  = Some {| map_opcode := n; map_name := t1; map_returnType := t2;
            map_paramTypes := rest |}.
Proof.
  unfold discarded, tokens, parseLine. intros Hd Ht Hn.
  rewrite Hd, Ht, Hn. reflexivity.
Qed.

Lemma parseLine_Some line m :
  parseLine line = Some m ->
  discarded line = false /\
  exists t0, tokens line
             = t0 :: map_name m :: map_returnType m :: map_paramTypes m /\
             ParseInt.parseInt t0 = Some (map_opcode m).
Proof.
  unfold discarded, tokens, parseLine.
  destruct (_ || _ || _); [discriminate|].
  destruct (JsString.split_ws _) as [|t0 [|t1 [|t2 rest]]]; try discriminate.
  destruct (ParseInt.parseInt t0) as [n|] eqn:Hn; [|discriminate].
  intros [= <-]. split; [reflexivity|]. exists t0. auto.
Qed.

Lemma discarded_None line : discarded line = true -> parseLine line = None.
Proof. unfold discarded, parseLine. intros ->. reflexivity. Qed.

Lemma malformed_None line : malformed line = true -> parseLine line = None.
Proof.
  unfold malformed. intros H. apply andb_true_iff in H as [_ H].
  destruct (parseLine line) as [m|] eqn:Hm; [|reflexivity].
  apply parseLine_Some in Hm as (_ & t0 & Ht & Hn).
  rewrite Ht in H. cbn [List.length hd] in H. rewrite Hn in H.
  rewrite bool_decide_eq_true_2 in H by eauto. discriminate.
Qed.

Lemma valid_parseLine line : valid line = true <-> is_Some (parseLine line).
Proof.
  unfold valid. split.
  - intros H. apply andb_true_iff in H as [Hd Hm].
    apply negb_true_iff in Hd, Hm.
    unfold malformed in Hm. rewrite Hd in Hm. cbn [negb andb] in Hm.
    apply orb_false_iff in Hm as [Hlen Hint]. apply negb_false_iff in Hint.
    apply bool_decide_eq_true_1 in Hint as [n Hn].
    apply Nat.ltb_ge in Hlen.
    destruct (tokens line) as [|t0 [|t1 [|t2 rest]]] eqn:Ht;
      cbn [List.length] in Hlen; try lia.
    cbn [hd] in Hn. erewrite parseLine_tokens; eauto.
  - intros [m Hm]. destruct (malformed line) eqn:Hmal.
    + rewrite malformed_None in Hm by assumption. discriminate.
    + destruct (discarded line) eqn:Hd; [|reflexivity].
      rewrite discarded_None in Hm by assumption. discriminate.
Qed.

Lemma declared_filter_valid lines :
  declared (filter (fun l => valid l = true) lines) = declared lines.
Proof.
  unfold declared. induction lines as [|l lines IH]; [reflexivity|].
  rewrite filter_cons. destruct (decide (valid l = true)) as [Hv|Hv].
  - cbn [omap list_omap]. rewrite IH. reflexivity.
  - cbn [omap list_omap]. rewrite IH.
    destruct (parseLine l) as [m|] eqn:Hm; [|reflexivity].
    exfalso. apply Hv, valid_parseLine. eauto.
Qed.

Lemma length_declared lines :
  List.length (declared lines)
  = List.length (filter (fun l => valid l = true) lines).
Proof.
  unfold declared. induction lines as [|l lines IH]; [reflexivity|].
  rewrite filter_cons. cbn [omap list_omap]. fold (omap parseLine lines).
  destruct (decide (valid l = true)) as [Hv|Hv].
  - apply valid_parseLine in Hv as [m Hm]. rewrite Hm.
    cbn [List.length]. rewrite IH. reflexivity.
  - destruct (parseLine l) as [m|] eqn:Hm; [|exact IH].
    exfalso. apply Hv, valid_parseLine. eauto.
Qed.

(** The table is built from the declared definitions alone. *)
Lemma foldl_step_declared T lines :
  foldl step T lines = foldl set T (declared lines).
Proof.
  unfold declared. revert T. induction lines as [|l lines IH]; intros T;
    [reflexivity|].
  cbn [foldl omap list_omap]. fold (omap parseLine lines).
  unfold step at 2. destruct (parseLine l) as [m|]; cbn [foldl]; apply IH.
Qed.

Lemma mappings_kept T (ms : list CS2OpcodeMapping) (op : Z) :
  (forall m, m ∈ ms -> map_opcode m <> op) ->
  mappings (foldl set T ms) !! op = mappings T !! op.
Proof.
  revert T. induction ms as [|m ms IH]; intros T H; [reflexivity|].
  cbn [foldl]. rewrite IH by (intros m' Hm'; apply H; right; exact Hm').
  cbn [set mappings]. apply lookup_insert_ne. apply H. left.
Qed.

Lemma names_kept T (ms : list CS2OpcodeMapping) (nm : jsstring) :
  (forall m, m ∈ ms -> map_name m <> nm) ->
  nameToOpcode (foldl set T ms) !! nm = nameToOpcode T !! nm.
Proof.
  revert T. induction ms as [|m ms IH]; intros T H; [reflexivity|].
  cbn [foldl]. rewrite IH by (intros m' Hm'; apply H; right; exact Hm').
  cbn [set nameToOpcode]. apply lookup_insert_ne. apply H. left.
Qed.

Lemma dom_mappings_foldl T (ms : list CS2OpcodeMapping) :
  dom (mappings (foldl set T ms))
  = dom (mappings T) ∪ list_to_set (map_opcode <$> ms).
Proof.
  revert T. induction ms as [|m ms IH]; intros T.
  - cbn [foldl fmap list_fmap list_to_set]. rewrite union_empty_r_L.
    reflexivity.
  - cbn [foldl]. rewrite IH. cbn [set mappings].
    rewrite dom_insert_L, fmap_cons, list_to_set_cons.
    rewrite (union_comm_L {[map_opcode m]} (dom (mappings T))).
    rewrite union_assoc_L. reflexivity.
Qed.

Lemma size_list_to_set_dups (l : list Z) :
  size (list_to_set l : gset Z) = List.length (remove_dups l).
Proof.
  rewrite <- (size_list_to_set (C := gset Z) (remove_dups l))
    by apply NoDup_remove_dups.
  f_equal. apply set_eq. intros x.
  rewrite !elem_of_list_to_set, elem_of_remove_dups. reflexivity.
Qed.

Lemma size_parseLines lines :
  size (mappings (parseLines lines))
  = List.length (remove_dups (declared_opcodes lines)).
Proof.
  unfold parseLines, declared_opcodes.
  rewrite foldl_step_declared, <- size_dom, dom_mappings_foldl.
  cbn [empty mappings]. rewrite dom_empty_L, union_empty_l_L.
  apply size_list_to_set_dups.
Qed.

Lemma length_remove_dups_le (l : list Z) :
  (List.length (remove_dups l) <= List.length l)%nat.
Proof.
  induction l as [|x l IH]; [reflexivity|].
  cbn [remove_dups]. destruct (decide_rel _ x l); cbn [List.length]; lia.
Qed.

Lemma remove_dups_NoDup (l : list Z) : NoDup l -> remove_dups l = l.
Proof.
  induction 1 as [|x l Hx Hl IH]; [reflexivity|].
  cbn [remove_dups]. destruct (decide_rel _ x l); [contradiction|].
  rewrite IH. reflexivity.
Qed.

End Table.

(* ===================================================================== *)
(** ** Lines as the definition file writes them *)

Section Words.

Implicit Types (t w : jsstring) (ts : list jsstring).

Lemma split_ws_from_nonempty (b : bool) (s : jsstring) :
  JsString.split_ws_from b s <> [].
Proof.
  revert b. induction s as [|c r IH]; intros b; cbn [JsString.split_ws_from].
  - discriminate.
  - destruct (is_whitespace c).
    + destruct b; [apply IH | discriminate].
    + destruct (JsString.split_ws_from false r); discriminate.
Qed.

(** The white-space flag does not matter in front of a token. *)
Lemma split_ws_from_token (b : bool) w (rest : jsstring) :
  token w ->
  JsString.split_ws_from b (w ++ rest) = JsString.split_ws_from false (w ++ rest).
Proof.
  intros [Hne Hw]. destruct w as [|c w]; [congruence|].
  apply Forall_cons in Hw as [Hc _].
  cbn [app JsString.split_ws_from]. rewrite Hc. reflexivity.
Qed.

(** A run of non-white-space code units joins the piece that follows. *)
Lemma split_ws_from_run w (rest : jsstring) :
  Forall (fun c => is_whitespace c = false) w ->
  JsString.split_ws_from false (w ++ rest)
  = match JsString.split_ws_from false rest with
    | cur :: more => (w ++ cur) :: more
    | [] => [w]
    end.
Proof.
  induction 1 as [|c w Hc Hw IH]; cbn [app].
  - destruct (JsString.split_ws_from false rest) eqn:Hrest; [|reflexivity].
    exfalso. exact (split_ws_from_nonempty _ _ Hrest).
  - cbn [JsString.split_ws_from]. rewrite Hc, IH.
    destruct (JsString.split_ws_from false rest) eqn:Hrest; [|reflexivity].
    exfalso. exact (split_ws_from_nonempty _ _ Hrest).
Qed.

Lemma split_ws_unwords w ts :
  token w -> Forall token ts ->
  JsString.split_ws (unwords w ts) = w :: ts.
Proof.
  unfold JsString.split_ws, unwords. intros Hw Hts. revert w Hw.
  induction Hts as [|p ps Hp Hps IH]; intros w [Hne Hw].
  - cbn [map concat]. rewrite split_ws_from_run by exact Hw.
    cbn [JsString.split_ws_from]. rewrite app_nil_r. reflexivity.
  - cbn [map concat]. rewrite split_ws_from_run by exact Hw.
    cbn [app JsString.split_ws_from].
    change (is_whitespace 32) with true. cbn iota.
    rewrite split_ws_from_token by exact Hp.
    rewrite IH by exact Hp. rewrite app_nil_r. reflexivity.
Qed.

Lemma trimStart_token_head (c : Z) (s : jsstring) :
  is_whitespace c = false -> JsString.trimStart (c :: s) = c :: s.
Proof. intros Hc. cbn [JsString.trimStart]. rewrite Hc. reflexivity. Qed.

(** Some code unit of the line comes last, and it is no white space. *)
Lemma unwords_last w ts :
  token w -> Forall token ts ->
  exists c s, rev (unwords w ts) = c :: s /\ is_whitespace c = false.
Proof.
  unfold unwords. intros Hw Hts. revert w Hw.
  induction Hts as [|p ps Hp Hps IH]; intros w [Hne Hw].
  - cbn [map concat]. rewrite app_nil_r.
    destruct (rev w) as [|c s] eqn:Hrev.
    + apply (f_equal (@rev Z)) in Hrev. rewrite rev_involutive in Hrev.
      contradiction.
    + exists c, s. split; [reflexivity|].
      apply Forall_rev in Hw. rewrite Hrev in Hw.
      apply Forall_cons in Hw as [Hc _]. exact Hc.
  - destruct (IH p Hp) as (c & s & Hrev & Hc).
    exists c, (s ++ 32 :: rev w). split; [|exact Hc].
    change (concat (map (cons 32) (p :: ps)))
      with (32 :: (p ++ concat (map (cons 32) ps))).
    rewrite rev_app_distr. cbn [rev]. rewrite Hrev. cbn [app].
    rewrite <- app_assoc. reflexivity.
Qed.

Lemma trim_unwords w ts :
  token w -> Forall token ts ->
  JsString.trim (unwords w ts) = unwords w ts.
Proof.
  intros Hw Hts. unfold JsString.trim, JsString.trimEnd.
  assert (Hstart : JsString.trimStart (unwords w ts) = unwords w ts).
  { destruct Hw as [Hne Hw]. unfold unwords.
    destruct w as [|c w]; [congruence|].
    apply Forall_cons in Hw as [Hc _].
    cbn [app]. apply trimStart_token_head, Hc. }
  rewrite Hstart.
  destruct (unwords_last w ts Hw Hts) as (c & s & Hrev & Hc).
  rewrite Hrev, trimStart_token_head by exact Hc.
  rewrite <- Hrev. apply rev_involutive.
Qed.

Lemma numeral_token t : numeral t -> token t.
Proof.
  intros [Hne Hd]. split; [exact Hne|].
  eapply Forall_impl; [exact Hd|]. cbn beta. intros c Hc.
  unfold is_whitespace.
  repeat match goal with
  | |- context [?a <=? ?b] =>
    first [ rewrite (proj2 (Z.leb_le a b)) by lia
          | rewrite (proj2 (Z.leb_gt a b)) by lia ]
  | |- context [?a =? ?b] => rewrite (proj2 (Z.eqb_neq a b)) by lia
  end.
  reflexivity.
Qed.

Lemma digits_numeral (t : jsstring) (seen : bool) (acc : Z) :
  Forall (fun c => 48 <= c <= 57) t -> t <> [] \/ seen = true ->
  ParseInt.digits 10 t seen acc
  = Some (foldl (fun a c => a * 10 + (c - 48)) acc t).
Proof.
  intros Hd. revert seen acc. induction Hd as [|c t Hc Ht IH]; intros seen acc Hs.
  - destruct Hs as [Hne | ->]; [congruence | reflexivity].
  - cbn [ParseInt.digits foldl]. unfold ParseInt.radix_digit, ParseInt.digit_value.
    rewrite (proj2 (Z.leb_le 48 c)), (proj2 (Z.leb_le c 57)) by lia.
    cbn [andb]. rewrite (proj2 (Z.ltb_lt (c - 48) 10)) by lia.
    apply IH. right. reflexivity.
Qed.

(** [parseInt] reads a decimal numeral as its value. *)
Lemma parseInt_numeral t :
  numeral t -> ParseInt.parseInt t = Some (numeral_value t).
Proof.
  intros Hn. pose proof (numeral_token t Hn) as [_ Hw].
  destruct Hn as [Hne Hd]. unfold ParseInt.parseInt, numeral_value.
  destruct t as [|c t]; [congruence|].
  pose proof Hd as Hd'. apply Forall_cons in Hd' as [Hc Ht].
  apply Forall_cons in Hw as [Hcw _].
  rewrite trimStart_token_head by exact Hcw.
  assert (Hsign : ParseInt.strip_sign (c :: t) = (1, c :: t)).
  { unfold ParseInt.strip_sign.
    destruct c as [|p|p]; try lia.
    repeat (destruct p as [p|p|]; try lia; try reflexivity). }
  rewrite Hsign.
  assert (Hhex : ParseInt.strip_hex (c :: t) = (10, c :: t)).
  { unfold ParseInt.strip_hex.
    destruct t as [|d t]; [destruct c as [|p|p]; try lia;
      repeat (destruct p as [p|p|]; try lia; try reflexivity)|].
    apply Forall_cons in Ht as [Hdd _].
    destruct c as [|p|p]; try lia.
    repeat (destruct p as [p|p|]; try lia; try reflexivity);
    destruct d as [|q|q]; try lia;
    repeat (destruct q as [q|q|]; try lia; try reflexivity). }
  rewrite Hhex.
  rewrite digits_numeral by (exact Hd || (left; discriminate)).
  f_equal. lia.
Qed.

(** A line written as a decimal opcode, a name, a return type and
    parameter types, separated by single spaces, is not discarded and
    parses into exactly these parts. *)
Lemma parseLine_unwords (op name returnType : jsstring)
    (paramTypes : list jsstring) :
  numeral op -> token name -> token returnType -> Forall token paramTypes ->
  CS2OpcodeMappings.parseLine (unwords op (name :: returnType :: paramTypes))
  = Some {| map_opcode := numeral_value op; map_name := name;
            map_returnType := returnType; map_paramTypes := paramTypes |}.
Proof.
  intros Hop Hname Hret Hparams.
  pose proof (numeral_token op Hop) as Htok.
  assert (Hall : Forall token (name :: returnType :: paramTypes))
    by (apply Forall_cons; split; [exact Hname|];
        apply Forall_cons; split; [exact Hret | exact Hparams]).
  apply (parseLine_tokens _ op).
  - unfold discarded. rewrite trim_unwords by assumption.
    destruct Hop as [Hne Hd]. unfold unwords.
    destruct op as [|c op]; [congruence|].
    apply Forall_cons in Hd as [Hc _]. cbn [app].
    rewrite eqb_false by discriminate.
    cbn [lit list_ascii_of_string String.length map JsString.startsWith].
    change (Z.of_N (N_of_ascii "#")) with 35.
    change (Z.of_N (N_of_ascii "/")) with 47.
    rewrite !(proj2 (Z.eqb_neq c _)) by lia. reflexivity.
  - unfold tokens. rewrite trim_unwords by assumption.
    apply split_ws_unwords; assumption.
  - apply parseInt_numeral, Hop.
Qed.

End Words.

(** *** Lookups after parsing *)

Import CS2OpcodeMappings.

(** C6. After parsing, a well-formed line [<opcode> <name> <returnType>
    <paramType>...] is found again under its opcode unless a later
    well-formed line declares that opcode, and under its name unless a later
    well-formed line declares that name: in both maps the last declaration
    wins. *)
Theorem parseFromString_lookup (content : jsstring) (before after : list jsstring)
    (line t0 name returnType : jsstring) (paramTypes : list jsstring)
    (opcode : Z) :
  JsString.split_on 10 content = before ++ line :: after ->
  discarded line = false ->
  tokens line = t0 :: name :: returnType :: paramTypes ->
  ParseInt.parseInt t0 = Some opcode ->
  let table := (parseFromString content).1 in
  ((forall m, m ∈ declared after -> map_opcode m <> opcode) ->
   getMapping table opcode
   = Some {| map_opcode := opcode; map_name := name;
             map_returnType := returnType; map_paramTypes := paramTypes |})
  /\
  ((forall m, m ∈ declared after -> map_name m <> name) ->
   getOpcodeByName table name = Some opcode).
Proof.
  intros Hsplit Hd Ht Hn table. subst table.
  unfold parseFromString, parseLines. cbn [fst]. rewrite Hsplit.
  rewrite foldl_app. cbn [foldl].
  rewrite (step_set _ line _ (parseLine_tokens line t0 name returnType
                                paramTypes opcode Hd Ht Hn)).
  rewrite foldl_step_declared.
  unfold getMapping, getOpcodeByName. split; intros Hlast.
  - rewrite mappings_kept by exact Hlast.
    cbn [set mappings map_opcode]. apply lookup_insert_eq.
  - rewrite names_kept by exact Hlast.
    cbn [set nameToOpcode map_name map_opcode]. apply lookup_insert_eq.
Qed.

Lemma parseFromString_lookup_witness :
  let content := lit ("# opcodes" ++ newline ++ "7 push_int void int"
                      ++ newline ++ "8 pop void")%string in
  let table := (parseFromString content).1 in
  getMapping table 7
  = Some {| map_opcode := 7; map_name := lit "push_int";
            map_returnType := lit "void"; map_paramTypes := [lit "int"] |}
  /\ getOpcodeByName table (lit "push_int") = Some 7.
Proof.
  intros content table.
  destruct (parseFromString_lookup content [lit "# opcodes"]
              [lit "8 pop void"] (lit "7 push_int void int") (lit "7")
              (lit "push_int") (lit "void") [lit "int"] 7)
    as [Hop Hname]; try reflexivity.
  split; [apply Hop | apply Hname]; intros m Hm;
    apply list_elem_of_singleton in Hm; subst m; discriminate.
Defined.

(** C6, as stated, fails: a well-formed line whose name a later line
    declares again, under another opcode, is no longer found by name. *)
Lemma lookup_by_name_overwritten :
  let content := lit ("1 foo void" ++ newline ++ "2 foo void")%string in
  let table := (parseFromString content).1 in
  exists line,
    line ∈ JsString.split_on 10 content /\
    parseLine line
    = Some {| map_opcode := 1; map_name := lit "foo";
              map_returnType := lit "void"; map_paramTypes := [] |} /\
    getOpcodeByName table (lit "foo") <> Some 1.
Proof.
  intros content table. exists (lit "1 foo void").
  split; [left|]. split; [reflexivity|].
  vm_compute. discriminate.
Qed.

(** *** Malformed lines and the size of the table *)

(** C7. Blank, comment and malformed lines add nothing to the table and do
    not stop the parse: the table is the one the valid lines alone give.
    Its size is the number of distinct opcodes the valid lines declare; it
    never exceeds the number of valid lines and equals it when no opcode is
    declared twice. *)
Theorem parseFromString_valid_lines_only (content : jsstring) :
  let lines := JsString.split_on 10 content in
  let table := (parseFromString content).1 in
  (forall before line after,
     lines = before ++ line :: after -> malformed line = true ->
     table = parseLines (before ++ after))
  /\ table = parseLines (filter (fun l => valid l = true) lines)
  /\ size (mappings table) = List.length (remove_dups (declared_opcodes lines))
  /\ (size (mappings table)
      <= List.length (filter (fun l => valid l = true) lines))%nat
  /\ (NoDup (declared_opcodes lines) ->
      size (mappings table)
      = List.length (filter (fun l => valid l = true) lines)).
Proof.
  intros lines table. subst table. unfold parseFromString. cbn [fst].
  fold lines. repeat split.
  - intros before line after Hsplit Hmal. rewrite Hsplit.
    unfold parseLines. rewrite !foldl_app. cbn [foldl].
    rewrite step_skip by (apply malformed_None, Hmal). reflexivity.
  - unfold parseLines. rewrite !foldl_step_declared, declared_filter_valid.
    reflexivity.
  - apply size_parseLines.
  - rewrite size_parseLines, <- length_declared.
    etransitivity; [apply length_remove_dups_le|].
    unfold declared_opcodes. rewrite length_fmap. reflexivity.
  - intros Hnd. rewrite size_parseLines, <- length_declared.
    rewrite remove_dups_NoDup by exact Hnd.
    unfold declared_opcodes. apply length_fmap.
Qed.

(** C7, as stated, fails: two valid lines that declare the same opcode
    leave one entry. *)
Lemma size_below_valid_line_count :
  let content := lit ("1 foo void" ++ newline ++ "1 bar void")%string in
  let lines := JsString.split_on 10 content in
  let table := (parseFromString content).1 in
  List.length (filter (fun l => valid l = true) lines) = 2%nat /\
  size (mappings table) = 1%nat /\
  size (mappings table) <> List.length (filter (fun l => valid l = true) lines).
Proof.
  intros content lines table. split; [reflexivity|]. split; [reflexivity|].
  vm_compute. discriminate.
Qed.

(* ===================================================================== *)
(** ** The record store *)

Section Store.

Import LegacyFileSource.

Lemma byte_at_byte (b : Buffer.t) (i : Z) :
  Forall byte b -> 0 <= Buffer.byte_at b i < 256.
Proof.
  intros Hb. unfold Buffer.byte_at, Buffer.get.
  destruct (i <? 0); [cbn; lia|].
  destruct (b !! Z.to_nat i) as [v|] eqn:Hv; [|cbn; lia].
  apply (proj1 (Forall_lookup _ _) Hb) in Hv. exact Hv.
Qed.

Lemma uint24_at_bounds (b : Buffer.t) (offset : Z) :
  Forall byte b -> 0 <= uint24_at b offset < 16777216.
Proof.
  intros Hb. unfold uint24_at.
  pose proof (byte_at_byte b offset Hb).
  pose proof (byte_at_byte b (offset + 1) Hb).
  pose proof (byte_at_byte b (offset + 2) Hb). lia.
Qed.

Lemma readUIntBE_3 (b : Buffer.t) (offset : Z) :
  0 <= offset -> offset + 3 <= Buffer.length b ->
  Buffer.readUIntBE b offset 3 = Ok (uint24_at b offset).
Proof.
  intros H1 H2. unfold Buffer.readUIntBE, Buffer.readUInt24BE. cbn [Z.eqb Pos.eqb].
  unfold Buffer.in_bounds.
  rewrite (proj2 (Z.leb_le 0 offset)), (proj2 (Z.leb_le (offset + 3) _)) by lia.
  reflexivity.
Qed.

(** Reading [length] bytes that the file has gives exactly those bytes. *)
Lemma Fs_read_full (file : list Z) (length position : Z) :
  0 <= position -> 0 <= length -> position + length <= Buffer.length file ->
  Fs.read file (Buffer.alloc length) length position
  = (length, Buffer.slice file position (position + length)).
Proof.
  intros Hp Hl Hfit. unfold Fs.read, Buffer.slice, Buffer.alloc, Buffer.length in *.
  replace (position + length - position) with length by lia.
  set (data := take (Z.to_nat length) (drop (Z.to_nat position) file)).
  assert (Hlen : List.length data = Z.to_nat length)
    by (unfold data; rewrite length_take, length_drop; lia).
  rewrite Hlen. f_equal; [lia|].
  rewrite drop_ge by (rewrite repeat_length; lia).
  apply app_nil_r.
Qed.

Variables (disk : gmap (list Z) (list Z)) (this : LegacyFileSource.t).
Variables (major : Z) (indexPath : jsstring) (indexBuffer : Buffer.t).
Hypothesis registered : indexFiles this !! major = Some indexPath.
Hypothesis on_disk : disk !! indexPath = Some indexBuffer.

Lemma getFile_found (minor : Z) (dat : list Z) :
  disk !! datFile this = Some dat ->
  Forall byte indexBuffer ->
  0 <= minor -> minor * 6 + 6 <= Buffer.length indexBuffer ->
  0 < uint24_at indexBuffer (minor * 6) ->
  uint24_at indexBuffer (minor * 6 + 3) + uint24_at indexBuffer (minor * 6)
    <= Buffer.length dat ->
  getFile disk this major minor
  = Ok (Buffer.slice dat (uint24_at indexBuffer (minor * 6 + 3))
          (uint24_at indexBuffer (minor * 6 + 3)
           + uint24_at indexBuffer (minor * 6))).
Proof.
  intros Hdat Hbytes Hminor Hin Hsize Hfit.
  pose proof (uint24_at_bounds indexBuffer (minor * 6 + 3) Hbytes) as Hoff.
  unfold getFile, getFile_try, indexEntrySize, Fs.open, Fs.readFile.
  rewrite registered, on_disk. cbn [lift_fs rbind].
  rewrite (proj2 (Z.ltb_ge _ _)) by lia.
  rewrite !readUIntBE_3 by lia. cbn [lift_buffer rbind].
  rewrite (proj2 (Z.eqb_neq _ 0)) by lia.
  rewrite Hdat. cbn [lift_fs rbind].
  rewrite Fs_read_full by lia.
  rewrite Z.eqb_refl. reflexivity.
Qed.

Lemma getFile_past_end (minor : Z) :
  Buffer.length indexBuffer < minor * 6 + 6 ->
  getFile disk this major minor
  = Err (FailedToReadFile major minor (NotFoundInIndex major minor)).
Proof.
  intros H. unfold getFile, getFile_try, indexEntrySize, Fs.readFile.
  rewrite registered, on_disk. cbn [lift_fs rbind].
  rewrite (proj2 (Z.ltb_lt _ _)) by lia. reflexivity.
Qed.

Lemma getFile_zero_size (minor : Z) :
  0 <= minor -> minor * 6 + 6 <= Buffer.length indexBuffer ->
  uint24_at indexBuffer (minor * 6) = 0 ->
  getFile disk this major minor
  = Err (FailedToReadFile major minor (HasZeroSize major minor)).
Proof.
  intros Hminor Hin Hzero.
  unfold getFile, getFile_try, indexEntrySize, Fs.readFile.
  rewrite registered, on_disk. cbn [lift_fs rbind].
  rewrite (proj2 (Z.ltb_ge _ _)) by lia.
  rewrite !readUIntBE_3 by lia. cbn [lift_buffer rbind].
  rewrite Hzero. reflexivity.
Qed.

End Store.

Section Sparse.

Context {A : Type}.
Implicit Types (a : SparseArray.t A) (i k : nat) (v : A).

Lemma SparseArray_get_past a i :
  (List.length a <= i)%nat -> SparseArray.get a i = None.
Proof.
  intros H. unfold SparseArray.get.
  rewrite (proj2 (lookup_ge_None a i)) by exact H. reflexivity.
Qed.

Lemma SparseArray_get_set a k v i :
  SparseArray.get (SparseArray.set a k v) i
  = if decide (i = k) then Some v else SparseArray.get a i.
Proof.
  unfold SparseArray.get, SparseArray.set.
  destruct (Nat.ltb_spec k (List.length a)) as [Hk|Hk].
  - rewrite list_lookup_insert.
    destruct (decide (i = k)) as [->|Hne].
    + rewrite decide_True by auto. reflexivity.
    + rewrite decide_False by (intros [? _]; congruence). reflexivity.
  - destruct (decide (i = k)) as [->|Hne].
    + rewrite lookup_app_r by lia.
      rewrite lookup_app_r by (rewrite repeat_length; lia).
      rewrite repeat_length.
      replace (k - List.length a - (k - List.length a))%nat with O by lia.
      reflexivity.
    + destruct (le_lt_dec (List.length a) i) as [Hi|Hi].
      * rewrite (proj2 (lookup_ge_None a i)) by exact Hi.
        rewrite lookup_app_r by lia.
        destruct (le_lt_dec (k - List.length a) (i - List.length a)) as [Hj|Hj].
        -- rewrite lookup_app_r by (rewrite repeat_length; lia).
           rewrite repeat_length.
           rewrite (proj2 (lookup_ge_None _ _)) by (cbn [List.length]; lia).
           reflexivity.
        -- rewrite lookup_app_l by (rewrite repeat_length; lia).
           destruct (repeat None (k - List.length a) !! (i - List.length a)%nat)
             as [o|] eqn:Ho; [|reflexivity].
           apply list_elem_of_lookup_2, list_elem_of_In, repeat_spec in Ho.
           subst o. reflexivity.
      * rewrite lookup_app_l by exact Hi. reflexivity.
Qed.

Lemma SparseArray_length_set a k v :
  (List.length a <= k)%nat ->
  List.length (SparseArray.set a k v) = S k.
Proof.
  intros H. unfold SparseArray.set.
  destruct (Nat.ltb_spec k (List.length a)); [lia|].
  rewrite !length_app, repeat_length. cbn [List.length]. lia.
Qed.

End Sparse.

Section IndexLoop.

Import LegacyFileSource.

Variables (indexBuffer : Buffer.t) (major : Z).

(** Invariant of the loop: after the slots below [k], the array holds
    exactly their listed entries and is no longer than [k]. *)
Lemma index_loop_spec (count k : nat) (indices : SparseArray.t CacheIndex.t) :
  Z.of_nat (k + count) * 6 <= Buffer.length indexBuffer ->
  (List.length indices <= k)%nat ->
  (forall i, SparseArray.get indices i = listed indexBuffer major k i) ->
  exists out,
    index_loop count indexBuffer major (Z.of_nat k) indices = Ok out /\
    (List.length out <= k + count)%nat /\
    forall i, SparseArray.get out i = listed indexBuffer major (k + count) i.
Proof.
  revert k indices. induction count as [|count IH]; intros k indices Hfit Hlen Hinv.
  - exists indices. rewrite Nat.add_0_r. auto.
  - cbn [index_loop]. unfold indexEntrySize.
    rewrite readUIntBE_3 by lia. cbn [lift_buffer rbind].
    replace (Z.of_nat k + 1) with (Z.of_nat (S k)) by lia.
    replace (k + S count)%nat with (S k + count)%nat by lia.
    apply IH.
    + replace (S k + count)%nat with (k + S count)%nat by lia. exact Hfit.
    + destruct (0 <? uint24_at indexBuffer (Z.of_nat k * 6)).
      * rewrite Nat2Z.id, SparseArray_length_set by exact Hlen. lia.
      * lia.
    + intros i. unfold listed.
      destruct (0 <? uint24_at indexBuffer (Z.of_nat k * 6)) eqn:Hsz.
      * rewrite Nat2Z.id, SparseArray_get_set.
        destruct (decide (i = k)) as [->|Hne].
        -- rewrite (proj2 (Nat.ltb_lt k (S k))) by lia. rewrite Hsz.
           reflexivity.
        -- rewrite Hinv. unfold listed.
           destruct (Nat.ltb_spec i k), (Nat.ltb_spec i (S k));
             try lia; reflexivity.
      * rewrite Hinv. unfold listed.
        destruct (Nat.ltb_spec i k), (Nat.ltb_spec i (S k)); try lia;
          try reflexivity.
        assert (i = k) as -> by lia. rewrite Hsz. reflexivity.
Qed.

End IndexLoop.

(* ===================================================================== *)
(** ** Properties of the record store *)

Import LegacyFileSource.

(** C2. For a registered category and an index entry with stored size
    [S > 0] and offset [O], where the blob has [S] bytes from [O] on,
    [getFile] returns exactly [S] bytes: the blob's bytes in [O, O+S). *)
Theorem getFile_returns_blob_range (disk : gmap (list Z) (list Z))
    (this : LegacyFileSource.t) (major minor : Z) (indexPath : jsstring)
    (indexBuffer dat : list Z) :
  indexFiles this !! major = Some indexPath ->
  disk !! indexPath = Some indexBuffer ->
  disk !! datFile this = Some dat ->
  Forall byte indexBuffer ->
  0 <= minor -> minor * 6 + 6 <= Buffer.length indexBuffer ->
  let S := uint24_at indexBuffer (minor * 6) in
  let O := uint24_at indexBuffer (minor * 6 + 3) in
  0 < S -> O + S <= Buffer.length dat ->
  exists bytes,
    getFile disk this major minor = Ok bytes /\
    Buffer.length bytes = S /\
    forall i, 0 <= i < S -> Buffer.get bytes i = Buffer.get dat (O + i).
Proof.
  intros Hreg Hidx Hdat Hbytes Hminor Hin S O HS Hfit.
  pose proof (uint24_at_bounds indexBuffer (minor * 6 + 3) Hbytes) as HO.
  fold O in HO.
  exists (Buffer.slice dat O (O + S)). split; [|split].
  - apply (getFile_found disk this major indexPath indexBuffer); assumption.
  - unfold Buffer.slice, Buffer.length in *.
    rewrite length_take, length_drop. lia.
  - intros i Hi. unfold Buffer.get, Buffer.slice.
    rewrite (proj2 (Z.ltb_ge i 0)), (proj2 (Z.ltb_ge (O + i) 0)) by lia.
    rewrite lookup_take_lt by lia. rewrite lookup_drop. f_equal. lia.
Qed.

Lemma getFile_returns_blob_range_witness :
  exists bytes,
    getFile sample_disk sample_store 2 1 = Ok bytes /\
    Buffer.length bytes = 3 /\
    forall i, 0 <= i < 3 -> Buffer.get bytes i = Buffer.get sample_blob (2 + i).
Proof.
  apply (getFile_returns_blob_range sample_disk sample_store 2 1
           (lit "cache/main_file_cache.idx2") sample_index sample_blob).
  - reflexivity.
  - reflexivity.
  - reflexivity.
  - repeat constructor; vm_compute; easy.
  - lia.
  - vm_compute; easy.
  - vm_compute; easy.
  - vm_compute; easy.
Defined.

(** C4. For a registered category, [getFile] fails with a RecordNotFound
    error, and so returns no bytes, when the 6-byte entry of the record
    would extend past the end of the index file, and when the entry is
    there but its stored size is 0. *)
Theorem getFile_record_not_found (disk : gmap (list Z) (list Z))
    (this : LegacyFileSource.t) (major minor : Z) (indexPath : jsstring)
    (indexBuffer : list Z) :
  indexFiles this !! major = Some indexPath ->
  disk !! indexPath = Some indexBuffer ->
  Buffer.length indexBuffer < minor * 6 + 6
  \/ (0 <= minor /\ minor * 6 + 6 <= Buffer.length indexBuffer
      /\ uint24_at indexBuffer (minor * 6) = 0) ->
  exists e, getFile disk this major minor = Err e /\ RecordNotFound e.
Proof.
  intros Hreg Hidx [Hpast | (Hminor & Hin & Hzero)].
  - exists (FailedToReadFile major minor (NotFoundInIndex major minor)).
    split; [|exact I].
    apply (getFile_past_end disk this major indexPath indexBuffer); assumption.
  - exists (FailedToReadFile major minor (HasZeroSize major minor)).
    split; [|exact I].
    apply (getFile_zero_size disk this major indexPath indexBuffer); assumption.
Qed.

Lemma getFile_record_not_found_witness :
  (exists e, getFile sample_disk sample_store 2 4 = Err e /\ RecordNotFound e)
  /\ (exists e, getFile sample_disk sample_store 2 3 = Err e /\ RecordNotFound e).
Proof.
  split.
  - apply (getFile_record_not_found sample_disk sample_store 2 4
             (lit "cache/main_file_cache.idx2") sample_index);
      [reflexivity | reflexivity | left; vm_compute; easy].
  - apply (getFile_record_not_found sample_disk sample_store 2 3
             (lit "cache/main_file_cache.idx2") sample_index);
      [reflexivity | reflexivity | right; vm_compute; easy].
Defined.

(** C3. For a registered category whose index file has length [L],
    [getCacheIndex] goes through the [floor(L/6)] record ids
    [0 .. floor(L/6) - 1], reads the 3-byte big-endian size at [6 * id], and
    returns an array that holds an entry exactly at the ids whose size is
    strictly positive; every other id is a hole or past the end. *)
Theorem getCacheIndex_lists_positive_sizes (disk : gmap (list Z) (list Z))
    (this : LegacyFileSource.t) (major : Z) (indexPath : jsstring)
    (indexBuffer : list Z) :
  indexFiles this !! major = Some indexPath ->
  disk !! indexPath = Some indexBuffer ->
  exists indices,
    getCacheIndex disk this major = Ok indices /\
    Z.of_nat (List.length indices) <= Buffer.length indexBuffer / 6 /\
    forall minor : nat,
      SparseArray.get indices minor
      = if (Z.of_nat minor <? Buffer.length indexBuffer / 6)
           && (0 <? uint24_at indexBuffer (Z.of_nat minor * 6))
        then Some (entry major (Z.of_nat minor)
                     (uint24_at indexBuffer (Z.of_nat minor * 6)))
        else None.
Proof.
  intros Hreg Hidx.
  unfold getCacheIndex, getCacheIndex_try, indexEntrySize, Fs.readFile.
  rewrite Hreg, Hidx. cbn [lift_fs rbind].
  set (L := Buffer.length indexBuffer).
  assert (HL : 0 <= L) by (unfold L, Buffer.length; lia).
  assert (Hq : 0 <= L / 6) by (apply Z.div_pos; lia).
  destruct (index_loop_spec indexBuffer major (Z.to_nat (L / 6)) 0 [])
    as (out & Hout & Hlen & Hget).
  - fold L. pose proof (Z.mul_div_le L 6). lia.
  - cbn. lia.
  - intros i. unfold listed. cbn. destruct i; reflexivity.
  - change (Z.of_nat 0) with 0 in Hout. rewrite Hout. exists out. split; [reflexivity|].
    split; [lia|].
    intros minor. rewrite Hget. unfold listed. cbn [Nat.add].
    destruct (Nat.ltb_spec minor (Z.to_nat (L / 6))),
      (Z.ltb_spec (Z.of_nat minor) (L / 6)); try lia; reflexivity.
Qed.

Lemma getCacheIndex_lists_positive_sizes_witness :
  exists indices,
    getCacheIndex sample_disk sample_store 2 = Ok indices /\
    Z.of_nat (List.length indices) <= Buffer.length sample_index / 6 /\
    forall minor : nat,
      SparseArray.get indices minor
      = if (Z.of_nat minor <? Buffer.length sample_index / 6)
           && (0 <? uint24_at sample_index (Z.of_nat minor * 6))
        then Some (entry 2 (Z.of_nat minor)
                     (uint24_at sample_index (Z.of_nat minor * 6)))
        else None.
Proof.
  apply (getCacheIndex_lists_positive_sizes sample_disk sample_store 2
           (lit "cache/main_file_cache.idx2") sample_index); reflexivity.
Defined.

(** The listing of the sample index: a hole at id 0, whose size is 0, then
    the entries of ids 1 and 2; id 3 has size 0 and the trailing byte is no
    slot, so the array ends after id 2. *)
Example getCacheIndex_sample :
  getCacheIndex sample_disk sample_store 2
  = Ok [None; Some (entry 2 1 3); Some (entry 2 2 1)].
Proof. vm_compute. reflexivity. Qed.

(* ===================================================================== *)
(** ** The format detector *)

Section Detector.

Import Autocache.

Lemma incr_count (b : bool) (n : Z) : incr b n = n + (if b then 1 else 0).
Proof. destruct b; cbn; lia. Qed.

Lemma length_filter_cons (p : jsstring -> bool) (f : jsstring)
    (files : list jsstring) :
  Z.of_nat (List.length (filter (fun x => p x = true) (f :: files)))
  = (if p f then 1 else 0)
    + Z.of_nat (List.length (filter (fun x => p x = true) files)).
Proof.
  rewrite filter_cons. destruct (p f).
  - rewrite decide_True by reflexivity. cbn [List.length]. lia.
  - rewrite decide_False by discriminate. lia.
Qed.

(** Each count is the number of listed names with its signature. *)
Lemma count_from (c : Counts) (files : list jsstring) :
  let n p := Z.of_nat (List.length (filter (fun f => p f = true) files)) in
  let c' := foldl count_file c files in
  jcachecount c' = jcachecount c + n (has_ext "jcache") /\
  datcount c' = datcount c + n (has_ext "dat") /\
  dat2count c' = dat2count c + n (has_ext "dat2") /\
  jagcount c' = jagcount c + n (has_ext "jag") /\
  idxcount c' = idxcount c + n match_idx.
Proof.
  revert c. induction files as [|f files IH]; intros c; cbn zeta.
  - cbn. repeat split; lia.
  - cbn [foldl]. specialize (IH (count_file c f)). cbn zeta in IH.
    destruct IH as (H1 & H2 & H3 & H4 & H5).
    rewrite H1, H2, H3, H4, H5, !length_filter_cons.
    cbn [count_file jcachecount datcount dat2count jagcount idxcount].
    rewrite !incr_count. unfold has_ext. repeat split; lia.
Qed.

Lemma count_files_nonneg (files : list jsstring) :
  let c := count_files files in
  0 <= jcachecount c /\ 0 <= datcount c /\ 0 <= dat2count c /\
  0 <= jagcount c /\ 0 <= idxcount c.
Proof.
  cbn zeta. unfold count_files.
  destruct (count_from zero files) as (H1 & H2 & H3 & H4 & H5).
  rewrite H1, H2, H3, H4, H5. cbn [zero jcachecount datcount dat2count
    jagcount idxcount]. repeat split; lia.
Qed.

End Detector.

Import Autocache.

(** C5. With a command-line file system and at least one cache file, the
    detector settles ties at the maximum in the order of its tests: the
    modern cache first, then the legacy index (which also needs a dat2
    file), then the classic cache. The old-binary counts (dat, dat2) select
    no store: tied with the classic count they leave the classic store
    selected, and alone at the maximum they end in "couldn't detect cache
    type". *)
Theorem selectFsCache_tie_order (dir : jsstring) (files : list jsstring)
    (opts : option CacheOpts) :
  let c := count_files files in
  let m := maxcount c in
  0 < m ->
  (jcachecount c = m ->
   selectFsCache (CLIScriptFS dir) files opts
   = Ok (GameCacheLoader dir
           (match opts with
            | Some o => default false (writable o)
            | None => false
            end)))
  /\ (jcachecount c < m -> idxcount c = m -> 0 < dat2count c ->
      selectFsCache (CLIScriptFS dir) files opts
      = Ok (NewLegacyFileSource dir (lit "rs2_727.ini")))
  /\ (jcachecount c < m -> idxcount c < m \/ dat2count c = 0 ->
      jagcount c = m ->
      selectFsCache (CLIScriptFS dir) files opts
      = Ok (ClassicFileSource_create (CLIScriptFS dir)))
  /\ (jcachecount c < m -> idxcount c < m \/ dat2count c = 0 ->
      jagcount c < m ->
      selectFsCache (CLIScriptFS dir) files opts = Err CouldntDetectCacheType).
Proof.
  intros c m Hm. unfold selectFsCache, select. fold c. fold m.
  pose proof (count_files_nonneg files) as Hnn. cbn zeta in Hnn. fold c in Hnn.
  destruct Hnn as (_ & _ & Hdat2 & _ & _).
  rewrite (proj2 (Z.eqb_neq m 0)) by lia.
  repeat split.
  - intros Hj. rewrite (proj2 (Z.eqb_eq m (jcachecount c))) by lia. reflexivity.
  - intros Hj Hi Hd. rewrite (proj2 (Z.eqb_neq m (jcachecount c))) by lia.
    unfold select_legacy. fold m.
    rewrite (proj2 (Z.eqb_eq m (idxcount c))), (proj2 (Z.ltb_lt 0 _)) by lia.
    reflexivity.
  - intros Hj Hi Hg. rewrite (proj2 (Z.eqb_neq m (jcachecount c))) by lia.
    unfold select_legacy, select_rest. fold m.
    replace ((m =? idxcount c) && (0 <? dat2count c)) with false.
    + rewrite (proj2 (Z.eqb_eq m (jagcount c))) by lia. reflexivity.
    + symmetry. apply andb_false_iff.
      destruct Hi; [left; apply Z.eqb_neq | right; apply Z.ltb_ge]; lia.
  - intros Hj Hi Hg. rewrite (proj2 (Z.eqb_neq m (jcachecount c))) by lia.
    unfold select_legacy, select_rest. fold m.
    replace ((m =? idxcount c) && (0 <? dat2count c)) with false.
    + rewrite (proj2 (Z.eqb_neq m (jagcount c))) by lia. reflexivity.
    + symmetry. apply andb_false_iff.
      destruct Hi; [left; apply Z.eqb_neq | right; apply Z.ltb_ge]; lia.
Qed.

Lemma selectFsCache_tie_order_witness :
  selectFsCache (CLIScriptFS (lit "cache"))
    [lit "main_file_cache.idx0"; lit "main_file_cache.dat2"; lit "title.jag"]
    None
  = Ok (NewLegacyFileSource (lit "cache") (lit "rs2_727.ini")).
Proof.
  destruct (selectFsCache_tie_order (lit "cache")
              [lit "main_file_cache.idx0"; lit "main_file_cache.dat2";
               lit "title.jag"] None) as (_ & Hlegacy & _).
  - vm_compute; easy.
  - apply Hlegacy; vm_compute; easy.
Defined.

(** C5, as stated, fails: a tie between the old-binary count and the
    classic count selects the classic store, where the stated precedence
    puts old-binary first. *)
Lemma tie_dat_jag_selects_classic :
  let files := [lit "models.dat"; lit "title.jag"] in
  let c := count_files files in
  datcount c = maxcount c /\ jagcount c = maxcount c /\ 0 < maxcount c /\
  spec_precedence c = Some SigOldBinary /\
  selectFsCache (CLIScriptFS (lit "cache")) files None
  = Ok (ClassicFileSource_create (CLIScriptFS (lit "cache"))) /\
  Some (signature_of (ClassicFileSource_create (CLIScriptFS (lit "cache"))))
  <> spec_precedence c.
Proof.
  intros files c. vm_compute. repeat split; discriminate.
Qed.

(* ===================================================================== *)
(** ** What the UTF-8 decoder produces *)

Section Utf8_decode_facts.

Import Utf8.

Lemma in_range_spec (lo hi b : Z) : in_range lo hi b = true <-> lo <= b <= hi.
Proof.
  unfold in_range. rewrite andb_true_iff, !Z.leb_le. reflexivity.
Qed.

Lemma clean_nil : clean [].
Proof. split; [exact I | constructor]. Qed.

Lemma clean_single (c : Z) (s : jsstring) :
  0 < c < 55296 \/ 57344 <= c < 65536 -> clean s -> clean (c :: s).
Proof.
  intros Hc [Hwf Hnz]. split.
  - cbn [well_formed]. unfold code_unit, is_high_surrogate, is_low_surrogate.
    split; [lia|].
    replace ((55296 <=? c) && (c <=? 56319)) with false.
    + split; [|exact Hwf]. apply andb_false_iff.
      rewrite !Z.leb_gt. lia.
    + symmetry. apply andb_false_iff. rewrite !Z.leb_gt. lia.
  - constructor; [lia | exact Hnz].
Qed.

Lemma clean_pair (h l : Z) (s : jsstring) :
  55296 <= h <= 56319 -> 56320 <= l <= 57343 -> clean s ->
  clean (h :: l :: s).
Proof.
  intros Hh Hl [Hwf Hnz]. split.
  - cbn [well_formed]. unfold code_unit, is_high_surrogate, is_low_surrogate.
    split; [lia|].
    rewrite (proj2 (Z.leb_le 55296 h)), (proj2 (Z.leb_le h 56319)) by lia.
    cbn [andb]. split; [|exact Hwf].
    apply andb_true_iff. rewrite !Z.leb_le. lia.
  - constructor; [lia|]. constructor; [lia | exact Hnz].
Qed.

Lemma clean_units (cp : Z) (s : jsstring) :
  scalar cp -> cp <> 0 -> clean s -> clean (units cp ++ s).
Proof.
  intros Hcp Hz Hs. unfold units, scalar in *.
  destruct (Z.ltb_spec cp 65536).
  - apply clean_single; [lia | exact Hs].
  - cbn [app]. apply clean_pair; [| | exact Hs].
    + split; [apply Z.le_trans with (55296 + 0); [lia|];
              apply Z.add_le_mono_l, Z.div_pos; lia|].
      assert ((cp - 65536) / 1024 < 1024)
        by (apply Z.div_lt_upper_bound; lia). lia.
    + pose proof (Z.mod_pos_bound (cp - 65536) 1024). lia.
Qed.

Local Ltac shorter :=
  match goal with
  | H : (List.length _ <= S _)%nat |- (List.length _ <= _)%nat =>
    cbn [List.length] in H |- *; lia
  end.

Local Ltac tail_bytes :=
  repeat match goal with
  | H : Forall _ (_ :: _) |- _ => apply Forall_cons in H as [? ?]
  end.

Lemma decode_clean_aux (n : nat) (bs : list Z) :
  (List.length bs <= n)%nat ->
  Forall byte bs -> Forall (fun b => b <> 0) bs -> clean (decode bs).
Proof.
  revert bs. induction n as [|n IH]; intros bs Hn Hb Hz.
  { destruct bs; [apply clean_nil | cbn in Hn; lia]. }
  assert (Hrep : forall s, clean s -> clean (65533 :: s))
    by (intros s Hs; apply clean_single; [lia | exact Hs]).
  destruct bs as [|b0 r0]; [apply clean_nil|].
  pose proof Hb as Hb0. pose proof Hz as Hz0.
  apply Forall_cons in Hb0 as [Hb0 Hbr0]. apply Forall_cons in Hz0 as [Hz0 Hzr0].
  unfold byte in Hb0.
  assert (IH0 : clean (decode r0)) by (apply IH; [shorter | assumption..]).
  cbn [decode].
  destruct (Z.ltb_spec b0 128) as [Hlt|Hge].
  { apply clean_single; [lia | exact IH0]. }
  destruct (in_range 194 223 b0) eqn:E2.
  { apply in_range_spec in E2.
    destruct r0 as [|b1 r1]; [apply Hrep, clean_nil|].
    destruct (is_cont b1) eqn:C1; [|apply Hrep, IH0].
    apply in_range_spec in C1.
    apply clean_units; [unfold scalar; lia | lia |].
    tail_bytes. apply IH; [shorter | assumption..]. }
  destruct (in_range 224 239 b0) eqn:E3.
  { apply in_range_spec in E3.
    destruct r0 as [|b1 r1]; [apply Hrep, clean_nil|].
    destruct (in_range (second_lo b0) (second_hi b0) b1) eqn:S1;
      [|apply Hrep, IH0].
    apply in_range_spec in S1.
    assert (IH1 : clean (decode r1))
      by (tail_bytes; apply IH; [shorter | assumption..]).
    destruct r1 as [|b2 r2]; [apply Hrep, clean_nil|].
    destruct (is_cont b2) eqn:C2; [|apply Hrep, IH1].
    apply in_range_spec in C2.
    apply clean_units.
    - unfold second_lo, second_hi, scalar in *.
      destruct (Z.eqb_spec b0 224); destruct (Z.eqb_spec b0 237);
        destruct (Z.eqb_spec b0 240); destruct (Z.eqb_spec b0 244); lia.
    - unfold second_lo in S1.
      destruct (Z.eqb_spec b0 224); destruct (Z.eqb_spec b0 240); lia.
    - tail_bytes. apply IH; [shorter | assumption..]. }
  destruct (in_range 240 244 b0) eqn:E4; [|apply Hrep, IH0].
  apply in_range_spec in E4.
  destruct r0 as [|b1 r1]; [apply Hrep, clean_nil|].
  destruct (in_range (second_lo b0) (second_hi b0) b1) eqn:S1;
    [|apply Hrep, IH0].
  apply in_range_spec in S1.
  assert (IH1 : clean (decode r1))
    by (tail_bytes; apply IH; [shorter | assumption..]).
  destruct r1 as [|b2 r2]; [apply Hrep, clean_nil|].
  destruct (is_cont b2) eqn:C2; [|apply Hrep, IH1].
  apply in_range_spec in C2.
  assert (IH2 : clean (decode r2))
    by (tail_bytes; apply IH; [shorter | assumption..]).
  destruct r2 as [|b3 r3]; [apply Hrep, clean_nil|].
  destruct (is_cont b3) eqn:C3; [|apply Hrep, IH2].
  apply in_range_spec in C3.
  apply clean_units.
  - unfold second_lo, second_hi, scalar in *.
    destruct (Z.eqb_spec b0 224); destruct (Z.eqb_spec b0 237);
      destruct (Z.eqb_spec b0 240); destruct (Z.eqb_spec b0 244); lia.
  - unfold second_lo in S1.
    destruct (Z.eqb_spec b0 224); destruct (Z.eqb_spec b0 240); lia.
  - tail_bytes. apply IH; [shorter | assumption..].
Qed.

(** Whatever the bytes, as long as none is zero, the decoder produces
    well-formed text without U+0000. *)
Lemma decode_clean (bs : list Z) :
  Forall byte bs -> Forall (fun b => b <> 0) bs -> clean (decode bs).
Proof. apply (decode_clean_aux (List.length bs)). lia. Qed.

End Utf8_decode_facts.

(* ===================================================================== *)
(** ** More on the instruction codec *)

Section CodecOutcomes.

Import Build727ClientscriptObfuscation.

Lemma scan_loop_bounds (fuel : nat) (b : Buffer.t) (e s : Z) :
  s <= scan_loop fuel b e s <= Z.max s e.
Proof.
  revert s. induction fuel as [|fuel IH]; intros s; cbn [scan_loop]; [lia|].
  destruct (Z.ltb_spec s e); cbn [andb]; [|lia].
  destruct (not_zero (Buffer.get b s)); [|lia].
  specialize (IH (s + 1)). lia.
Qed.

Lemma scan_string_bounds (b : Buffer.t) (e s : Z) :
  s <= scan_string b e s <= Z.max s e.
Proof. apply scan_loop_bounds. Qed.

(** Every byte the loop passes over is not a zero byte. *)
Lemma scan_loop_passes (fuel : nat) (b : Buffer.t) (e s i : Z) :
  s <= i < scan_loop fuel b e s -> not_zero (Buffer.get b i) = true.
Proof.
  revert s. induction fuel as [|fuel IH]; intros s; cbn [scan_loop]; [lia|].
  destruct (Z.ltb_spec s e); cbn [andb]; [|lia].
  destruct (not_zero (Buffer.get b s)) eqn:Hs; [|lia].
  intros Hi. destruct (Z.eq_dec i s) as [->|Hne]; [exact Hs|].
  apply (IH (s + 1)). lia.
Qed.

Lemma in_bounds_spec (b : Buffer.t) (offset n : Z) :
  Buffer.in_bounds b offset n = true
  <-> 0 <= offset /\ offset + n <= Buffer.length b.
Proof.
  unfold Buffer.in_bounds. rewrite andb_true_iff, Z.leb_le, Z.leb_le.
  reflexivity.
Qed.

Lemma readUInt16BE_Ok (b : Buffer.t) (s v : Z) :
  Buffer.readUInt16BE b s = Ok v ->
  0 <= s /\ s + 2 <= Buffer.length b /\ v = uint16_at b s.
Proof.
  unfold Buffer.readUInt16BE. destruct (Buffer.in_bounds b s 2) eqn:Hb;
    [|discriminate].
  apply in_bounds_spec in Hb. intros [= <-]. unfold uint16_at.
  change (2 ^ 8) with 256. repeat split; lia.
Qed.

Lemma readUInt16BE_in_bounds (b : Buffer.t) (s : Z) :
  0 <= s -> s + 2 <= Buffer.length b ->
  Buffer.readUInt16BE b s = Ok (uint16_at b s).
Proof.
  intros H1 H2. unfold Buffer.readUInt16BE. rewrite in_bounds_true by lia.
  reflexivity.
Qed.

Lemma readUInt16BE_Err (b : Buffer.t) (s : Z) (e : BufferError) :
  Buffer.readUInt16BE b s = Err e -> s < 0 \/ Buffer.length b < s + 2.
Proof.
  unfold Buffer.readUInt16BE. destruct (Buffer.in_bounds b s 2) eqn:Hb;
    [discriminate|].
  intros _. unfold Buffer.in_bounds in Hb. apply andb_false_iff in Hb.
  rewrite !Z.leb_gt in Hb. lia.
Qed.

Variable table : CS2OpcodeMappings.t.

(** [readOpcode] by the kind of immediate the table implies. *)
Lemma readOpcode_by_kind (st : State) (op : Z) :
  Buffer.readUInt16BE (buffer st) (scan st) = Ok op ->
  match implied_kind table op with
  | KindNone =>
    exists r log,
      readOpcode table st
      = Ok (r, {| buffer := buffer st; scan := scan st + 2;
                  endoffset := endoffset st |}, log)
      /\ opcode r = op /\ imm r = 0 /\ imm_obj r = ImmNull
      /\ described_by table r
  | KindNumber =>
    match Buffer.readInt32BE (buffer st) (scan st + 2) with
    | Ok n =>
      exists r,
        readOpcode table st
        = Ok (r, {| buffer := buffer st; scan := scan st + 2 + 4;
                    endoffset := endoffset st |}, [])
        /\ opcode r = op /\ imm r = n /\ imm_obj r = ImmNumber n
        /\ described_by table r
    | Err e => readOpcode table st = Err e
    end
  | KindString =>
    let z := scan_string (buffer st) (endoffset st) (scan st + 2) in
    exists r,
      readOpcode table st
      = Ok (r, {| buffer := buffer st; scan := z + 1;
                  endoffset := endoffset st |}, [])
      /\ opcode r = op /\ imm r = 0
      /\ imm_obj r = ImmString (Buffer.toString (buffer st) (scan st + 2) z)
      /\ described_by table r
  end.
Proof.
  intros Hop. destruct (implied_kind table op) eqn:Hk.
  - pose proof (implied_kind_none table op Hk) as Hnone.
    destruct (CS2OpcodeMappings.getMapping table op) as [m|] eqn:Hm.
    + rewrite (readOpcode_plain table st op m Hop Hm Hnone).
      do 2 eexists. split; [reflexivity|]. cbn [opcode imm imm_obj].
      repeat split. unfold described_by. cbn [opcode imm imm_obj imm_value
        name returnType paramTypes]. rewrite Hm. auto.
    + rewrite (readOpcode_unmapped table st op Hop Hm).
      do 2 eexists. split; [reflexivity|]. cbn [opcode imm imm_obj].
      repeat split. unfold described_by. cbn [opcode imm imm_obj imm_value
        name returnType paramTypes]. rewrite Hm. auto.
  - destruct (implied_kind_number table op Hk) as (m & p & rest & Hm & Hp & Hpk).
    destruct (Buffer.readInt32BE (buffer st) (scan st + 2)) as [n|e] eqn:Hn.
    + rewrite (readOpcode_number table st op n m p rest Hop Hm Hp Hpk Hn).
      eexists. split; [reflexivity|]. cbn [opcode imm imm_obj].
      repeat split. unfold described_by. cbn [opcode imm imm_obj imm_value
        name returnType paramTypes]. rewrite Hm. auto.
    + unfold readOpcode. rewrite Hop. cbn [rbind]. rewrite Hm, Hp.
      replace (JsString.eqb p (lit "int") || JsString.eqb p (lit "component"))
        with true.
      * rewrite Hn. reflexivity.
      * symmetry. apply orb_true_iff.
        destruct Hpk as [-> | ->]; [left | right]; apply eqb_true; reflexivity.
  - destruct (implied_kind_string table op Hk) as (m & rest & Hm & Hp).
    cbv zeta. rewrite (readOpcode_string table st op m rest Hop Hm Hp).
    eexists. split; [reflexivity|]. cbn [opcode imm imm_obj].
    repeat split. unfold described_by. cbn [opcode imm imm_obj imm_value
      name returnType paramTypes]. rewrite Hm. auto.
Qed.

End CodecOutcomes.

(* ===================================================================== *)
(** ** Reading back what was written *)

(** Reading at the cursor of a buffer that holds the bytes of [x] there
    gives [x] and moves the cursor past those bytes, whatever else the
    buffer holds. *)
Lemma read_back (table : CS2OpcodeMappings.t) (st : State) (streamEnd : Z)
    (x : Instruction) :
  0 <= opcode x < 65536 ->
  kind_matches table x ->
  terminable (imm_obj x) ->
  0 <= scan st ->
  scan st + encoded_length x <= Buffer.length (buffer st) ->
  scan st + encoded_length x <= streamEnd ->
  exists r log,
    readOpcode table
      {| buffer := splice (buffer st) (Z.to_nat (scan st)) (encodeOne x);
         scan := scan st; endoffset := streamEnd |}
    = Ok (r,
          {| buffer := splice (buffer st) (Z.to_nat (scan st)) (encodeOne x);
             scan := scan st + encoded_length x; endoffset := streamEnd |},
          log)
    /\ opcode r = opcode x /\ imm_obj r = imm_obj x
    /\ imm r = imm_value (imm_obj x)
    /\ (described_by table x -> r = x).
Proof.
  intros Hop [Hkind Hint] Hterm Hs Hroom Hend.
  set (off := Z.to_nat (scan st)).
  assert (Hoff : scan st = Z.of_nat off) by (unfold off; lia).
  assert (Hlen : (off + List.length (encodeOne x) <= List.length (buffer st))%nat)
    by (unfold encoded_length, Buffer.length in Hroom; lia).
  set (st1 := {| buffer := splice (buffer st) off (encodeOne x);
                 scan := scan st; endoffset := streamEnd |}).
  assert (Hread : Buffer.readUInt16BE (buffer st1) (scan st1) = Ok (opcode x)).
  { cbn [st1 buffer scan]. rewrite Hoff. apply read_written_opcode, Hlen. }
  destruct (imm_obj x) as [|n|s] eqn:Himm; cbn [kind_of] in Hkind.
  - (* no immediate *)
    assert (Henc : encoded_length x = 2)
      by (unfold encoded_length, encodeOne; rewrite Himm; reflexivity).
    pose proof (implied_kind_none table (opcode x) (eq_sym Hkind)) as Hnone.
    destruct (CS2OpcodeMappings.getMapping table (opcode x)) as [m|] eqn:Hm.
    + rewrite (readOpcode_plain table st1 (opcode x) m Hread Hm Hnone).
      do 2 eexists. split; [rewrite Henc; reflexivity|].
      cbn [opcode imm imm_obj]. rewrite ?Himm. repeat split.
      intros Hd. eapply (described_eq table x _ (Some m) Hm); cbn; rewrite ?Himm; auto.
    + rewrite (readOpcode_unmapped table st1 (opcode x) Hread Hm).
      do 2 eexists. split; [rewrite Henc; reflexivity|].
      cbn [opcode imm imm_obj]. rewrite ?Himm. repeat split.
      intros Hd. eapply (described_eq table x _ None Hm); cbn; rewrite ?Himm; auto.
  - (* a number *)
    assert (Henc : encoded_length x = 6)
      by (unfold encoded_length, encodeOne; rewrite Himm; reflexivity).
    destruct (implied_kind_number table (opcode x) (eq_sym Hkind))
      as (m & p & rest & Hm & Hp & Hk).
    assert (Hn : Buffer.readInt32BE (buffer st1) (scan st1 + 2) = Ok n).
    { cbn [st1 buffer scan]. unfold encodeOne. rewrite Himm. cbv zeta.
      replace (scan st + 2)
        with (Z.of_nat off
              + Z.of_nat (List.length [opcode x / 256; opcode x mod 256]))
        by (cbn [List.length]; lia).
      rewrite readInt32BE_splice
        by (unfold encodeOne in Hlen; rewrite Himm in Hlen; exact Hlen).
      f_equal. apply (int32_bytes n Hint). }
    rewrite (readOpcode_number table st1 (opcode x) n m p rest Hread Hm Hp Hk Hn).
    do 2 eexists. split.
    { rewrite Henc. cbn [st1 buffer scan endoffset].
      replace (scan st + 2 + 4) with (scan st + 6) by lia. reflexivity. }
    cbn [opcode imm imm_obj]. rewrite ?Himm. cbn [imm_value]. repeat split.
    intros Hd. eapply (described_eq table x _ (Some m) Hm); cbn; rewrite ?Himm; auto.
  - (* a string *)
    destruct Hterm as [Hwf Hnz].
    set (enc := Utf8.encode s).
    assert (Henc : encodeOne x
                   = [opcode x / 256; opcode x mod 256] ++ enc ++ [0])
      by (unfold encodeOne; rewrite Himm; reflexivity).
    assert (Hsize : encoded_length x = 2 + Z.of_nat (List.length enc) + 1).
    { unfold encoded_length. rewrite Henc, !length_app. cbn [List.length]. lia. }
    destruct (implied_kind_string table (opcode x) (eq_sym Hkind))
      as (m & rest & Hm & Hp).
    pose proof (utf8_encode_nonzero s Hwf Hnz) as Hbytes.
    assert (Hget : forall k : nat,
      Buffer.get (buffer st1) (scan st + 2 + Z.of_nat k)
      = (enc ++ [0]) !! k \/ (List.length enc < k)%nat).
    { intros k. destruct (le_lt_dec k (List.length enc)); [left | right; lia].
      cbn [st1 buffer]. rewrite Henc.
      replace (scan st + 2 + Z.of_nat k)
        with (Z.of_nat off + Z.of_nat (2 + k)) by lia.
      rewrite Buffer_get_splice.
      - reflexivity.
      - rewrite <- Henc. exact Hlen.
      - rewrite !length_app. cbn [List.length]. lia. }
    assert (Hscan : scan_string (buffer st1) (endoffset st1) (scan st1 + 2)
                    = scan st + 2 + Z.of_nat (List.length enc)).
    { cbn [st1 scan endoffset]. apply scan_string_stop.
      - lia.
      - intros i Hi.
        destruct (Hget (Z.to_nat (i - (scan st + 2)))) as [Hk|Hk]; [|lia].
        replace (scan st + 2 + Z.of_nat (Z.to_nat (i - (scan st + 2))))
          with i in Hk by lia.
        rewrite Hk. rewrite lookup_app_l by lia.
        destruct (enc !! Z.to_nat (i - (scan st + 2))) as [v|] eqn:Hv;
          [|reflexivity].
        apply (proj1 (Forall_lookup _ _) Hbytes) in Hv.
        destruct v; [congruence | reflexivity | reflexivity].
      - right. destruct (Hget (List.length enc)) as [Hk|Hk]; [|lia].
        rewrite Hk. rewrite lookup_app_r by lia.
        replace (List.length enc - List.length enc)%nat with O by lia.
        reflexivity. }
    assert (Htext : Buffer.toString (buffer st1) (scan st + 2)
                      (scan st + 2 + Z.of_nat (List.length enc)) = s).
    { unfold Buffer.toString.
      assert (Hb1 : Buffer.length (buffer st1) = Buffer.length (buffer st))
        by (cbn [st1 buffer]; unfold Buffer.length; rewrite length_splice;
            [reflexivity | exact Hlen]).
      rewrite Hb1, Z.max_r, Z.min_l by lia.
      destruct (Z.leb_spec (scan st + 2 + Z.of_nat (List.length enc))
                  (scan st + 2)) as [Hle|Hgt].
      - destruct enc as [|e0 enc'] eqn:Hempty; [|cbn [List.length] in Hle; lia].
        destruct s as [|c r]; [reflexivity|].
        exfalso. pose proof (utf8_decode_encode _ Hwf) as Hd.
        fold enc in Hd. rewrite Hempty in Hd. discriminate.
      - unfold Buffer.slice. cbn [st1 buffer]. rewrite Henc.
        rewrite (slice_splice _ _ enc [0] off);
          [apply utf8_decode_encode, Hwf | cbn [List.length]; lia | lia |].
        rewrite <- Henc. exact Hlen. }
    rewrite (readOpcode_string table st1 (opcode x) m rest Hread Hm Hp).
    rewrite Hscan. cbn [st1 buffer scan] in *. rewrite Htext.
    do 2 eexists. split.
    { rewrite Hsize.
      replace (scan st + 2 + Z.of_nat (List.length enc) + 1)
        with (scan st + (2 + Z.of_nat (List.length enc) + 1)) by lia.
      reflexivity. }
    cbn [opcode imm imm_obj]. rewrite ?Himm. cbn [imm_value]. repeat split.
    intros Hd. eapply (described_eq table x _ (Some m) Hm); cbn; rewrite ?Himm; auto.
Qed.

Section CodecExtras.

Lemma readInt32BE_Ok (b : Buffer.t) (s n : Z) :
  Buffer.readInt32BE b s = Ok n -> 0 <= s /\ s + 4 <= Buffer.length b.
Proof.
  unfold Buffer.readInt32BE. destruct (Buffer.in_bounds b s 4) eqn:Hb;
    [|discriminate].
  intros _. apply in_bounds_spec, Hb.
Qed.

Lemma readInt32BE_Err (b : Buffer.t) (s : Z) (e : BufferError) :
  Buffer.readInt32BE b s = Err e -> s < 0 \/ Buffer.length b < s + 4.
Proof.
  unfold Buffer.readInt32BE. destruct (Buffer.in_bounds b s 4) eqn:Hb;
    [discriminate|].
  intros _. unfold Buffer.in_bounds in Hb. apply andb_false_iff in Hb.
  rewrite !Z.leb_gt in Hb. lia.
Qed.

Lemma readInt32BE_in_bounds (b : Buffer.t) (s : Z) :
  0 <= s -> s + 4 <= Buffer.length b ->
  exists n, Buffer.readInt32BE b s = Ok n.
Proof.
  intros H1 H2. unfold Buffer.readInt32BE. rewrite in_bounds_true by lia.
  eauto.
Qed.

Lemma readInt32BE_int32 (b : Buffer.t) (s n : Z) :
  Forall byte b -> Buffer.readInt32BE b s = Ok n -> int32 n.
Proof.
  intros Hb. unfold Buffer.readInt32BE.
  destruct (Buffer.in_bounds b s 4); [|discriminate].
  cbv zeta. intros [= <-]. unfold int32.
  pose proof (byte_at_byte b s Hb). pose proof (byte_at_byte b (s + 1) Hb).
  pose proof (byte_at_byte b (s + 2) Hb). pose proof (byte_at_byte b (s + 3) Hb).
  change (2 ^ 24) with 16777216. change (2 ^ 16) with 65536.
  change (2 ^ 8) with 256.
  destruct (Z.ltb_spec (Buffer.byte_at b s) 128); lia.
Qed.

Lemma uint16_at_bounds (b : Buffer.t) (s : Z) :
  Forall byte b -> 0 <= uint16_at b s < 65536.
Proof.
  intros Hb. unfold uint16_at.
  pose proof (byte_at_byte b s Hb). pose proof (byte_at_byte b (s + 1) Hb).
  lia.
Qed.

(** The text of a stretch of non-zero bytes is clean. *)
Lemma toString_clean (b : Buffer.t) (s z : Z) :
  Forall byte b -> 0 <= s ->
  (forall i, s <= i < z ->
     Build727ClientscriptObfuscation.not_zero (Buffer.get b i) = true) ->
  clean (Buffer.toString b s z).
Proof.
  intros Hb Hs Hnz. unfold Buffer.toString. rewrite Z.max_r by lia.
  destruct (Z.leb_spec (Z.min z (Buffer.length b)) s); [apply clean_nil|].
  apply decode_clean.
  - unfold Buffer.slice. apply Forall_take, Forall_drop, Hb.
  - unfold Buffer.slice. apply Forall_lookup. intros k v Hk.
    rewrite lookup_take in Hk. case_decide as Hlt; [|discriminate].
    rewrite lookup_drop in Hk.
    assert (Hget : Buffer.get b (s + Z.of_nat k) = Some v).
    { unfold Buffer.get. rewrite (proj2 (Z.ltb_ge _ 0)) by lia.
      rewrite <- Hk. f_equal. lia. }
    specialize (Hnz (s + Z.of_nat k) ltac:(lia)). rewrite Hget in Hnz.
    intros ->. discriminate.
Qed.

End CodecExtras.

(** X1. [readOpcode] throws in exactly two situations: the two bytes of the
    opcode are not inside the buffer, or the opcode's first parameter type
    is [int] or [component] and the four bytes of the immediate are not
    inside the buffer. A string immediate never makes it throw. *)
Theorem readOpcode_fails_iff (table : CS2OpcodeMappings.t) (st : State) :
  readOpcode table st = Err ERR_OUT_OF_RANGE
  <-> (scan st < 0 \/ Buffer.length (buffer st) < scan st + 2)
      \/ (0 <= scan st
          /\ implied_kind table (uint16_at (buffer st) (scan st)) = KindNumber
          /\ Buffer.length (buffer st) < scan st + 6).
Proof.
  split.
  - intros Hfail.
    destruct (Buffer.readUInt16BE (buffer st) (scan st)) as [op|e] eqn:Hop.
    + right. pose proof (readUInt16BE_Ok _ _ _ Hop) as (Hs & Hlen & ->).
      pose proof (readOpcode_by_kind table st _ Hop) as Hk.
      destruct (implied_kind table (uint16_at (buffer st) (scan st))).
      * destruct Hk as (r & log & Hr & _). congruence.
      * destruct (Buffer.readInt32BE (buffer st) (scan st + 2)) as [n|e] eqn:Hn.
        -- destruct Hk as (r & Hr & _). congruence.
        -- apply readInt32BE_Err in Hn. repeat split; [lia | lia].
      * destruct Hk as (r & Hr & _). congruence.
    + left. eapply readUInt16BE_Err, Hop.
  - intros [Hout | (Hs & Hk & Hshort)].
    + unfold readOpcode, Buffer.readUInt16BE, Buffer.in_bounds.
      replace ((0 <=? scan st) && (scan st + 2 <=? Buffer.length (buffer st)))
        with false; [reflexivity|].
      symmetry. apply andb_false_iff. rewrite !Z.leb_gt. lia.
    + destruct (Z.le_gt_cases (scan st + 2) (Buffer.length (buffer st)))
        as [Hfit|Hno].
      * pose proof (readOpcode_by_kind table st _
                      (readUInt16BE_in_bounds _ _ Hs Hfit)) as Hr.
        rewrite Hk in Hr.
        destruct (Buffer.readInt32BE (buffer st) (scan st + 2)) as [n|[]] eqn:Hn;
          [|exact Hr].
        apply readInt32BE_Ok in Hn. lia.
      * unfold readOpcode, Buffer.readUInt16BE, Buffer.in_bounds.
        replace ((0 <=? scan st) && (scan st + 2 <=? Buffer.length (buffer st)))
          with false; [reflexivity|].
        symmetry. apply andb_false_iff. rewrite !Z.leb_gt. lia.
Qed.

(** X2. A successful [readOpcode] leaves the buffer and [endoffset] as they
    were and moves the cursor forward by at least 2; the cursor ends no
    further than 6 past where it was or 1 past [endoffset], whichever is
    later. *)
Theorem readOpcode_advances (table : CS2OpcodeMappings.t) (st st' : State)
    (r : Instruction) (log : list jsstring) :
  readOpcode table st = Ok (r, st', log) ->
  buffer st' = buffer st /\ endoffset st' = endoffset st
  /\ scan st + 2 <= scan st' <= Z.max (scan st + 6) (endoffset st + 1).
Proof.
  intros Hr.
  destruct (Buffer.readUInt16BE (buffer st) (scan st)) as [op|e] eqn:Hop.
  - pose proof (readOpcode_by_kind table st op Hop) as Hk.
    destruct (implied_kind table op).
    + destruct Hk as (r0 & log0 & Hr0 & _). rewrite Hr0 in Hr.
      injection Hr as <- <- <-. cbn. repeat split; lia.
    + destruct (Buffer.readInt32BE (buffer st) (scan st + 2)) as [n|e].
      * destruct Hk as (r0 & Hr0 & _). rewrite Hr0 in Hr.
        injection Hr as <- <- <-. cbn. repeat split; lia.
      * congruence.
    + destruct Hk as (r0 & Hr0 & _). rewrite Hr0 in Hr.
      injection Hr as <- <- <-. cbn [buffer scan endoffset].
      pose proof (scan_string_bounds (buffer st) (endoffset st) (scan st + 2)).
      repeat split; lia.
  - unfold readOpcode in Hr. rewrite Hop in Hr. discriminate.
Qed.

Lemma readOpcode_advances_witness :
  let st := {| buffer := [0; 2; 255; 255; 255; 254; 9]; scan := 0;
               endoffset := 7 |} in
  exists r st' log,
    readOpcode sample_table st = Ok (r, st', log)
    /\ buffer st' = buffer st /\ endoffset st' = endoffset st
    /\ scan st + 2 <= scan st' <= Z.max (scan st + 6) (endoffset st + 1).
Proof.
  intros st. do 3 eexists. split; [reflexivity|].
  exact (readOpcode_advances sample_table st _ _ _ eq_refl).
Defined.

(** X3. Every instruction [readOpcode] returns from a buffer of bytes can
    be written back: its opcode fits 16 bits, its immediate is of the kind
    the table implies for that opcode (a number is a 32-bit signed integer,
    a string is well-formed text without U+0000), its [imm] is the numeric
    projection of [imm_obj], and its name, return type and parameter types
    are those of the table (or the unknown placeholders). *)
Theorem readOpcode_result_is_canonical (table : CS2OpcodeMappings.t)
    (st st' : State) (r : Instruction) (log : list jsstring) :
  Forall byte (buffer st) ->
  readOpcode table st = Ok (r, st', log) ->
  0 <= opcode r < 65536 /\ kind_matches table r /\ terminable (imm_obj r)
  /\ described_by table r.
Proof.
  intros Hb Hr.
  destruct (Buffer.readUInt16BE (buffer st) (scan st)) as [op|e] eqn:Hop;
    [|unfold readOpcode in Hr; rewrite Hop in Hr; discriminate].
  pose proof (readUInt16BE_Ok _ _ _ Hop) as (Hs & Hlen & Hval).
  pose proof (uint16_at_bounds (buffer st) (scan st) Hb) as Hrange.
  rewrite <- Hval in Hrange.
  pose proof (readOpcode_by_kind table st op Hop) as Hk.
  destruct (implied_kind table op) eqn:Hkind.
  - destruct Hk as (r0 & log0 & Hr0 & Ho & _ & Hi & Hd).
    rewrite Hr0 in Hr. injection Hr as <- <- <-.
    rewrite Ho. unfold kind_matches. rewrite Hi, Ho, Hkind.
    split; [lia|]. split; [split; [reflexivity | exact I]|].
    split; [exact I | exact Hd].
  - destruct (Buffer.readInt32BE (buffer st) (scan st + 2)) as [n|e] eqn:Hn;
      [|congruence].
    destruct Hk as (r0 & Hr0 & Ho & _ & Hi & Hd).
    rewrite Hr0 in Hr. injection Hr as <- <- <-.
    rewrite Ho. unfold kind_matches. rewrite Hi, Ho, Hkind.
    split; [lia|]. split; [split; [reflexivity|]|].
    + exact (readInt32BE_int32 _ _ _ Hb Hn).
    + split; [exact I | exact Hd].
  - cbv zeta in Hk. destruct Hk as (r0 & Hr0 & Ho & _ & Hi & Hd).
    rewrite Hr0 in Hr. injection Hr as <- <- <-.
    rewrite Ho. unfold kind_matches. rewrite Hi, Ho, Hkind.
    cbn [kind_of terminable].
    split; [lia|]. split; [split; [reflexivity | exact I]|]. split; [|exact Hd].
    apply toString_clean; [exact Hb | lia |].
    intros i Hi'. eapply scan_loop_passes. exact Hi'.
Qed.

Lemma readOpcode_result_is_canonical_witness :
  let r := instruction_of push_string (ImmString [104; 65533; 105]) in
  0 <= opcode r < 65536 /\ kind_matches sample_table r
  /\ terminable (imm_obj r) /\ described_by sample_table r.
Proof.
  intros r.
  apply (readOpcode_result_is_canonical sample_table
           {| buffer := [0; 1; 104; 255; 105; 0]; scan := 0; endoffset := 6 |}
           {| buffer := [0; 1; 104; 255; 105; 0]; scan := 6; endoffset := 6 |}
           r []);
    [repeat constructor; vm_compute; easy | reflexivity].
Defined.

Section WriteOutcomes.

Lemma length_set (b : Buffer.t) (i v : Z) :
  Buffer.length (Buffer.set b i v) = Buffer.length b.
Proof.
  unfold Buffer.set, Buffer.length. destruct (i <? 0); [reflexivity|].
  rewrite length_insert. reflexivity.
Qed.

Lemma length_copy_from (src target : list Z) (i : nat) :
  List.length (Buffer.copy_from src target i) = List.length target.
Proof.
  revert target i. induction src as [|x src IH]; intros target i;
    cbn [Buffer.copy_from]; [reflexivity|].
  rewrite IH. apply length_insert.
Qed.

Lemma writeUInt16BE_Ok (b b' : Buffer.t) (value offset : Z) :
  Buffer.writeUInt16BE b value offset = Ok b' ->
  0 <= value < 65536 /\ 0 <= offset /\ offset + 2 <= Buffer.length b
  /\ Buffer.length b' = Buffer.length b.
Proof.
  unfold Buffer.writeUInt16BE.
  destruct (Z.ltb_spec value 0); [discriminate|].
  destruct (Z.ltb_spec 65535 value); [discriminate|]. cbn [orb].
  destruct (Buffer.in_bounds b offset 2) eqn:Hb; [|discriminate].
  apply in_bounds_spec in Hb. intros [= <-]. rewrite !length_set.
  repeat split; lia.
Qed.

Lemma writeInt32BE_Ok (b b' : Buffer.t) (value offset : Z) :
  Buffer.writeInt32BE b value offset = Ok b' ->
  int32 value /\ 0 <= offset /\ offset + 4 <= Buffer.length b.
Proof.
  unfold Buffer.writeInt32BE, int32.
  destruct (Z.ltb_spec value (- 2147483648)); [discriminate|].
  destruct (Z.ltb_spec 2147483647 value); [discriminate|]. cbn [orb].
  destruct (Buffer.in_bounds b offset 4) eqn:Hb; [|discriminate].
  apply in_bounds_spec in Hb. intros _. repeat split; lia.
Qed.

Lemma writeUInt8_Ok (b b' : Buffer.t) (value offset : Z) :
  Buffer.writeUInt8 b value offset = Ok b' ->
  0 <= offset /\ offset + 1 <= Buffer.length b.
Proof.
  unfold Buffer.writeUInt8.
  destruct ((value <? 0) || (255 <? value)); [discriminate|].
  destruct (Buffer.in_bounds b offset 1) eqn:Hb; [|discriminate].
  apply in_bounds_spec in Hb. intros _. exact Hb.
Qed.

Lemma copy_Ok (src b b' : Buffer.t) (targetStart : Z) :
  Buffer.copy src b targetStart = Ok b' ->
  Buffer.length b' = Buffer.length b.
Proof.
  unfold Buffer.copy. destruct (targetStart <? 0); [discriminate|].
  intros [= <-]. unfold Buffer.length. rewrite length_copy_from. reflexivity.
Qed.

(** What a successful [writeOpCode] needed. *)
Lemma writeOpCode_Ok (st st' : State) (x : Instruction) :
  Build727ClientscriptObfuscation.writeOpCode st x = Ok st' ->
  0 <= opcode x < 65536
  /\ match imm_obj x with ImmNumber n => int32 n | _ => True end
  /\ 0 <= scan st
  /\ scan st + encoded_length x <= Buffer.length (buffer st).
Proof.
  unfold Build727ClientscriptObfuscation.writeOpCode, encoded_length, encodeOne.
  destruct (Buffer.writeUInt16BE (buffer st) (opcode x) (scan st))
    as [b1|e] eqn:H1; [|discriminate].
  apply writeUInt16BE_Ok in H1 as (Hop & Hs & Hfit & Hlen1). cbn [rbind].
  destruct (imm_obj x) as [|n|s].
  - intros _. cbn [app List.length].
    split; [lia|]. split; [exact I|]. split; lia.
  - destruct (Buffer.writeInt32BE b1 n (scan st + 2)) as [b2|e] eqn:H2;
      [|discriminate].
    apply writeInt32BE_Ok in H2 as (Hn & _ & Hfit2). intros _.
    cbn [app List.length].
    split; [lia|]. split; [exact Hn|]. split; lia.
  - unfold Buffer.from.
    destruct (Buffer.copy (Utf8.encode s) b1 (scan st + 2)) as [b2|e] eqn:H2;
      [|discriminate].
    apply copy_Ok in H2. cbn [rbind].
    destruct (Buffer.writeUInt8 b2 0 _) as [b3|e] eqn:H3; [|discriminate].
    apply writeUInt8_Ok in H3 as (_ & Hfit3). intros _.
    rewrite length_app. cbn [List.length]. rewrite length_app.
    cbn [List.length]. unfold Buffer.length in *.
    split; [lia|]. split; [exact I|]. split; lia.
Qed.

End WriteOutcomes.

(** X4. [writeOpCode] succeeds exactly when the opcode fits 16 bits, a
    numeric immediate is a 32-bit signed integer, and the buffer has room
    for all the bytes of the instruction from the cursor on; it then stores
    those bytes at the cursor, moves the cursor past them and leaves
    [endoffset] alone. In every other case it throws. *)
Theorem writeOpCode_succeeds_iff (st st' : State) (x : Instruction) :
  writeOpCode st x = Ok st'
  <-> (0 <= opcode x < 65536
       /\ match imm_obj x with ImmNumber n => int32 n | _ => True end
       /\ 0 <= scan st
       /\ scan st + encoded_length x <= Buffer.length (buffer st))
      /\ st' = {| buffer := splice (buffer st) (Z.to_nat (scan st)) (encodeOne x);
                  scan := scan st + encoded_length x;
                  endoffset := endoffset st |}.
Proof.
  split.
  - intros Hw. pose proof (writeOpCode_Ok st st' x Hw) as (Hop & Hn & Hs & Hfit).
    split; [auto|].
    rewrite writeOpCode_bytes in Hw by assumption. congruence.
  - intros [(Hop & Hn & Hs & Hfit) ->]. apply writeOpCode_bytes; assumption.
Qed.

(** X5. A successful [writeOpCode] changes nothing outside the bytes of the
    instruction: the buffer keeps its length, and every byte before the
    cursor or at and after the new cursor is what it was. *)
Theorem writeOpCode_frame (st st' : State) (x : Instruction) :
  writeOpCode st x = Ok st' ->
  Buffer.length (buffer st') = Buffer.length (buffer st)
  /\ scan st' = scan st + encoded_length x
  /\ forall i, i < scan st \/ scan st' <= i ->
               Buffer.get (buffer st') i = Buffer.get (buffer st) i.
Proof.
  intros Hw. pose proof (writeOpCode_Ok st st' x Hw) as (Hop & Hn & Hs & Hfit).
  rewrite writeOpCode_bytes in Hw by assumption. injection Hw as <-.
  cbn [buffer scan].
  assert (Hlen : (Z.to_nat (scan st) + List.length (encodeOne x)
                  <= List.length (buffer st))%nat)
    by (unfold encoded_length, Buffer.length in Hfit; lia).
  split; [unfold Buffer.length; rewrite length_splice by exact Hlen; reflexivity|].
  split; [reflexivity|].
  intros i Hi. unfold Buffer.get. destruct (Z.ltb_spec i 0); [reflexivity|].
  rewrite lookup_splice by exact Hlen. unfold encoded_length in Hi.
  destruct (Nat.ltb_spec (Z.to_nat i) (Z.to_nat (scan st))); [reflexivity|].
  destruct (Nat.ltb_spec (Z.to_nat i)
              (Z.to_nat (scan st) + List.length (encodeOne x)));
    [lia | reflexivity].
Qed.

Lemma writeOpCode_frame_witness :
  let st := {| buffer := [7; 7; 7; 7; 7; 7; 7; 7]; scan := 1; endoffset := 8 |} in
  let st' := {| buffer := [7; 0; 2; 0; 0; 1; 0; 7]; scan := 7; endoffset := 8 |} in
  Buffer.length (buffer st') = Buffer.length (buffer st)
  /\ scan st' = scan st + encoded_length (instruction_of push_int (ImmNumber 256))
  /\ forall i, i < scan st \/ scan st' <= i ->
               Buffer.get (buffer st') i = Buffer.get (buffer st) i.
Proof.
  intros st st'.
  apply (writeOpCode_frame st st' (instruction_of push_int (ImmNumber 256))).
  reflexivity.
Defined.

(** X6. Two instructions written one after the other are read back one
    after the other: the second write does not disturb the first
    instruction, and the first read stops exactly where the second
    instruction starts. *)
Theorem write_two_read_two (table : CS2OpcodeMappings.t) (st : State)
    (streamEnd : Z) (x y : Instruction) :
  0 <= opcode x < 65536 -> kind_matches table x -> terminable (imm_obj x) ->
  0 <= opcode y < 65536 -> kind_matches table y -> terminable (imm_obj y) ->
  0 <= scan st ->
  scan st + encoded_length x + encoded_length y <= Buffer.length (buffer st) ->
  scan st + encoded_length x + encoded_length y <= streamEnd ->
  exists st1 st2,
    writeOpCode st x = Ok st1 /\ writeOpCode st1 y = Ok st2 /\
    exists r1 s1 log1 r2 s2 log2,
      readOpcode table
        {| buffer := buffer st2; scan := scan st; endoffset := streamEnd |}
      = Ok (r1, s1, log1)
      /\ readOpcode table s1 = Ok (r2, s2, log2)
      /\ opcode r1 = opcode x /\ imm_obj r1 = imm_obj x
      /\ opcode r2 = opcode y /\ imm_obj r2 = imm_obj y
      /\ scan s1 = scan st1 /\ scan s2 = scan st2.
Proof.
  intros Hox Hkx Htx Hoy Hky Hty Hs Hroom Hend.
  destruct st as [b s e]. cbn [buffer scan endoffset] in *.
  assert (Hx0 : 0 <= encoded_length x) by (unfold encoded_length; lia).
  assert (Hy0 : 0 <= encoded_length y) by (unfold encoded_length; lia).
  assert (Hoff : exists off : nat, s = Z.of_nat off)
    by (exists (Z.to_nat s); lia).
  destruct Hoff as [off ->].
  set (nx := List.length (encodeOne x)) in *.
  assert (Hnx : encoded_length x = Z.of_nat nx) by reflexivity.
  assert (Hlen : (off + nx + List.length (encodeOne y) <= List.length b)%nat)
    by (unfold encoded_length, Buffer.length in *; lia).
  rewrite (writeOpCode_bytes _ x); cbn [buffer scan endoffset];
    [ | assumption | destruct Hkx; assumption | lia | lia ].
  do 2 eexists. split; [reflexivity|].
  rewrite writeOpCode_bytes; cbn [buffer scan endoffset];
    [ | assumption | destruct Hky; assumption | lia
      | unfold Buffer.length in *; rewrite length_splice by lia; lia ].
  split; [reflexivity|].
  rewrite Nat2Z.id.
  replace (Z.to_nat (Z.of_nat off + encoded_length x)) with (off + nx)%nat
    by lia.
  (* the first instruction, under the bytes of the second *)
  destruct (read_back table
              {| buffer := splice b (off + nx) (encodeOne y);
                 scan := Z.of_nat off; endoffset := streamEnd |}
              streamEnd x)
    as (r1 & log1 & Hr1 & Ho1 & Hi1 & _);
    cbn [buffer scan endoffset];
    [assumption | assumption | assumption | lia
     | unfold Buffer.length in *; rewrite length_splice by lia; lia
     | lia |].
  cbn [buffer scan] in Hr1. rewrite Nat2Z.id in Hr1.
  rewrite (splice_before b off (off + nx)) in Hr1 by (reflexivity || lia).
  rewrite <- (splice_then b off (off + nx)) in Hr1 by (reflexivity || lia).
  (* the second instruction, after the bytes of the first *)
  destruct (read_back table
              {| buffer := splice b off (encodeOne x);
                 scan := Z.of_nat off + encoded_length x;
                 endoffset := streamEnd |}
              streamEnd y)
    as (r2 & log2 & Hr2 & Ho2 & Hi2 & _);
    cbn [buffer scan endoffset];
    [assumption | assumption | assumption | lia
     | unfold Buffer.length in *; rewrite length_splice by lia; lia
     | lia |].
  cbn [buffer scan] in Hr2.
  replace (Z.to_nat (Z.of_nat off + encoded_length x)) with (off + nx)%nat
    in Hr2 by lia.
  exists r1. eexists. exists log1, r2. eexists. exists log2.
  split; [exact Hr1|]. split; [exact Hr2|].
  cbn [scan]. repeat split; assumption || lia.
Qed.

Lemma write_two_read_two_witness :
  let st := {| buffer := Buffer.alloc 12; scan := 1; endoffset := 12 |} in
  let x := instruction_of push_string (ImmString (lit "hi")) in
  let y := instruction_of push_int (ImmNumber (-7)) in
  exists st1 st2,
    writeOpCode st x = Ok st1 /\ writeOpCode st1 y = Ok st2 /\
    exists r1 s1 log1 r2 s2 log2,
      readOpcode sample_table
        {| buffer := buffer st2; scan := scan st; endoffset := 12 |}
      = Ok (r1, s1, log1)
      /\ readOpcode sample_table s1 = Ok (r2, s2, log2)
      /\ opcode r1 = opcode x /\ imm_obj r1 = imm_obj x
      /\ opcode r2 = opcode y /\ imm_obj r2 = imm_obj y
      /\ scan s1 = scan st1 /\ scan s2 = scan st2.
Proof.
  intros st x y.
  apply (write_two_read_two sample_table st 12 x y).
  - vm_compute; easy.
  - split; [reflexivity | exact I].
  - split; [vm_compute; easy | repeat constructor; discriminate].
  - vm_compute; easy.
  - split; [reflexivity | vm_compute; easy].
  - exact I.
  - vm_compute; easy.
  - vm_compute; easy.
  - vm_compute; easy.
Defined.

(** X7. Decoding is stable under re-encoding: an instruction that
    [readOpcode] returned from a buffer of bytes, written with [writeOpCode]
    wherever there is room, is read back as the very same instruction, with
    the cursor where the write left it. *)
Theorem reencode_decoded_instruction (table : CS2OpcodeMappings.t)
    (st st' : State) (r : Instruction) (log : list jsstring)
    (out : State) (streamEnd : Z) :
  Forall byte (buffer st) ->
  readOpcode table st = Ok (r, st', log) ->
  0 <= scan out ->
  scan out + encoded_length r <= Buffer.length (buffer out) ->
  scan out + encoded_length r <= streamEnd ->
  exists out' log',
    writeOpCode out r = Ok out' /\
    readOpcode table
      {| buffer := buffer out'; scan := scan out; endoffset := streamEnd |}
    = Ok (r, {| buffer := buffer out'; scan := scan out';
                endoffset := streamEnd |}, log').
Proof.
  intros Hb Hr Hs Hroom Hend.
  destruct (Buffer.readUInt16BE (buffer st) (scan st)) as [op|e] eqn:Hop;
    [|unfold readOpcode in Hr; rewrite Hop in Hr; discriminate].
  assert (Hcanon : 0 <= opcode r < 65536 /\ kind_matches table r
                   /\ terminable (imm_obj r) /\ described_by table r).
  { pose proof (readUInt16BE_Ok _ _ _ Hop) as (Hs0 & Hlen & Hval).
    pose proof (uint16_at_bounds (buffer st) (scan st) Hb) as Hrange.
    rewrite <- Hval in Hrange.
    pose proof (readOpcode_by_kind table st op Hop) as Hk.
    destruct (implied_kind table op) eqn:Hkind.
    - destruct Hk as (r0 & log0 & Hr0 & Ho & _ & Hi & Hd).
      rewrite Hr0 in Hr. injection Hr as <- <- <-.
      rewrite Ho. unfold kind_matches. rewrite Hi, Ho, Hkind.
      split; [lia|]. split; [split; [reflexivity | exact I]|].
      split; [exact I | exact Hd].
    - destruct (Buffer.readInt32BE (buffer st) (scan st + 2)) as [n|e] eqn:Hn;
        [|congruence].
      destruct Hk as (r0 & Hr0 & Ho & _ & Hi & Hd).
      rewrite Hr0 in Hr. injection Hr as <- <- <-.
      rewrite Ho. unfold kind_matches. rewrite Hi, Ho, Hkind.
      split; [lia|]. split; [split; [reflexivity|]|].
      + exact (readInt32BE_int32 _ _ _ Hb Hn).
      + split; [exact I | exact Hd].
    - cbv zeta in Hk. destruct Hk as (r0 & Hr0 & Ho & _ & Hi & Hd).
      rewrite Hr0 in Hr. injection Hr as <- <- <-.
      rewrite Ho. unfold kind_matches. rewrite Hi, Ho, Hkind.
      cbn [kind_of terminable].
      split; [lia|]. split; [split; [reflexivity | exact I]|].
      split; [|exact Hd].
      apply toString_clean; [exact Hb | lia |].
      intros i Hi'. eapply scan_loop_passes. exact Hi'. }
  destruct Hcanon as (Hrange & Hkm & Hterm & Hdesc).
  rewrite writeOpCode_bytes by (destruct Hkm; assumption).
  destruct (read_back table out streamEnd r Hrange Hkm Hterm Hs Hroom Hend)
    as (r' & log' & Hread & _ & _ & _ & Hsame).
  rewrite (Hsame Hdesc) in Hread.
  do 2 eexists. split; [reflexivity|]. cbn [buffer scan]. exact Hread.
Qed.

Lemma reencode_decoded_instruction_witness :
  let r := instruction_of push_string (ImmString [104; 65533; 105]) in
  let out := {| buffer := Buffer.alloc 10; scan := 2; endoffset := 10 |} in
  exists out' log',
    writeOpCode out r = Ok out' /\
    readOpcode sample_table
      {| buffer := buffer out'; scan := scan out; endoffset := 10 |}
    = Ok (r, {| buffer := buffer out'; scan := scan out'; endoffset := 10 |},
          log').
Proof.
  intros r out.
  apply (reencode_decoded_instruction sample_table
           {| buffer := [0; 1; 104; 255; 105; 0]; scan := 0; endoffset := 6 |}
           {| buffer := [0; 1; 104; 255; 105; 0]; scan := 6; endoffset := 6 |}
           r [] out 10).
  - repeat constructor; vm_compute; easy.
  - reflexivity.
  - vm_compute; easy.
  - vm_compute; easy.
  - vm_compute; easy.
Defined.

(* ===================================================================== *)
(** ** More on the opcode table *)

Section TableExtras.

Import CS2OpcodeMappings.

Implicit Types (T : CS2OpcodeMappings.t) (ms : list CS2OpcodeMapping)
  (m : CS2OpcodeMapping).

(** Where an entry of a table built by [set] comes from. *)
Lemma mappings_foldl_Some T ms (op : Z) m :
  mappings (foldl set T ms) !! op = Some m ->
  (m ∈ ms /\ map_opcode m = op) \/ mappings T !! op = Some m.
Proof.
  revert T. induction ms as [|m0 ms IH]; intros T H; [right; exact H|].
  cbn [foldl] in H. apply IH in H as [[Hin Hop] | H].
  - left. split; [right; exact Hin | exact Hop].
  - cbn [set mappings] in H.
    destruct (decide (map_opcode m0 = op)) as [<-|Hne].
    + rewrite lookup_insert_eq in H. injection H as <-.
      left. split; [left | reflexivity].
    + rewrite lookup_insert_ne in H by exact Hne. right. exact H.
Qed.

Lemma names_foldl_Some T ms (nm : jsstring) (op : Z) :
  nameToOpcode (foldl set T ms) !! nm = Some op ->
  (exists m, m ∈ ms /\ map_name m = nm /\ map_opcode m = op)
  \/ nameToOpcode T !! nm = Some op.
Proof.
  revert T. induction ms as [|m0 ms IH]; intros T H; [right; exact H|].
  cbn [foldl] in H. apply IH in H as [(m & Hin & Hn & Hop) | H].
  - left. exists m. split; [right; exact Hin | auto].
  - cbn [set nameToOpcode] in H.
    destruct (decide (map_name m0 = nm)) as [<-|Hne].
    + rewrite lookup_insert_eq in H. injection H as <-.
      left. exists m0. split; [left | auto].
    + rewrite lookup_insert_ne in H by exact Hne. right. exact H.
Qed.

(** A later table shadows an earlier one, entry by entry. *)
Lemma mappings_foldl_over T ms (op : Z) :
  mappings (foldl set T ms) !! op
  = match mappings (foldl set empty ms) !! op with
    | Some m => Some m
    | None => mappings T !! op
    end.
Proof.
  revert T. induction ms as [|m0 ms IH] using rev_ind; intros T.
  - cbn. rewrite lookup_empty. reflexivity.
  - rewrite !foldl_app. cbn [foldl set mappings].
    destruct (decide (map_opcode m0 = op)) as [<-|Hne].
    + rewrite !lookup_insert_eq. reflexivity.
    + rewrite !lookup_insert_ne by exact Hne. apply IH.
Qed.

Lemma names_foldl_over T ms (nm : jsstring) :
  nameToOpcode (foldl set T ms) !! nm
  = match nameToOpcode (foldl set empty ms) !! nm with
    | Some op => Some op
    | None => nameToOpcode T !! nm
    end.
Proof.
  revert T. induction ms as [|m0 ms IH] using rev_ind; intros T.
  - cbn. rewrite lookup_empty. reflexivity.
  - rewrite !foldl_app. cbn [foldl set nameToOpcode].
    destruct (decide (map_name m0 = nm)) as [<-|Hne].
    + rewrite !lookup_insert_eq. reflexivity.
    + rewrite !lookup_insert_ne by exact Hne. apply IH.
Qed.

(** With no opcode declared twice, every declared definition is found
    under its opcode; likewise for names. *)
Lemma mappings_foldl_unique ms m :
  NoDup (map_opcode <$> ms) -> m ∈ ms ->
  mappings (foldl set empty ms) !! map_opcode m = Some m.
Proof.
  intros Hnd Hin. apply list_elem_of_split in Hin as (l1 & l2 & ->).
  rewrite foldl_app. cbn [foldl].
  rewrite mappings_kept.
  - cbn [set mappings]. apply lookup_insert_eq.
  - intros m' Hm' Heq. rewrite fmap_app, fmap_cons in Hnd.
    apply NoDup_app in Hnd as (_ & _ & Hnd). apply NoDup_cons in Hnd as [Hnot _].
    apply Hnot. rewrite <- Heq. apply list_elem_of_fmap. eauto.
Qed.

Lemma names_foldl_unique ms m :
  NoDup (map_name <$> ms) -> m ∈ ms ->
  nameToOpcode (foldl set empty ms) !! map_name m = Some (map_opcode m).
Proof.
  intros Hnd Hin. apply list_elem_of_split in Hin as (l1 & l2 & ->).
  rewrite foldl_app. cbn [foldl].
  rewrite names_kept.
  - cbn [set nameToOpcode]. apply lookup_insert_eq.
  - intros m' Hm' Heq. rewrite fmap_app, fmap_cons in Hnd.
    apply NoDup_app in Hnd as (_ & _ & Hnd). apply NoDup_cons in Hnd as [Hnot _].
    apply Hnot. rewrite <- Heq. apply list_elem_of_fmap. eauto.
Qed.

(** *** White space around a line *)

Lemma trimStart_blank (pre s : jsstring) :
  blank pre -> JsString.trimStart (pre ++ s) = JsString.trimStart s.
Proof.
  induction 1 as [|c pre Hc Hpre IH]; [reflexivity|].
  cbn [app JsString.trimStart]. rewrite Hc. exact IH.
Qed.

Lemma trimStart_blank_nil (s : jsstring) :
  blank s -> JsString.trimStart s = [].
Proof.
  intros H. rewrite <- (app_nil_r s). rewrite trimStart_blank by exact H.
  reflexivity.
Qed.

Lemma trimEnd_blank (s post : jsstring) :
  blank post -> JsString.trimEnd (s ++ post) = JsString.trimEnd s.
Proof.
  intros H. unfold JsString.trimEnd. rewrite rev_app_distr.
  rewrite trimStart_blank by (apply Forall_rev, H). reflexivity.
Qed.

(** Trimming the start of [s ++ t] either eats all of [s] or stops
    inside it. *)
Lemma trimStart_app (s t : jsstring) :
  (blank s /\ JsString.trimStart (s ++ t) = JsString.trimStart t)
  \/ JsString.trimStart (s ++ t) = JsString.trimStart s ++ t.
Proof.
  induction s as [|c s IH]; [left; split; [constructor | reflexivity]|].
  cbn [app JsString.trimStart]. destruct (is_whitespace c) eqn:Hc.
  - destruct IH as [[Hb Ht] | Hs]; [left | right; exact Hs].
    split; [constructor; assumption | exact Ht].
  - right. reflexivity.
Qed.

Lemma trim_padding (pre line post : jsstring) :
  blank pre -> blank post ->
  JsString.trim (pre ++ line ++ post) = JsString.trim line.
Proof.
  intros Hpre Hpost. unfold JsString.trim.
  rewrite trimStart_blank by exact Hpre.
  destruct (trimStart_app line post) as [[Hline Heq] | Heq]; rewrite Heq.
  - rewrite (trimStart_blank_nil post Hpost), (trimStart_blank_nil line Hline).
    reflexivity.
  - apply trimEnd_blank, Hpost.
Qed.

(** *** Splitting into lines *)

Lemma split_on_nonempty (sep : Z) (s : jsstring) :
  JsString.split_on sep s <> [].
Proof.
  induction s as [|c s IH]; cbn [JsString.split_on]; [discriminate|].
  destruct (c =? sep); [discriminate|].
  destruct (JsString.split_on sep s); discriminate.
Qed.

Lemma split_on_app (sep : Z) (a b : jsstring) :
  JsString.split_on sep (a ++ sep :: b)
  = JsString.split_on sep a ++ JsString.split_on sep b.
Proof.
  induction a as [|c a IH]; cbn [app JsString.split_on].
  - rewrite Z.eqb_refl. reflexivity.
  - destruct (c =? sep); [rewrite IH; reflexivity|].
    rewrite IH.
    destruct (JsString.split_on sep a) as [|cur rest] eqn:Ha;
      [exfalso; exact (split_on_nonempty _ _ Ha)|].
    reflexivity.
Qed.

End TableExtras.

(** *** The table as a whole *)

(** X8. Every entry of a parsed table comes from a line of the file: a
    definition found under an opcode carries that opcode and is what some
    line declares, a name maps to the opcode of a definition some line
    declares under that name, and [hasOpcode] holds exactly of the opcodes
    the lines declare. *)
Theorem parseFromString_entries_declared (content : jsstring) :
  let lines := JsString.split_on 10 content in
  let table := (parseFromString content).1 in
  (forall op m,
     getMapping table op = Some m ->
     map_opcode m = op /\
     exists line, line ∈ lines /\ parseLine line = Some m)
  /\
  (forall name op,
     getOpcodeByName table name = Some op ->
     exists line m, line ∈ lines /\ parseLine line = Some m /\
                    map_name m = name /\ map_opcode m = op)
  /\
  (forall op, hasOpcode table op = true <-> op ∈ declared_opcodes lines).
Proof.
  intros lines table. subst table. unfold parseFromString, parseLines.
  cbn [fst]. fold lines. rewrite foldl_step_declared.
  assert (Hdecl : forall m, m ∈ declared lines ->
            exists line, line ∈ lines /\ parseLine line = Some m).
  { intros m Hm. unfold declared in Hm.
    apply list_elem_of_omap in Hm as (line & Hin & Hp). eauto. }
  split; [|split].
  - intros op m H. unfold getMapping in H.
    apply mappings_foldl_Some in H as [[Hin Hop] | H].
    + split; [exact Hop | apply Hdecl, Hin].
    + cbn in H. rewrite lookup_empty in H. discriminate.
  - intros name op H. unfold getOpcodeByName in H.
    apply names_foldl_Some in H as [(m & Hin & Hn & Hop) | H].
    + destruct (Hdecl m Hin) as (line & Hl & Hp). eauto 10.
    + cbn in H. rewrite lookup_empty in H. discriminate.
  - intros op. unfold hasOpcode. rewrite bool_decide_eq_true.
    rewrite <- elem_of_dom, dom_mappings_foldl. cbn [empty mappings].
    rewrite dom_empty_L, (left_id_L ∅ (∪)), elem_of_list_to_set.
    reflexivity.
Qed.

(** X9. When no opcode and no name is declared twice, the two maps of the
    table agree: every declared definition is found under its opcode and
    its name leads to that opcode, and a name maps to an opcode exactly
    when the definition stored under that opcode carries the name. *)
Theorem lookups_agree_when_unique (content : jsstring) :
  let lines := JsString.split_on 10 content in
  let table := (parseFromString content).1 in
  NoDup (map_opcode <$> declared lines) ->
  NoDup (map_name <$> declared lines) ->
  (forall m, m ∈ declared lines ->
     getMapping table (map_opcode m) = Some m /\
     getOpcodeByName table (map_name m) = Some (map_opcode m))
  /\
  (forall name op,
     getOpcodeByName table name = Some op <->
     exists m, getMapping table op = Some m /\ map_name m = name).
Proof.
  intros lines table Hops Hnames. subst table.
  unfold parseFromString, parseLines. cbn [fst]. fold lines.
  rewrite foldl_step_declared. unfold getMapping, getOpcodeByName.
  split.
  - intros m Hm. split.
    + apply mappings_foldl_unique; assumption.
    + apply names_foldl_unique; assumption.
  - intros name op. split.
    + intros H. apply names_foldl_Some in H as [(m & Hin & Hn & Hop) | H].
      * exists m. split; [|exact Hn]. rewrite <- Hop.
        apply mappings_foldl_unique; assumption.
      * cbn in H. rewrite lookup_empty in H. discriminate.
    + intros (m & H & Hn).
      apply mappings_foldl_Some in H as [[Hin Hop] | H].
      * rewrite <- Hn, <- Hop. apply names_foldl_unique; assumption.
      * cbn in H. rewrite lookup_empty in H. discriminate.
Qed.

Lemma lookups_agree_when_unique_witness :
  let content := lit ("7 push_int void int" ++ newline ++ "8 pop void")%string in
  let table := (parseFromString content).1 in
  (forall m, m ∈ declared (JsString.split_on 10 content) ->
     getMapping table (map_opcode m) = Some m /\
     getOpcodeByName table (map_name m) = Some (map_opcode m))
  /\
  (forall name op,
     getOpcodeByName table name = Some op <->
     exists m, getMapping table op = Some m /\ map_name m = name).
Proof.
  apply (lookups_agree_when_unique
           (lit ("7 push_int void int" ++ newline ++ "8 pop void")%string));
    apply (bool_decide_unpack _); vm_compute; exact I.
Defined.

(** X10. White space around the lines does not matter: a file whose lines
    are indented, or end in a carriage return, gives the same table. *)
Theorem parseLines_ignores_padding (lines lines' : list jsstring) :
  Forall2 padded lines lines' ->
  Forall2 (fun line line' => parseLine line' = parseLine line) lines lines'
  /\ parseLines lines' = parseLines lines.
Proof.
  intros H.
  assert (Hline : Forall2 (fun line line' => parseLine line' = parseLine line)
                    lines lines').
  { eapply Forall2_impl; [exact H|].
    intros line line' (pre & post & Hpre & Hpost & ->).
    unfold parseLine. rewrite trim_padding by assumption. reflexivity. }
  split; [exact Hline|].
  unfold parseLines. generalize empty as T. clear H.
  induction Hline as [|line line' lines lines' Hl _ IH]; intros T;
    [reflexivity|].
  cbn [foldl]. unfold step at 2 4. rewrite Hl. apply IH.
Qed.

Lemma parseLines_ignores_padding_witness :
  let lines := [lit "7 push_int void int"; lit "8 pop void"] in
  let lines' := [lit "7 push_int void int" ++ [13];
                 [9] ++ lit "8 pop void" ++ [13]] in
  Forall2 (fun line line' => parseLine line' = parseLine line) lines lines'
  /\ parseLines lines' = parseLines lines.
Proof.
  apply (parseLines_ignores_padding
           [lit "7 push_int void int"; lit "8 pop void"]
           [lit "7 push_int void int" ++ [13];
            [9] ++ lit "8 pop void" ++ [13]]).
  repeat constructor.
  - exists [], [13]. repeat constructor.
  - exists [9], [13]. repeat constructor.
Defined.

(** X11. Parsing two files joined by a line break gives the second file's
    table laid over the first one's: each lookup answers from the second
    file where it declares the key, and from the first file otherwise. *)
Theorem parseFromString_append (a b : jsstring) :
  let Ta := (parseFromString a).1 in
  let Tb := (parseFromString b).1 in
  let T := (parseFromString (a ++ 10 :: b)).1 in
  (forall op,
     getMapping T op
     = match getMapping Tb op with
       | Some m => Some m
       | None => getMapping Ta op
       end)
  /\
  (forall name,
     getOpcodeByName T name
     = match getOpcodeByName Tb name with
       | Some op => Some op
       | None => getOpcodeByName Ta name
       end).
Proof.
  intros Ta Tb T. subst Ta Tb T. unfold parseFromString, parseLines.
  cbn [fst]. rewrite split_on_app, foldl_app.
  rewrite (foldl_step_declared _ (JsString.split_on 10 b)).
  rewrite (foldl_step_declared empty (JsString.split_on 10 b)).
  unfold getMapping, getOpcodeByName. split.
  - intros op. apply mappings_foldl_over.
  - intros name. apply names_foldl_over.
Qed.

(* ===================================================================== *)
(** ** What counts as an opcode *)

Section OpcodeTokens.





End OpcodeTokens.



(* ===================================================================== *)
(** ** More on the record store *)

Section StoreOutcomes.

Lemma readUIntBE_3_inv (b : Buffer.t) (offset v : Z) :
  Buffer.readUIntBE b offset 3 = Ok v ->
  0 <= offset /\ offset + 3 <= Buffer.length b /\ v = uint24_at b offset.
Proof.
  unfold Buffer.readUIntBE, Buffer.readUInt24BE, Buffer.in_bounds.
  cbn [Z.eqb Pos.eqb].
  destruct (Z.leb_spec 0 offset), (Z.leb_spec (offset + 3) (Buffer.length b));
    cbn [andb]; intros Hv; try discriminate.
  injection Hv as <-. unfold uint24_at. repeat split; lia.
Qed.

(** How many bytes a positioned read delivers. *)
Lemma Fs_read_count (file buf : list Z) (length position : Z) :
  0 <= position -> 0 <= length ->
  (Fs.read file buf length position).1
  = Z.min length (Z.max 0 (Buffer.length file - position)).
Proof.
  intros Hp Hl. unfold Fs.read, Buffer.length. cbn [fst].
  rewrite length_take, length_drop. lia.
Qed.

Variables (disk : gmap (list Z) (list Z)) (this : LegacyFileSource.t).
Variables (major : Z) (indexPath : jsstring) (indexBuffer : Buffer.t).
Hypothesis registered : indexFiles this !! major = Some indexPath.
Hypothesis on_disk : disk !! indexPath = Some indexBuffer.

Lemma getFile_short (minor : Z) (dat : list Z) :
  disk !! datFile this = Some dat ->
  Forall byte indexBuffer ->
  0 <= minor -> minor * 6 + 6 <= Buffer.length indexBuffer ->
  0 < uint24_at indexBuffer (minor * 6) ->
  Buffer.length dat
    < uint24_at indexBuffer (minor * 6 + 3) + uint24_at indexBuffer (minor * 6) ->
  getFile disk this major minor
  = Err (FailedToReadFile major minor
           (ShortRead (uint24_at indexBuffer (minor * 6))
              (Z.max 0 (Buffer.length dat
                        - uint24_at indexBuffer (minor * 6 + 3))))).
Proof.
  intros Hdat Hbytes Hminor Hin Hsize Hshort.
  pose proof (uint24_at_bounds indexBuffer (minor * 6 + 3) Hbytes) as Hoff.
  unfold getFile, getFile_try, indexEntrySize, Fs.open, Fs.readFile.
  rewrite registered, on_disk. cbn [lift_fs rbind].
  rewrite (proj2 (Z.ltb_ge _ _)) by lia.
  rewrite !readUIntBE_3 by lia. cbn [lift_buffer rbind].
  rewrite (proj2 (Z.eqb_neq _ 0)) by lia.
  rewrite Hdat. cbn [lift_fs rbind].
  set (S := uint24_at indexBuffer (minor * 6)) in *.
  set (O := uint24_at indexBuffer (minor * 6 + 3)) in *.
  pose proof (Fs_read_count dat (Buffer.alloc S) S O) as Hcount.
  destruct (Fs.read dat (Buffer.alloc S) S O) as [bytesRead buffer].
  cbn [fst] in Hcount. rewrite Hcount by lia.
  rewrite (proj2 (Z.eqb_neq _ S)) by lia. cbn [negb].
  do 3 f_equal. lia.
Qed.

Lemma getFile_negative (minor : Z) :
  minor < 0 -> minor * 6 + 6 <= Buffer.length indexBuffer ->
  getFile disk this major minor
  = Err (FailedToReadFile major minor (BufferFault ERR_OUT_OF_RANGE)).
Proof.
  intros Hneg Hin.
  unfold getFile, getFile_try, indexEntrySize, Fs.readFile.
  rewrite registered, on_disk. cbn [lift_fs rbind].
  rewrite (proj2 (Z.ltb_ge _ _)) by lia.
  unfold Buffer.readUIntBE, Buffer.readUInt24BE, Buffer.in_bounds.
  cbn [Z.eqb Pos.eqb].
  rewrite (proj2 (Z.leb_gt 0 (minor * 6))) by lia. reflexivity.
Qed.

Lemma getFile_no_blob (minor : Z) :
  disk !! datFile this = None ->
  Forall byte indexBuffer ->
  0 <= minor -> minor * 6 + 6 <= Buffer.length indexBuffer ->
  0 < uint24_at indexBuffer (minor * 6) ->
  getFile disk this major minor
  = Err (FailedToReadFile major minor (FsFault ENOENT)).
Proof.
  intros Hdat Hbytes Hminor Hin Hsize.
  unfold getFile, getFile_try, indexEntrySize, Fs.open, Fs.readFile.
  rewrite registered, on_disk. cbn [lift_fs rbind].
  rewrite (proj2 (Z.ltb_ge _ _)) by lia.
  rewrite !readUIntBE_3 by lia. cbn [lift_buffer rbind].
  rewrite (proj2 (Z.eqb_neq _ 0)) by lia.
  rewrite Hdat. reflexivity.
Qed.

(** The listing, slot by slot. *)
Lemma getCacheIndex_listed :
  exists indices,
    getCacheIndex disk this major = Ok indices /\
    forall minor : nat,
      SparseArray.get indices minor
      = listed indexBuffer major
          (Z.to_nat (Buffer.length indexBuffer / 6)) minor.
Proof.
  unfold getCacheIndex, getCacheIndex_try, indexEntrySize, Fs.readFile.
  rewrite registered, on_disk. cbn [lift_fs rbind].
  set (L := Buffer.length indexBuffer).
  assert (HL : 0 <= L) by (unfold L, Buffer.length; lia).
  assert (Hq : 0 <= L / 6) by (apply Z.div_pos; lia).
  destruct (index_loop_spec indexBuffer major (Z.to_nat (L / 6)) 0 [])
    as (out & Hout & Hlen & Hget).
  - fold L. pose proof (Z.mul_div_le L 6). lia.
  - cbn. lia.
  - intros i. unfold listed. cbn. destruct i; reflexivity.
  - change (Z.of_nat 0) with 0 in Hout. rewrite Hout. exists out.
    split; [reflexivity|]. exact Hget.
Qed.

End StoreOutcomes.

(** X13. [getFile] succeeds only on a stored record: the id is not
    negative, its entry lies within the index, the stored size is strictly
    positive, the data file exists and holds the whole range, and the
    result is exactly that range. It never returns fewer bytes than the
    entry announces. *)
Theorem getFile_succeeds_only_on_stored_records
    (disk : gmap (list Z) (list Z)) (this : LegacyFileSource.t)
    (major minor : Z) (indexPath : jsstring) (indexBuffer bytes : list Z) :
  indexFiles this !! major = Some indexPath ->
  disk !! indexPath = Some indexBuffer ->
  Forall byte indexBuffer ->
  getFile disk this major minor = Ok bytes ->
  let S := uint24_at indexBuffer (minor * 6) in
  let O := uint24_at indexBuffer (minor * 6 + 3) in
  0 <= minor /\ minor * 6 + 6 <= Buffer.length indexBuffer /\ 0 < S /\
  exists dat,
    disk !! datFile this = Some dat /\ O + S <= Buffer.length dat /\
    bytes = Buffer.slice dat O (O + S) /\ Buffer.length bytes = S.
Proof.
  intros Hreg Hidx Hbytes H S O.
  unfold getFile in H. rewrite Hreg in H.
  destruct (getFile_try disk this indexPath major minor) as [buf|e] eqn:Ht;
    [|discriminate].
  injection H as ->.
  unfold getFile_try, indexEntrySize, Fs.open, Fs.readFile in Ht.
  rewrite Hidx in Ht. cbn [lift_fs rbind] in Ht.
  destruct (Z.ltb_spec (Buffer.length indexBuffer) (minor * 6 + 6)) as [|Hin];
    [discriminate|].
  destruct (Buffer.readUIntBE indexBuffer (minor * 6) 3) as [size|] eqn:Hs;
    cbn [lift_buffer rbind] in Ht; [|discriminate].
  destruct (Buffer.readUIntBE indexBuffer (minor * 6 + 3) 3) as [offset|] eqn:Ho;
    cbn [lift_buffer rbind] in Ht; [|discriminate].
  apply readUIntBE_3_inv in Hs as (Hminor & _ & ->).
  apply readUIntBE_3_inv in Ho as (_ & _ & ->).
  fold S in Ht. fold O in Ht.
  pose proof (uint24_at_bounds indexBuffer (minor * 6) Hbytes) as HS.
  pose proof (uint24_at_bounds indexBuffer (minor * 6 + 3) Hbytes) as HO.
  fold S in HS. fold O in HO.
  destruct (Z.eqb_spec S 0) as [|Hnz]; [discriminate|].
  destruct (disk !! datFile this) as [dat|] eqn:Hdat;
    cbn [lift_fs rbind] in Ht; [|discriminate].
  pose proof (Fs_read_count dat (Buffer.alloc S) S O) as Hcount.
  destruct (Fs.read dat (Buffer.alloc S) S O) as [bytesRead buffer] eqn:Hread.
  cbn [fst] in Hcount.
  destruct (Z.eqb_spec bytesRead S) as [Heq|]; cbn [negb] in Ht; [|discriminate].
  injection Ht as <-.
  rewrite Hcount in Heq by lia.
  assert (Hfit : O + S <= Buffer.length dat) by lia.
  rewrite Fs_read_full in Hread by lia. injection Hread as _ <-.
  split; [lia|]. split; [exact Hin|]. split; [lia|].
  exists dat. split; [reflexivity|]. split; [exact Hfit|].
  split; [reflexivity|].
  unfold Buffer.slice, Buffer.length in *.
  rewrite length_take, length_drop. lia.
Qed.

Lemma getFile_succeeds_only_on_stored_records_witness :
  0 <= 1 /\ 1 * 6 + 6 <= Buffer.length sample_index /\
  0 < uint24_at sample_index (1 * 6) /\
  exists dat,
    sample_disk !! datFile sample_store = Some dat /\
    uint24_at sample_index (1 * 6 + 3) + uint24_at sample_index (1 * 6)
      <= Buffer.length dat /\
    [12; 13; 14]
    = Buffer.slice dat (uint24_at sample_index (1 * 6 + 3))
        (uint24_at sample_index (1 * 6 + 3) + uint24_at sample_index (1 * 6)) /\
    Buffer.length [12; 13; 14] = uint24_at sample_index (1 * 6).
Proof.
  apply (getFile_succeeds_only_on_stored_records sample_disk sample_store 2 1
           (lit "cache/main_file_cache.idx2") sample_index [12; 13; 14]);
    try reflexivity.
  unfold byte. repeat constructor; lia.
Defined.

(** X14. A record whose bytes the data file cannot deliver is an error,
    never a shorter result: with a well-formed entry of positive size,
    [getFile] fails with ENOENT when the data file is missing, and with
    the expected and the delivered byte counts when the data file ends
    before the record does. *)
Theorem getFile_blob_unavailable
    (disk : gmap (list Z) (list Z)) (this : LegacyFileSource.t)
    (major minor : Z) (indexPath : jsstring) (indexBuffer : list Z) :
  indexFiles this !! major = Some indexPath ->
  disk !! indexPath = Some indexBuffer ->
  Forall byte indexBuffer ->
  0 <= minor -> minor * 6 + 6 <= Buffer.length indexBuffer ->
  let S := uint24_at indexBuffer (minor * 6) in
  let O := uint24_at indexBuffer (minor * 6 + 3) in
  0 < S ->
  (disk !! datFile this = None ->
   getFile disk this major minor
   = Err (FailedToReadFile major minor (FsFault ENOENT)))
  /\
  (forall dat,
     disk !! datFile this = Some dat ->
     Buffer.length dat < O + S ->
     getFile disk this major minor
     = Err (FailedToReadFile major minor
              (ShortRead S (Z.max 0 (Buffer.length dat - O))))).
Proof.
  intros Hreg Hidx Hbytes Hminor Hin S O HS. split.
  - intros Hdat.
    apply (getFile_no_blob disk this major indexPath indexBuffer); assumption.
  - intros dat Hdat Hshort.
    apply (getFile_short disk this major indexPath indexBuffer); assumption.
Qed.

Lemma getFile_blob_unavailable_witness :
  let disk :=
    <[lit "cache/main_file_cache.dat2" := [10; 11; 12; 13]]> sample_disk in
  (disk !! datFile sample_store = None ->
   getFile disk sample_store 2 1
   = Err (FailedToReadFile 2 1 (FsFault ENOENT)))
  /\
  (forall dat,
     disk !! datFile sample_store = Some dat ->
     Buffer.length dat
       < uint24_at sample_index (1 * 6 + 3) + uint24_at sample_index (1 * 6) ->
     getFile disk sample_store 2 1
     = Err (FailedToReadFile 2 1
              (ShortRead (uint24_at sample_index (1 * 6))
                 (Z.max 0 (Buffer.length dat
                           - uint24_at sample_index (1 * 6 + 3)))))).
Proof.
  apply (getFile_blob_unavailable
           (<[lit "cache/main_file_cache.dat2" := [10; 11; 12; 13]]> sample_disk)
           sample_store 2 1 (lit "cache/main_file_cache.idx2") sample_index);
    try (vm_compute; easy).
  unfold byte. repeat constructor; lia.
Defined.

(** The truncated data file of the sample: 3 bytes expected from offset 2,
    2 delivered. *)
Example getFile_truncated_sample :
  getFile (<[lit "cache/main_file_cache.dat2" := [10; 11; 12; 13]]> sample_disk)
    sample_store 2 1
  = Err (FailedToReadFile 2 1 (ShortRead 3 2)).
Proof. vm_compute. reflexivity. Qed.

(** X15. The listing and [getFile] agree. Where [getCacheIndex] has an
    entry, the entry carries the category, the id and a positive size,
    [getFile] does not report the record as missing, and what [getFile]
    returns has exactly the listed size. Where the listing has a hole or
    has ended, [getFile] reports the record as not found. *)
Theorem listing_agrees_with_getFile
    (disk : gmap (list Z) (list Z)) (this : LegacyFileSource.t)
    (major : Z) (indexPath : jsstring) (indexBuffer : list Z)
    (indices : list (option CacheIndex.t)) :
  indexFiles this !! major = Some indexPath ->
  disk !! indexPath = Some indexBuffer ->
  Forall byte indexBuffer ->
  getCacheIndex disk this major = Ok indices ->
  forall minor : nat,
    match SparseArray.get indices minor with
    | Some e =>
      CacheIndex.major e = major /\ CacheIndex.minor e = Z.of_nat minor /\
      0 < CacheIndex.size e /\
      (forall err, getFile disk this major (Z.of_nat minor) = Err err ->
                   ~ RecordNotFound err) /\
      (forall bytes, getFile disk this major (Z.of_nat minor) = Ok bytes ->
                     Buffer.length bytes = CacheIndex.size e)
    | None =>
      exists err, getFile disk this major (Z.of_nat minor) = Err err /\
                  RecordNotFound err
    end.
Proof.
  intros Hreg Hidx Hbytes Hlist minor.
  destruct (getCacheIndex_listed disk this major indexPath indexBuffer Hreg Hidx)
    as (out & Hout & Hget).
  rewrite Hout in Hlist. injection Hlist as <-. rewrite Hget. unfold listed.
  set (L := Buffer.length indexBuffer).
  assert (HL : 0 <= L) by (unfold L, Buffer.length; lia).
  pose proof (Z.div_mod L 6 ltac:(lia)) as Hdm.
  pose proof (Z.mod_pos_bound L 6 ltac:(lia)) as Hmod.
  assert (Hq : 0 <= L / 6) by (apply Z.div_pos; lia).
  set (S := uint24_at indexBuffer (Z.of_nat minor * 6)).
  set (O := uint24_at indexBuffer (Z.of_nat minor * 6 + 3)).
  pose proof (uint24_at_bounds indexBuffer (Z.of_nat minor * 6) Hbytes) as HS.
  pose proof (uint24_at_bounds indexBuffer (Z.of_nat minor * 6 + 3) Hbytes) as HO.
  fold S in HS. fold O in HO.
  destruct (Nat.ltb_spec minor (Z.to_nat (L / 6))) as [Hlt|Hge]; cbn [andb].
  - assert (Hin : Z.of_nat minor * 6 + 6 <= L) by lia.
    destruct (Z.ltb_spec 0 S) as [Hpos|Hzero].
    + cbn [entry CacheIndex.major CacheIndex.minor CacheIndex.size].
      split; [reflexivity|]. split; [reflexivity|]. split; [exact Hpos|].
      destruct (disk !! datFile this) as [dat|] eqn:Hdat.
      * destruct (Z.le_gt_cases (O + S) (Buffer.length dat)) as [Hfit|Hshort].
        -- rewrite (getFile_found disk this major indexPath indexBuffer Hreg
                      Hidx (Z.of_nat minor) dat) by (assumption || lia).
           split; [discriminate|]. intros bytes Hb. injection Hb as <-.
           unfold Buffer.slice, Buffer.length in *.
           rewrite length_take, length_drop. lia.
        -- rewrite (getFile_short disk this major indexPath indexBuffer Hreg
                      Hidx (Z.of_nat minor) dat) by (assumption || lia).
           split; [|discriminate]. intros err Herr. injection Herr as <-.
           cbn. tauto.
      * rewrite (getFile_no_blob disk this major indexPath indexBuffer Hreg
                   Hidx (Z.of_nat minor)) by (assumption || lia).
        split; [|discriminate]. intros err Herr. injection Herr as <-.
        cbn. tauto.
    + eexists. split.
      * apply (getFile_zero_size disk this major indexPath indexBuffer);
          (assumption || lia).
      * exact I.
  - eexists. split.
    + apply (getFile_past_end disk this major indexPath indexBuffer);
        [assumption | assumption | fold L; lia].
    + exact I.
Qed.

Lemma listing_agrees_with_getFile_witness :
  match SparseArray.get [None; Some (entry 2 1 3); Some (entry 2 2 1)] 1 with
  | Some e =>
    CacheIndex.major e = 2 /\ CacheIndex.minor e = Z.of_nat 1 /\
    0 < CacheIndex.size e /\
    (forall err, getFile sample_disk sample_store 2 (Z.of_nat 1) = Err err ->
                 ~ RecordNotFound err) /\
    (forall bytes, getFile sample_disk sample_store 2 (Z.of_nat 1) = Ok bytes ->
                   Buffer.length bytes = CacheIndex.size e)
  | None =>
    exists err, getFile sample_disk sample_store 2 (Z.of_nat 1) = Err err /\
                RecordNotFound err
  end.
Proof.
  refine (listing_agrees_with_getFile sample_disk sample_store 2
            (lit "cache/main_file_cache.idx2") sample_index
            [None; Some (entry 2 1 3); Some (entry 2 2 1)] _ _ _ _ 1%nat);
    try reflexivity.
  unfold byte. repeat constructor; lia.
Defined.

(* ===================================================================== *)
(** ** The index files of a store *)

Section IndexFiles.

Import Autocache.

Lemma strip_prefix_Some (prefix s rest : jsstring) :
  strip_prefix prefix s = Some rest <-> s = prefix ++ rest.
Proof.
  revert s. induction prefix as [|p prefix IH]; intros s; cbn [strip_prefix app].
  - split; [intros [= ->]; reflexivity | intros ->; reflexivity].
  - destruct s as [|c s]; [split; discriminate|].
    destruct (Z.eqb_spec c p) as [->|Hne].
    + rewrite IH. split; [intros ->; reflexivity | intros [= ->]; reflexivity].
    + split; [discriminate | intros [= Hc _]; contradiction].
Qed.

Lemma is_digit_spec (c : Z) : is_digit c = true <-> 48 <= c <= 57.
Proof. unfold is_digit. rewrite andb_true_iff, !Z.leb_le. reflexivity. Qed.

Lemma digits_numeral_iff (d : jsstring) :
  nonempty d && forallb is_digit d = true <-> numeral d.
Proof.
  unfold numeral. rewrite andb_true_iff, forallb_forall, Forall_forall.
  split; intros [Hne Hd]; split.
  - destruct d; [discriminate | discriminate].
  - intros c Hc. apply is_digit_spec, Hd, list_elem_of_In, Hc.
  - destruct d; [congruence | reflexivity].
  - intros c Hc. apply is_digit_spec, Hd, list_elem_of_In, Hc.
Qed.

Lemma idx_digits_Some (file digits : jsstring) :
  idx_digits file = Some digits
  <-> file = index_file_name digits /\ numeral digits.
Proof.
  unfold idx_digits, index_file_name.
  destruct (strip_prefix (lit "main_file_cache.idx") file) as [d|] eqn:Hp.
  - apply strip_prefix_Some in Hp. subst file.
    destruct (nonempty d && forallb is_digit d) eqn:Hd.
    + apply digits_numeral_iff in Hd. split.
      * intros [= ->]. split; [reflexivity | exact Hd].
      * intros [Heq _]. apply app_inv_head in Heq. congruence.
    + split; [discriminate|]. intros [Heq Hn].
      apply app_inv_head in Heq. subst d.
      apply digits_numeral_iff in Hn. congruence.
  - split; [discriminate|]. intros [Heq _].
    apply strip_prefix_Some in Heq. congruence.
Qed.

Lemma match_idx_digits (file : jsstring) :
  match_idx file = true <-> is_Some (idx_digits file).
Proof.
  unfold match_idx, idx_digits.
  destruct (strip_prefix (lit "main_file_cache.idx") file) as [d|].
  - destruct (nonempty d && forallb is_digit d).
    + split; [eauto | reflexivity].
    + split; [discriminate | intros [? [=]]].
  - split; [discriminate | intros [? [=]]].
Qed.

Variable resolve : list Z -> list Z -> list Z.
Variable cachedir : jsstring.

Lemma scan_file_index (m : gmap Z (list Z)) (digits : jsstring) :
  numeral digits ->
  scan_file resolve cachedir m (index_file_name digits)
  = <[numeral_value digits := resolve cachedir (index_file_name digits)]> m.
Proof.
  intros Hn. unfold scan_file.
  rewrite (proj2 (idx_digits_Some _ digits)) by (split; [reflexivity | exact Hn]).
  rewrite parseInt_numeral by exact Hn. reflexivity.
Qed.

Lemma scan_file_other (m : gmap Z (list Z)) (file : jsstring) :
  idx_digits file = None -> scan_file resolve cachedir m file = m.
Proof. intros H. unfold scan_file. rewrite H. reflexivity. Qed.

(** Either an index file, or a file the scan passes over. *)
Lemma scan_file_cases (file : jsstring) :
  (exists digits, file = index_file_name digits /\ numeral digits)
  \/ idx_digits file = None.
Proof.
  destruct (idx_digits file) as [d|] eqn:H; [left | right; reflexivity].
  exists d. apply idx_digits_Some, H.
Qed.


Lemma scan_foldl_mono (m : gmap Z (list Z)) (files : list jsstring) (major : Z) :
  is_Some (m !! major) ->
  is_Some (foldl (scan_file resolve cachedir) m files !! major).
Proof.
  revert m. induction files as [|f files IH]; intros m H; [exact H|].
  cbn [foldl]. apply IH.
  destruct (scan_file_cases f) as [(d & -> & Hn) | Hnone].
  - rewrite scan_file_index by exact Hn.
    rewrite lookup_insert_is_Some. destruct (decide (numeral_value d = major));
      [left; assumption | right; split; assumption].
  - rewrite scan_file_other by exact Hnone. exact H.
Qed.

Lemma scan_foldl_found (m : gmap Z (list Z)) (files : list jsstring)
    (digits : jsstring) :
  numeral digits -> index_file_name digits ∈ files ->
  is_Some (foldl (scan_file resolve cachedir) m files !! numeral_value digits).
Proof.
  intros Hn Hin. apply list_elem_of_split in Hin as (l1 & l2 & ->).
  rewrite foldl_app. cbn [foldl]. apply scan_foldl_mono.
  rewrite scan_file_index by exact Hn. rewrite lookup_insert_eq. eauto.
Qed.


(** *** Sorting the keys *)

Lemma StronglySorted_le_lt (l : list Z) :
  StronglySorted Z.le l -> NoDup l -> StronglySorted Z.lt l.
Proof.
  induction 1 as [|x l Hl IH Hx]; intros Hnd; constructor.
  - apply IH. apply NoDup_cons in Hnd as [_ Hnd]. exact Hnd.
  - apply NoDup_cons in Hnd as [Hnot _].
    rewrite List.Forall_forall in *. intros y Hy.
    specialize (Hx y Hy).
    assert (x <> y) by (intros ->; apply Hnot, list_elem_of_In, Hy). lia.
Qed.

End IndexFiles.


(** X17. [getAvailableMajors] lists the registered categories in strictly
    increasing order: a category is listed exactly when [hasMajor] holds of
    it, there are as many as registered index files, and for a category
    that is not listed [getFile] and [getCacheIndex] fail with "index file
    not found" whatever the disk holds. *)
Theorem getAvailableMajors_sorted_keys (this : LegacyFileSource.t) :
  StronglySorted Z.lt (getAvailableMajors this)
  /\
  (forall major,
     major ∈ getAvailableMajors this <-> hasMajor this major = true)
  /\
  List.length (getAvailableMajors this) = size (indexFiles this)
  /\
  (forall major,
     major ∉ getAvailableMajors this ->
     forall disk minor,
       getFile disk this major minor
       = Err (IndexFileNotFoundInLegacyCache major)
       /\ getCacheIndex disk this major = Err (IndexFileNotFound major)).
Proof.
  unfold getAvailableMajors.
  set (keys := elements (dom (indexFiles this))).
  assert (Hperm : merge_sort Z.le keys ≡ₚ keys) by apply merge_sort_Permutation.
  assert (Hmem : forall major,
            major ∈ merge_sort Z.le keys <-> is_Some (indexFiles this !! major)).
  { intros major. rewrite Hperm. unfold keys.
    rewrite elem_of_elements, elem_of_dom. reflexivity. }
  split; [|split; [|split]].
  - apply StronglySorted_le_lt.
    + apply StronglySorted_merge_sort; apply _.
    + rewrite Hperm. apply NoDup_elements.
  - intros major. rewrite Hmem. unfold hasMajor.
    rewrite bool_decide_eq_true. reflexivity.
  - rewrite Hperm. unfold keys. rewrite <- (size_dom (indexFiles this)).
    reflexivity.
  - intros major Hnot disk minor. rewrite Hmem in Hnot.
    apply eq_None_not_Some in Hnot.
    unfold getFile, getCacheIndex. rewrite Hnot. split; reflexivity.
Qed.

(** X18. [getFileArchive] on an entry of the listing of a category other
    than 0 returns, when it succeeds, the record [getFile] returns as a
    single sub-file: its id is the one sub-index the entry names, its size
    is the listed size, and the archive parser's answer plays no part. *)
Theorem getFileArchive_of_listed_entry (E : Type)
    (parseLegacyArchive : list Z -> Z -> bool -> result E (list SubFile))
    (disk : gmap (list Z) (list Z)) (this : LegacyFileSource.t)
    (major : Z) (indexPath : jsstring) (indexBuffer : list Z)
    (indices : list (option CacheIndex.t)) (minor : nat) (e : CacheIndex.t)
    (subs : list SubFile) :
  indexFiles this !! major = Some indexPath ->
  disk !! indexPath = Some indexBuffer ->
  Forall byte indexBuffer ->
  getCacheIndex disk this major = Ok indices ->
  SparseArray.get indices minor = Some e ->
  major <> 0 ->
  getFileArchive E parseLegacyArchive disk this e = Ok subs ->
  exists file,
    getFile disk this major (Z.of_nat minor) = Ok file /\
    subs = [{| sub_buffer := file; fileid := 0; namehash := None;
               sub_offset := 0; sub_size := CacheIndex.size e |}] /\
    Z.of_nat (List.length subs) = CacheIndex.subindexcount e /\
    fileid <$> subs = CacheIndex.subindices e.
Proof.
  intros Hreg Hidx Hbytes Hlist He Hmajor Harch.
  destruct (getCacheIndex_listed disk this major indexPath indexBuffer Hreg Hidx)
    as (out & Hout & Hget).
  rewrite Hout in Hlist. injection Hlist as <-. rewrite Hget in He.
  unfold listed in He.
  destruct ((minor <? Z.to_nat (Buffer.length indexBuffer / 6))%nat
            && (0 <? uint24_at indexBuffer (Z.of_nat minor * 6))) eqn:Hc;
    [|discriminate].
  apply andb_true_iff in Hc as [Hlt Hpos].
  apply Nat.ltb_lt in Hlt. apply Z.ltb_lt in Hpos.
  injection He as <-.
  unfold getFileArchive in Harch.
  cbn [entry CacheIndex.major CacheIndex.minor] in Harch.
  cbn [entry CacheIndex.size CacheIndex.subindexcount CacheIndex.subindices].
  destruct (getFile disk this major (Z.of_nat minor)) as [file|err] eqn:Hfile;
    [|discriminate].
  rewrite (proj2 (Z.eqb_neq major 0)) in Harch by exact Hmajor.
  injection Harch as <-.
  exists file. split; [reflexivity|].
  assert (Hlen : Buffer.length file = uint24_at indexBuffer (Z.of_nat minor * 6)).
  { unfold getFile in Hfile. rewrite Hreg in Hfile.
    destruct (getFile_try disk this indexPath major (Z.of_nat minor))
      as [buf|?] eqn:Ht; [|discriminate].
    injection Hfile as ->.
    unfold getFile_try, indexEntrySize, Fs.open, Fs.readFile in Ht.
    rewrite Hidx in Ht. cbn [lift_fs rbind] in Ht.
    destruct (Z.ltb_spec (Buffer.length indexBuffer) (Z.of_nat minor * 6 + 6))
      as [|Hin]; [discriminate|].
    rewrite !readUIntBE_3 in Ht by lia. cbn [lift_buffer rbind] in Ht.
    set (S := uint24_at indexBuffer (Z.of_nat minor * 6)) in *.
    set (O := uint24_at indexBuffer (Z.of_nat minor * 6 + 3)) in *.
    pose proof (uint24_at_bounds indexBuffer (Z.of_nat minor * 6 + 3) Hbytes)
      as HO. fold O in HO.
    rewrite (proj2 (Z.eqb_neq S 0)) in Ht by lia.
    destruct (disk !! datFile this) as [dat|]; cbn [lift_fs rbind] in Ht;
      [|discriminate].
    pose proof (Fs_read_count dat (Buffer.alloc S) S O) as Hcount.
    destruct (Fs.read dat (Buffer.alloc S) S O) as [bytesRead buffer] eqn:Hread.
    cbn [fst] in Hcount.
    destruct (Z.eqb_spec bytesRead S) as [Heq|]; cbn [negb] in Ht;
      [|discriminate].
    injection Ht as <-. rewrite Hcount in Heq by lia.
    rewrite Fs_read_full in Hread by lia. injection Hread as _ <-.
    unfold Buffer.slice, Buffer.length in *.
    rewrite length_take, length_drop. lia. }
  rewrite Hlen. split; [reflexivity|]. split; reflexivity.
Qed.

Lemma getFileArchive_of_listed_entry_witness :
  exists file,
    getFile sample_disk sample_store 2 (Z.of_nat 1) = Ok file /\
    [{| sub_buffer := [12; 13; 14]; fileid := 0; namehash := None;
        sub_offset := 0; sub_size := 3 |}]
    = [{| sub_buffer := file; fileid := 0; namehash := None;
          sub_offset := 0; sub_size := CacheIndex.size (entry 2 1 3) |}] /\
    Z.of_nat 1 = CacheIndex.subindexcount (entry 2 1 3) /\
    [0] = CacheIndex.subindices (entry 2 1 3).
Proof.
  apply (getFileArchive_of_listed_entry unit (fun _ _ _ => Err tt)
           sample_disk sample_store 2 (lit "cache/main_file_cache.idx2")
           sample_index [None; Some (entry 2 1 3); Some (entry 2 2 1)] 1
           (entry 2 1 3)
           [{| sub_buffer := [12; 13; 14]; fileid := 0; namehash := None;
               sub_offset := 0; sub_size := 3 |}]);
    try reflexivity; try discriminate.
  unfold byte. repeat constructor; lia.
Defined.

(* ===================================================================== *)
(** ** More on the format detector *)

Section DetectorCounts.

Import Autocache.

Lemma matching_cons (p : jsstring -> bool) (f : jsstring)
    (files : list jsstring) :
  matching p (f :: files) = b2z (p f) + matching p files.
Proof. unfold matching, b2z. apply length_filter_cons. Qed.

(** The counts of a listing, by signature. *)
Lemma count_files_matching (files : list jsstring) :
  let c := count_files files in
  jcachecount c = matching (has_ext "jcache") files /\
  datcount c = matching (has_ext "dat") files /\
  dat2count c = matching (has_ext "dat2") files /\
  jagcount c = matching (has_ext "jag") files /\
  idxcount c = matching match_idx files.
Proof.
  cbn zeta. unfold count_files.
  destruct (count_from zero files) as (H1 & H2 & H3 & H4 & H5).
  rewrite H1, H2, H3, H4, H5. unfold matching. repeat split; cbn; lia.
Qed.

Lemma matching_zero (p : jsstring -> bool) (files : list jsstring) :
  matching p files = 0 <-> forall f, f ∈ files -> p f = false.
Proof.
  induction files as [|f files IH].
  - split; [intros _ f Hf; inversion Hf | reflexivity].
  - rewrite matching_cons. unfold b2z. split.
    + intros H f' Hf'.
      assert (0 <= matching p files) by (unfold matching; lia).
      destruct (p f) eqn:Hp; [lia|].
      apply elem_of_cons in Hf' as [->|Hf']; [exact Hp|].
      apply IH; [lia | exact Hf'].
    + intros H. rewrite (H f) by left.
      apply IH. intros f' Hf'. apply H. right. exact Hf'.
Qed.

Lemma matching_pos (p : jsstring -> bool) (files : list jsstring) :
  0 < matching p files -> exists f, f ∈ files /\ p f = true.
Proof.
  induction files as [|f files IH]; [vm_compute; discriminate|].
  rewrite matching_cons. unfold b2z. intros H. destruct (p f) eqn:Hp.
  - exists f. split; [left | exact Hp].
  - destruct IH as (f' & Hin & Hf'); [lia|].
    exists f'. split; [right; exact Hin | exact Hf'].
Qed.

Lemma matching_Permutation (p : jsstring -> bool) (files files' : list jsstring) :
  files ≡ₚ files' -> matching p files = matching p files'.
Proof. intros H. unfold matching. rewrite H. reflexivity. Qed.

Lemma Counts_eq (c c' : Counts) :
  jcachecount c = jcachecount c' -> datcount c = datcount c' ->
  dat2count c = dat2count c' -> jagcount c = jagcount c' ->
  idxcount c = idxcount c' -> c = c'.
Proof. destruct c, c'. cbn. intros -> -> -> -> ->. reflexivity. Qed.

(** *** One signature per file *)

Lemma match_ext_at_dot (pre r : jsstring) :
  Forall (fun c => c <> 46) pre ->
  nonempty r = true -> forallb is_word r = true ->
  match_ext (pre ++ 46 :: r) = Some r.
Proof.
  intros Hpre Hne Hw. induction Hpre as [|c pre Hc _ IH]; cbn [app match_ext].
  - rewrite Hne, Hw. reflexivity.
  - rewrite (proj2 (Z.eqb_neq c 46)) by exact Hc. exact IH.
Qed.

Lemma digit_is_word (c : Z) : is_digit c = true -> is_word c = true.
Proof. unfold is_word. intros ->. rewrite orb_true_r. reflexivity. Qed.

Lemma match_ext_index_file (digits : jsstring) :
  numeral digits ->
  match_ext (index_file_name digits) = Some (lit "idx" ++ digits).
Proof.
  intros Hn. apply digits_numeral_iff in Hn.
  apply andb_true_iff in Hn as [_ Hd].
  change (index_file_name digits)
    with (lit "main_file_cache" ++ 46 :: lit "idx" ++ digits).
  apply match_ext_at_dot.
  - vm_compute. repeat constructor; discriminate.
  - reflexivity.
  - change (lit "idx" ++ digits) with (105 :: 100 :: 120 :: digits).
    cbn [forallb]. change (is_word 105) with true.
    change (is_word 100) with true. change (is_word 120) with true.
    cbn [andb]. rewrite forallb_forall in *.
    intros c Hc. apply digit_is_word, Hd, Hc.
Qed.

Lemma ext_is_eq (ext : option jsstring) (s : string) :
  ext_is ext s = true <-> ext = Some (lit s).
Proof.
  unfold ext_is, JsString.eqb. destruct ext as [e|].
  - rewrite bool_decide_eq_true. split; congruence.
  - split; discriminate.
Qed.

Ltac decide_literals :=
  repeat match goal with
         | |- context [bool_decide (?a = ?b)] =>
           first [ rewrite (bool_decide_eq_true_2 (a = b)) by reflexivity
                 | rewrite (bool_decide_eq_false_2 (a = b))
                     by (vm_compute; discriminate) ]
         end.

(** A name carries at most one of the five signatures. *)
Lemma one_signature (f : jsstring) :
  b2z (has_ext "jcache" f) + b2z (has_ext "dat" f) + b2z (has_ext "dat2" f)
  + b2z (has_ext "jag" f) + b2z (match_idx f) <= 1.
Proof.
  destruct (match_idx f) eqn:Hidx.
  - apply match_idx_digits in Hidx as [d Hd].
    apply idx_digits_Some in Hd as [-> Hn].
    unfold has_ext. rewrite (match_ext_index_file d Hn).
    unfold ext_is, JsString.eqb.
    rewrite !bool_decide_eq_false_2 by (vm_compute; discriminate).
    cbn. lia.
  - unfold has_ext, ext_is, JsString.eqb.
    destruct (match_ext f) as [e|]; [|cbn; lia].
    destruct (decide (e = lit "jcache")) as [->|N1]; [decide_literals; cbn; lia|].
    destruct (decide (e = lit "dat")) as [->|N2]; [decide_literals; cbn; lia|].
    destruct (decide (e = lit "dat2")) as [->|N3]; [decide_literals; cbn; lia|].
    rewrite !bool_decide_eq_false_2 by assumption.
    unfold b2z. destruct (bool_decide (e = lit "jag")); lia.
Qed.

Lemma matching_sum (files : list jsstring) :
  matching (has_ext "jcache") files + matching (has_ext "dat") files
  + matching (has_ext "dat2") files + matching (has_ext "jag") files
  + matching match_idx files <= Z.of_nat (List.length files).
Proof.
  induction files as [|f files IH]; [vm_compute; discriminate|].
  rewrite !matching_cons. pose proof (one_signature f) as H1.
  cbn [List.length]. lia.
Qed.

(** *** The branches of the selection *)

Lemma count_of_le_maxcount (s : Signature) (c : Counts) :
  count_of s c <= maxcount c.
Proof. unfold maxcount. destruct s; cbn [count_of]; lia. Qed.

End DetectorCounts.

(** X19. Whatever the file system and the options, the detector reports
    "no cache files found" exactly when no listed name carries any of the
    five signatures: no [.jcache], [.dat], [.dat2] or [.jag] extension and
    no index file name. *)
Theorem selectFsCache_no_files_iff (fs : ScriptFS) (files : list jsstring)
    (opts : option CacheOpts) :
  selectFsCache fs files opts = Err NoCacheFilesFound
  <->
  forall f, f ∈ files ->
    has_ext "jcache" f = false /\ has_ext "dat" f = false /\
    has_ext "dat2" f = false /\ has_ext "jag" f = false /\
    match_idx f = false.
Proof.
  pose proof (count_files_matching files) as Hc. cbn zeta in Hc.
  destruct Hc as (H1 & H2 & H3 & H4 & H5).
  pose proof (count_files_nonneg files) as Hnn. cbn zeta in Hnn.
  assert (Hzero : maxcount (count_files files) = 0 <->
            matching (has_ext "jcache") files = 0 /\
            matching (has_ext "dat") files = 0 /\
            matching (has_ext "dat2") files = 0 /\
            matching (has_ext "jag") files = 0 /\
            matching match_idx files = 0).
  { rewrite <- H1, <- H2, <- H3, <- H4, <- H5. unfold maxcount. lia. }
  rewrite !matching_zero in Hzero.
  assert (Hsel : selectFsCache fs files opts = Err NoCacheFilesFound
                 <-> maxcount (count_files files) = 0).
  { unfold selectFsCache, select, select_legacy, select_rest.
    destruct (Z.eqb_spec (maxcount (count_files files)) 0) as [Hm|Hm].
    - split; [intros _; exact Hm | reflexivity].
    - split; [|contradiction]. intros Hsel. exfalso.
      destruct (maxcount (count_files files) =? jcachecount (count_files files)),
        ((maxcount (count_files files) =? idxcount (count_files files))
         && (0 <? dat2count (count_files files))),
        (maxcount (count_files files) =? jagcount (count_files files)),
        fs as [dir|[h|]|]; discriminate. }
  rewrite Hsel, Hzero. split.
  - intros (A & B & C & D & I) f Hf.
    split; [apply A, Hf|]. split; [apply B, Hf|]. split; [apply C, Hf|].
    split; [apply D, Hf | apply I, Hf].
  - intros H. repeat split; intros f Hf; apply (H f Hf).
Qed.

(** X20. A store the detector selects always has a signature with the
    highest count in the listing, carried by at least one file; the store
    is built from the file system given, and the legacy store is selected
    only when a [.dat2] file is listed. *)
Theorem selectFsCache_picks_a_highest_count (fs : ScriptFS)
    (files : list jsstring) (opts : option CacheOpts) (src : CacheSource) :
  selectFsCache fs files opts = Ok src ->
  let c := count_files files in
  0 < count_of (signature_of src) c /\
  (forall s, count_of s c <= count_of (signature_of src) c) /\
  match src with
  | GameCacheLoader dir w =>
    fs = CLIScriptFS dir /\
    w = match opts with
        | Some o => default false (writable o)
        | None => false
        end
  | WasmGameCacheLoader roothandle => fs = WebFsScriptFS (Some roothandle)
  | NewLegacyFileSource dir mappingFile =>
    fs = CLIScriptFS dir /\ mappingFile = lit "rs2_727.ini" /\ 0 < dat2count c
  | ClassicFileSource_create fs' => fs' = fs
  end.
Proof.
  intros Hsel c.
  pose proof (count_files_nonneg files) as Hnn. cbn zeta in Hnn. fold c in Hnn.
  assert (Hmax : forall s, count_of s c <= maxcount c)
    by (intros s; apply count_of_le_maxcount).
  assert (Hpos : 0 <= maxcount c) by (unfold maxcount; lia).
  unfold selectFsCache, select, select_legacy, select_rest in Hsel.
  fold c in Hsel.
  destruct (Z.eqb_spec (maxcount c) 0) as [|Hnz]; [discriminate|].
  destruct (Z.eqb_spec (maxcount c) (jcachecount c)) as [Hj|Hj];
    destruct (Z.eqb_spec (maxcount c) (idxcount c)) as [Hi|Hi];
    destruct (Z.ltb_spec 0 (dat2count c)) as [Hd|Hd];
    destruct (Z.eqb_spec (maxcount c) (jagcount c)) as [Hg|Hg];
    destruct fs as [dir|[h|]|]; cbn [andb] in Hsel;
    try discriminate; injection Hsel as <-;
    cbn [signature_of count_of];
    (split; [lia|]); (split; [intros s; specialize (Hmax s); lia|]);
    auto.
Qed.

Lemma selectFsCache_picks_a_highest_count_witness :
  let files := [lit "main_file_cache.idx0"; lit "main_file_cache.dat2";
                lit "title.jag"] in
  let src := NewLegacyFileSource (lit "cache") (lit "rs2_727.ini") in
  let c := count_files files in
  0 < count_of (signature_of src) c /\
  (forall s, count_of s c <= count_of (signature_of src) c) /\
  CLIScriptFS (lit "cache") = CLIScriptFS (lit "cache") /\
  lit "rs2_727.ini" = lit "rs2_727.ini" /\ 0 < dat2count c.
Proof.
  apply (selectFsCache_picks_a_highest_count (CLIScriptFS (lit "cache"))
           [lit "main_file_cache.idx0"; lit "main_file_cache.dat2";
            lit "title.jag"] None
           (NewLegacyFileSource (lit "cache") (lit "rs2_727.ini"))).
  vm_compute. reflexivity.
Defined.

(** X21. The detector does not depend on the order in which the directory
    lists its files. *)
Theorem selectFsCache_order_independent (fs : ScriptFS)
    (files files' : list jsstring) (opts : option CacheOpts) :
  files ≡ₚ files' ->
  count_files files' = count_files files /\
  selectFsCache fs files' opts = selectFsCache fs files opts.
Proof.
  intros Hperm.
  assert (Hc : count_files files' = count_files files).
  { pose proof (count_files_matching files) as H. cbn zeta in H.
    pose proof (count_files_matching files') as H'. cbn zeta in H'.
    destruct H as (H1 & H2 & H3 & H4 & H5).
    destruct H' as (H1' & H2' & H3' & H4' & H5').
    apply Counts_eq.
    - rewrite H1, H1'. symmetry. apply matching_Permutation, Hperm.
    - rewrite H2, H2'. symmetry. apply matching_Permutation, Hperm.
    - rewrite H3, H3'. symmetry. apply matching_Permutation, Hperm.
    - rewrite H4, H4'. symmetry. apply matching_Permutation, Hperm.
    - rewrite H5, H5'. symmetry. apply matching_Permutation, Hperm. }
  split; [exact Hc|]. unfold selectFsCache. rewrite Hc. reflexivity.
Qed.

Lemma selectFsCache_order_independent_witness :
  let files := [lit "main_file_cache.idx0"; lit "main_file_cache.dat2"] in
  let files' := [lit "main_file_cache.dat2"; lit "main_file_cache.idx0"] in
  count_files files' = count_files files /\
  selectFsCache (CLIScriptFS (lit "cache")) files' None
  = selectFsCache (CLIScriptFS (lit "cache")) files None.
Proof.
  apply (selectFsCache_order_independent (CLIScriptFS (lit "cache"))
           [lit "main_file_cache.idx0"; lit "main_file_cache.dat2"]
           [lit "main_file_cache.dat2"; lit "main_file_cache.idx0"] None).
  apply perm_swap.
Defined.

(** X22. The counting loop gives every listed file to at most one of its
    five counters: the counts are the numbers of names with each
    signature, an index file name has none of the four extensions, and
    the five counts together never exceed the number of listed files. *)
Theorem count_files_one_counter_per_file (files : list jsstring) :
  let c := count_files files in
  (jcachecount c = matching (has_ext "jcache") files /\
   datcount c = matching (has_ext "dat") files /\
   dat2count c = matching (has_ext "dat2") files /\
   jagcount c = matching (has_ext "jag") files /\
   idxcount c = matching match_idx files)
  /\
  (forall f, match_idx f = true ->
     has_ext "jcache" f = false /\ has_ext "dat" f = false /\
     has_ext "dat2" f = false /\ has_ext "jag" f = false)
  /\
  jcachecount c + datcount c + dat2count c + jagcount c + idxcount c
  <= Z.of_nat (List.length files).
Proof.
  intros c. pose proof (count_files_matching files) as Hc. cbn zeta in Hc.
  fold c in Hc. split; [exact Hc|]. split.
  - intros f Hf. pose proof (one_signature f) as H1. rewrite Hf in H1.
    unfold b2z in H1.
    destruct (has_ext "jcache" f), (has_ext "dat" f), (has_ext "dat2" f),
      (has_ext "jag" f); repeat split; (reflexivity || lia).
  - destruct Hc as (H1 & H2 & H3 & H4 & H5).
    rewrite H1, H2, H3, H4, H5. apply matching_sum.
Qed.

(** X23. When the detector selects the legacy store for a listing, the
    store's own scan of that listing finds at least one index file, and
    the listing holds a [.dat2] file. *)
Theorem legacy_selection_finds_index_files
    (resolve : list Z -> list Z -> list Z) (cachedir : jsstring)
    (fs : ScriptFS) (files : list jsstring) (opts : option CacheOpts)
    (dir mappingFile : jsstring) :
  selectFsCache fs files opts = Ok (NewLegacyFileSource dir mappingFile) ->
  (exists f, f ∈ files /\ has_ext "dat2" f = true) /\
  exists indexFiles major,
    scanIndexFiles resolve cachedir (Some files) = Ok indexFiles /\
    is_Some (indexFiles !! major).
Proof.
  intros Hsel.
  pose proof (count_files_matching files) as Hc. cbn zeta in Hc.
  destruct Hc as (_ & _ & H3 & _ & H5).
  pose proof (count_files_nonneg files) as Hnn. cbn zeta in Hnn.
  set (c := count_files files) in *.
  assert (Hpos : 0 <= maxcount c) by (unfold maxcount; lia).
  assert (Hlegacy : maxcount c <> 0 /\ maxcount c = idxcount c
                    /\ 0 < dat2count c).
  { unfold selectFsCache, select, select_legacy, select_rest in Hsel.
    fold c in Hsel.
    destruct (Z.eqb_spec (maxcount c) 0) as [|Hnz]; [discriminate|].
    destruct (Z.eqb_spec (maxcount c) (jcachecount c)) as [Hj|Hj];
      destruct (Z.eqb_spec (maxcount c) (idxcount c)) as [Hi|Hi];
      destruct (Z.ltb_spec 0 (dat2count c)) as [Hd|Hd];
      destruct (Z.eqb_spec (maxcount c) (jagcount c)) as [Hg|Hg];
      destruct fs as [dir'|[h|]|]; cbn [andb] in Hsel;
      try discriminate; auto. }
  destruct Hlegacy as (Hnz & Hi & Hd). split.
  - apply matching_pos. lia.
  - destruct (matching_pos match_idx files) as (f & Hin & Hf); [lia|].
    apply match_idx_digits in Hf as [d Hd'].
    apply idx_digits_Some in Hd' as [-> Hn].
    eexists. exists (numeral_value d). split; [reflexivity|].
    apply scan_foldl_found; assumption.
Qed.

Lemma legacy_selection_finds_index_files_witness :
  let files := [lit "main_file_cache.idx0"; lit "main_file_cache.dat2"] in
  (exists f, f ∈ files /\ has_ext "dat2" f = true) /\
  exists indexFiles major,
    scanIndexFiles (fun dir file => dir ++ [47] ++ file) (lit "cache")
      (Some files) = Ok indexFiles /\
    is_Some (indexFiles !! major).
Proof.
  apply (legacy_selection_finds_index_files
           (fun dir file => dir ++ [47] ++ file) (lit "cache")
           (CLIScriptFS (lit "cache"))
           [lit "main_file_cache.idx0"; lit "main_file_cache.dat2"] None
           (lit "cache") (lit "rs2_727.ini")).
  vm_compute. reflexivity.
Defined.
